(** * The attack-feed hook [useWebSocket], verified

    A shallow embedding of [src/hooks/useWebSocket.ts] (the file the
    repository's [App.tsx] imports the hook from) and of the part of the
    JavaScript run-time the hook stands on: decoded JSON values, member reads,
    [typeof], truthiness, conversion to property keys, the enumeration order
    of a plain object and the stable [Array.prototype.sort].

    Conventions.
    - A JavaScript [number] is an IEEE double: a finite value, kept as the
      rational it denotes, an infinity or NaN.  A difference or a quotient
      is the exact one rounded to the nearest double ([binary64]), with the
      infinities and NaN where the language gives them.  The two zeros are
      one value; the code never divides by one.
    - [undefined] is [None] of [option json]; no decoded JSON value is
      [undefined].
    - What the engine supplies and the repository does not define
      ([JSON.parse], [Number.prototype.toString]) is a Section variable.
    - The clock ([new Date()]) is an argument, in milliseconds. *)

From Stdlib Require Import QArith Qround Qabs Qpower Qreduction Lqa.
From stdpp Require Import base strings list sorting.

Close Scope Q_scope.
Open Scope string_scope.
Open Scope list_scope.

(** ** JavaScript values, as [JSON.parse] builds them *)

Module JS.

Inductive number : Type :=
| Finite (q : Q)
| Infinity (negative : bool)
| NaN.

(** [JObj] lists the members in the order of the source text; a name that
    is repeated takes its last value, as [JSON.parse] assigns them in turn. *)
#[warnings="-register-all"]
Inductive json : Type :=
| JNull
| JBool (b : bool)
| JNum (n : number)
| JStr (s : string)
| JArr (items : list json)
| JObj (members : list (string * json)).

(** A value that may be [undefined]. *)
Abbreviation value := (option json).

Definition isFinite (n : number) : bool :=
  match n with Finite _ => true | _ => false end.

(** [typeof v] *)
Definition typeof (v : value) : string :=
  match v with
  | None => "undefined"
  | Some JNull | Some (JArr _) | Some (JObj _) => "object"
  | Some (JBool _) => "boolean"
  | Some (JNum _) => "number"
  | Some (JStr _) => "string"
  end.

(** ToBoolean: what [&&], [||], [!] and [if] test. *)
Definition ToBoolean (v : value) : bool :=
  match v with
  | None | Some JNull => false
  | Some (JBool b) => b
  | Some (JNum (Finite q)) => negb (Qeq_bool q 0)
  | Some (JNum (Infinity _)) => true
  | Some (JNum NaN) => false
  | Some (JStr s) => negb (String.eqb s "")
  | Some (JArr _) | Some (JObj _) => true
  end.

(** The own property [k] of a decoded object. *)
Fixpoint own_property (k : string) (members : list (string * json)) : value :=
  match members with
  | [] => None
  | (k', v) :: rest =>
      match own_property k rest with
      | Some later => Some later
      | None => if String.eqb k' k then Some v else None
      end
  end.

(** [v.k] for a [v] that is neither [null] nor [undefined] (reading a
    member of those throws; see [member] for the unguarded read).  The
    hook reads only the names [src_geo], [dst_geo], [lon], [lat],
    [country], [type], [payload], [total] and [countries]; no prototype
    (of Object, Array, String, Number, Boolean) defines any of them, so
    on everything but an object with that own property the read is
    [undefined]. *)
Definition get (v : value) (k : string) : value :=
  match v with
  | Some (JObj members) => own_property k members
  | _ => None
  end.

(** *** Arithmetic on doubles *)

(** The integer nearest to [q], the even one of two that are equally near. *)
Definition round_half_even (q : Q) : Z :=
  let f := Qfloor q in
  match (q - inject_Z f ?= 1 # 2)%Q with
  | Lt => f
  | Gt => (f + 1)%Z
  | Eq => if Z.even f then f else (f + 1)%Z
  end.

(** For [0 < q], the exponent [e] with [2 ^ e <= q < 2 ^ (e + 1)]. *)
Definition binade (q : Q) : Z :=
  let e := (Z.log2 (Qnum q) - Z.log2 (Z.pos (Qden q)))%Z in
  if Qle_bool (2 ^ e) q then e else (e - 1)%Z.

(** [q < 0] *)
Definition is_negative (q : Q) : bool := negb (Qle_bool 0 q).

(** The exponent of the last bit of the double nearest to [q], and that
    double's significand: 53 bits from the first bit of [q] down, fewer
    below [2 ^ -1022], where the last bit stays at [2 ^ -1074]. *)
Definition exponent (q : Q) : Z := Z.max (binade (Qabs q) - 52) (-1074).

Definition significand (q : Q) : Z := round_half_even (Qabs q / 2 ^ exponent q).

(** The double nearest to the real [q] (binary64, round to nearest, ties
    to even), an infinity from [2 ^ 1024 - 2 ^ 970] on. *)
Definition binary64 (q : Q) : number :=
  if Qeq_bool q 0 then Finite 0
  else
    let r := (inject_Z (significand q) * 2 ^ exponent q)%Q in
    if Qle_bool (2 ^ 1024) r then Infinity (is_negative q)
    else Finite (Qred (if is_negative q then - r else r)).

(** [a - b] *)
Definition Number_subtract (a b : number) : number :=
  match a, b with
  | NaN, _ | _, NaN => NaN
  | Infinity s, Infinity s' => if Bool.eqb s s' then NaN else Infinity s
  | Infinity s, Finite _ => Infinity s
  | Finite _, Infinity s => Infinity (negb s)
  | Finite x, Finite y => binary64 (x - y)
  end.

(** [a / b]; a finite value over zero is an infinity, of the sign of the
    dividend over [+0], and zero over zero is NaN. *)
Definition Number_divide (a b : number) : number :=
  match a, b with
  | NaN, _ | _, NaN => NaN
  | Infinity _, Infinity _ => NaN
  | Infinity s, Finite y => Infinity (xorb s (is_negative y))
  | Finite _, Infinity _ => Finite 0
  | Finite x, Finite y =>
      if Qeq_bool y 0
      then if Qeq_bool x 0 then NaN else Infinity (is_negative x)
      else binary64 (x / y)
  end.

(** [a > b] *)
Definition Number_gt (a b : number) : bool :=
  match a, b with
  | NaN, _ | _, NaN => false
  | Finite x, Finite y => negb (Qle_bool x y)
  | Infinity s, Finite _ => negb s
  | Finite _, Infinity s => s
  | Infinity s, Infinity s' => negb s && s'
  end.

End JS.
Export JS.

(** ** The event validator (the [filter] callback of [onmessage])

<<
  attack && typeof attack === 'object' && attack.src_geo && attack.dst_geo &&
  typeof attack.src_geo.lon === 'number' && typeof attack.src_geo.lat === 'number' &&
  typeof attack.dst_geo.lon === 'number' && typeof attack.dst_geo.lat === 'number'
>>
    [&&] evaluates its right operand only when the left one is truthy, so
    [attack.src_geo] is read of a non-null [attack] and [.lon], [.lat] of a
    truthy [src_geo]: no read throws, and [filter] keeps the candidate iff
    every conjunct is truthy. *)
Definition isValidAttack (attack : json) : bool :=
  ToBoolean (Some attack)
  && String.eqb (typeof (Some attack)) "object"
  && ToBoolean (get (Some attack) "src_geo")
  && ToBoolean (get (Some attack) "dst_geo")
  && String.eqb (typeof (get (get (Some attack) "src_geo") "lon")) "number"
  && String.eqb (typeof (get (get (Some attack) "src_geo") "lat")) "number"
  && String.eqb (typeof (get (get (Some attack) "dst_geo") "lon")) "number"
  && String.eqb (typeof (get (get (Some attack) "dst_geo") "lat")) "number".

(** The validator as the specification words it, to compare with the code:
    a non-null record with a source-point and a destination-point record
    whose four coordinates are finite numbers. *)
Definition finite_coordinate (point : list (string * json)) (k : string) : bool :=
  match own_property k point with
  | Some (JNum n) => isFinite n
  | _ => false
  end.

Definition validator_as_specified (attack : json) : bool :=
  match attack with
  | JObj members =>
      match own_property "src_geo" members, own_property "dst_geo" members with
      | Some (JObj src), Some (JObj dst) =>
          finite_coordinate src "lon" && finite_coordinate src "lat"
          && finite_coordinate dst "lon" && finite_coordinate dst "lat"
      | _, _ => false
      end
  | _ => false
  end.

(** What the code tests instead: the coordinate has type [number]. *)
Definition number_coordinate (point : list (string * json)) (k : string) : bool :=
  match own_property k point with
  | Some (JNum _) => true
  | _ => false
  end.


(** ** Completions of run-time operations

    An operation returns, throws a [TypeError], or ends in a state the
    language leaves to the engine (see [ranking]). *)
Inductive outcome (A : Type) : Type :=
| Returns (a : A)
| ThrowsTypeError
| EngineDefined.
Arguments Returns {A} a.
Arguments ThrowsTypeError {A}.
Arguments EngineDefined {A}.

#[global] Instance outcome_ret : MRet outcome := fun A a => Returns a.
#[global] Instance outcome_bind : MBind outcome := fun A B f m =>
  match m with
  | Returns a => f a
  | ThrowsTypeError => ThrowsTypeError
  | EngineDefined => EngineDefined
  end.

(** [l.forEach(f)] threading the state [f] mutates. *)
Fixpoint forEach {S A : Type} (f : S -> A -> outcome S) (l : list A) (s : S) : outcome S :=
  match l with
  | [] => Returns s
  | x :: rest => s' ← f s x; forEach f rest s'
  end.

(** [v.k] with no guard: reading a member of [null] throws. *)
Definition member (v : json) (k : string) : outcome value :=
  match v with
  | JNull => ThrowsTypeError
  | _ => Returns (get (Some v) k)
  end.

(** ** Plain objects used as counters

    [{}] whose cells the code fills by [obj[key] = (obj[key] || 0) + 1]. *)

(** The names every plain object inherits from [Object.prototype]. *)
Definition Object_prototype_names : list string :=
  [ "constructor"; "hasOwnProperty"; "isPrototypeOf"; "propertyIsEnumerable";
    "toLocaleString"; "toString"; "valueOf"; "__proto__";
    "__defineGetter__"; "__defineSetter__"; "__lookupGetter__"; "__lookupSetter__" ].

(** A cell holds a count, or text: for an inherited name [obj[key]] reads
    the inherited function, which is truthy, and [+ 1] concatenates. *)
Inductive cell : Type :=
| Count (n : nat)
| Text.

(** The own properties in creation order. *)
Definition counter : Type := list (string * cell).

(** [(c || 0) + 1] for an own cell [c] *)
Definition plus_one (c : cell) : cell :=
  match c with
  | Count n => Count (n + 1)
  | Text => Text
  end.

(** The first value of a name that is not yet an own property:
    [(undefined || 0) + 1], or text under an inherited name. *)
Definition first_cell (key : string) : cell :=
  if bool_decide (key ∈ Object_prototype_names) then Text else Count 1.

Fixpoint assign_plus_one (key : string) (obj : counter) : counter :=
  match obj with
  | [] => [(key, first_cell key)]
  | (k, c) :: rest =>
      if String.eqb k key then (k, plus_one c) :: rest
      else (k, c) :: assign_plus_one key rest
  end.

(** [obj[key] = (obj[key] || 0) + 1].  Under ["__proto__"] the read yields
    [Object.prototype] and the write reaches the inherited setter, which
    ignores a string: the object is unchanged. *)
Definition increment (obj : counter) (key : string) : counter :=
  if String.eqb key "__proto__" then obj else assign_plus_one key obj.

(** *** Enumeration order

    [Object.entries] lists the own properties whose name is an array index
    (the canonical decimal text of an integer below 2^32 - 1) in ascending
    numeric order, then the other names in creation order. *)
Definition digit (c : Ascii.ascii) : option N :=
  let n := Ascii.N_of_ascii c in
  if ((48 <=? n) && (n <=? 57))%N then Some (n - 48)%N else None.

Fixpoint digits (s : string) (acc : N) : option N :=
  match s with
  | EmptyString => Some acc
  | String c rest =>
      match digit c with
      | Some d => digits rest (10 * acc + d)%N
      | None => None
      end
  end.

Definition array_index (key : string) : option N :=
  match key with
  | EmptyString => None
  | String c rest =>
      if (Ascii.N_of_ascii c =? 48)%N && negb (String.eqb rest "") then None
      else match digits key 0 with
           | Some n => if (n <? 2 ^ 32 - 1)%N then Some n else None
           | None => None
           end
  end.

Definition is_array_index (key : string) : bool :=
  match array_index key with Some _ => true | None => false end.

(** *** [Array.prototype.sort]

    The sort is stable (ECMAScript 2019): with a consistent comparator
    the result is the one list that is ordered and keeps equal elements
    in their original order, whatever algorithm the engine runs
    ([sort_is_the_stable_sort] below).  Insertion from the right computes
    it.  [comparefn a b > 0] puts [b] before [a]. *)
Section Sort.
Context {A : Type} (comparefn : A -> A -> Z).

Fixpoint sort_insert (x : A) (sorted : list A) : list A :=
  match sorted with
  | [] => [x]
  | y :: rest =>
      if (0 <? comparefn x y)%Z then y :: sort_insert x rest
      else x :: y :: rest
  end.

Definition sort (l : list A) : list A := foldr sort_insert [] l.
End Sort.

Definition index_of (key : string) : Z :=
  match array_index key with Some n => Z.of_N n | None => 0 end.

Definition entries {V : Type} (obj : list (string * V)) : list (string * V) :=
  sort (fun a b => index_of a.1 - index_of b.1)%Z
       (filter (fun p => is_array_index p.1 = true) obj)
  ++ filter (fun p => is_array_index p.1 = false) obj.

(** ** The statistics of a buffer: [calculateStats] *)

Record Stats : Type := {
  totalAttacks : nat;
  attacksPerMinute : number;
  topSourceCountries : list (string * nat);   (* [{country, count}] *)
  topTargetCountries : list (string * nat);   (* [{country, count}] *)
  attackTypes : list (string * nat);          (* [{type, count}] *)
}.

(** [a?.k] *)
Definition optional (a : value) (k : string) : value :=
  match a with
  | None | Some JNull => None
  | Some _ => get a k
  end.

(** [a === 'text'] *)
Definition strict_equals (a : value) (text : string) : bool :=
  match a with
  | Some (JStr s) => String.eqb s text
  | _ => false
  end.

(** [a || b] *)
Definition or_else (a b : value) : value :=
  if ToBoolean a then a else b.

Definition count_of (c : cell) : option nat :=
  match c with Count n => Some n | Text => None end.

Definition group_of (entry : string * cell) : option (string * nat) :=
  n ← count_of entry.2; Some (entry.1, n).

(** [(a, b) => b.count - a.count] *)
Definition by_count_descending (a b : string * nat) : Z :=
  (Z.of_nat b.2 - Z.of_nat a.2)%Z.

(** [Object.entries(obj).map(([k, count]) => ({k, count})).sort((a, b) => b.count - a.count)].
    With a text cell the difference is [NaN] against every other group:
    the comparator is not consistent, the language leaves the order to
    the engine, and the text itself is the engine's rendering of a
    built-in function. *)
Definition ranking (obj : counter) : outcome (list (string * nat)) :=
  match mapM group_of (entries obj) with
  | Some groups => Returns (sort by_count_descending groups)
  | None => EngineDefined
  end.

(** [date.getTime()] of a date at [t] milliseconds: time values are
    integers below [2 ^ 53], which a double holds exactly. *)
Definition getTime (t : Z) : number := Finite (inject_Z t).

(** [(now.getTime() - startTimeRef.current.getTime()) / (1000 * 60)] *)
Definition timeDiff (now start : Z) : number :=
  Number_divide (Number_subtract (getTime now) (getTime start)) (Finite (1000 * 60)).

(** [timeDiff > 0 ? allAttacks.length / timeDiff : 0] *)
Definition rate (allAttacks_length : nat) (timeDiff : number) : number :=
  if Number_gt timeDiff (Finite 0)
  then Number_divide (Finite (inject_Z (Z.of_nat allAttacks_length))) timeDiff
  else Finite 0.

Section Runtime.
(** [Number.prototype.toString], the shortest decimal text that reads
    back as the same double. *)
Variable Number_toString : number -> string.

(** ToString of a decoded value.  An array joins the texts of its items
    with commas, [null] giving the empty text.  A decoded object has no
    callable member of its own: with an own [toString] neither that nor
    the inherited [valueOf] yields a primitive and the conversion throws;
    without, [Object.prototype.toString] answers. *)
Fixpoint ToString (v : json) : outcome string :=
  match v with
  | JNull => Returns "null"
  | JBool true => Returns "true"
  | JBool false => Returns "false"
  | JNum n => Returns (Number_toString n)
  | JStr s => Returns s
  | JArr items =>
      (fix join (l : list json) : outcome string :=
         match l with
         | [] => Returns ""
         | x :: rest =>
             s ← match x with JNull => Returns "" | _ => ToString x end;
             match rest with
             | [] => Returns s
             | _ :: _ => t ← join rest; Returns (s +:+ "," +:+ t)
             end
         end) items
  | JObj members =>
      match own_property "toString" members with
      | Some _ => ThrowsTypeError
      | None => Returns "[object Object]"
      end
  end.

(** ToPropertyKey, the conversion [obj[v]] applies to [v]. *)
Definition ToPropertyKey (v : value) : outcome string :=
  match v with
  | None => Returns "undefined"
  | Some j => ToString j
  end.

(** [attack.<geo>?.country || 'Unknown'] as a property key *)
Definition country_key (attack : json) (geo : string) : outcome string :=
  point ← member attack geo;
  ToPropertyKey (or_else (optional point "country") (Some (JStr "Unknown"))).

(** [attack.type] as a property key *)
Definition type_key (attack : json) : outcome string :=
  type ← member attack "type";
  ToPropertyKey type.

(** The body of the [forEach] over the buffer, on the three counters
    [sourceCountryCount], [targetCountryCount] and [attackTypeCount]. *)
Definition tally (counts : counter * counter * counter) (attack : json)
  : outcome (counter * counter * counter) :=
  let '(sourceCountryCount, targetCountryCount, attackTypeCount) := counts in
  srcCountry ← country_key attack "src_geo";
  dstCountry ← country_key attack "dst_geo";
  type ← type_key attack;
  Returns (increment sourceCountryCount srcCountry,
           increment targetCountryCount dstCountry,
           increment attackTypeCount type).

(** [calculateStats(allAttacks)] run at clock [now] with the observation
    start [startTimeRef.current = start], both in milliseconds. *)
Definition calculateStats (now start : Z) (allAttacks : list json) : outcome Stats :=
  let timeDiff := timeDiff now start in
  counts ← forEach tally allAttacks ([], [], []);
  let '(sourceCountryCount, targetCountryCount, attackTypeCount) := counts in
  topSourceCountries ← ranking sourceCountryCount;
  topTargetCountries ← ranking targetCountryCount;
  attackTypes ← ranking attackTypeCount;
  Returns {| totalAttacks := length allAttacks;
             attacksPerMinute := rate (length allAttacks) timeDiff;
             topSourceCountries := topSourceCountries;
             topTargetCountries := topTargetCountries;
             attackTypes := attackTypes |}.
End Runtime.

(** ** The hook's state

    The six [useState] cells, the five [useRef] cells, and what the
    browser holds for the hook: the sockets it constructed and the timers
    it set, each list indexed by the order of creation. *)

(** [WebSocket.readyState] *)
Inductive readyState : Type := CONNECTING | OPEN | CLOSING | CLOSED.

(** A timer set by [setTimeout(() => connect(), reconnectInterval)]. *)
Inductive timer : Type := Pending | Fired | Cleared.

#[global] Instance readyState_eq_dec : EqDecision readyState.
Proof. solve_decision. Defined.
#[global] Instance timer_eq_dec : EqDecision timer.
Proof. solve_decision. Defined.

Record hook : Type := {
  attacks : list json;   (* useState *)
  isConnected : bool;
  lastUpdate : option Z;
  error : option string;
  todayTotal : option number;
  todayByCountry : option (list json);
  wsRef : option nat;   (* useRef: [.current] *)
  reconnectAttemptsRef : nat;
  reconnectTimeoutRef : option nat;
  allAttacksRef : list json;
  startTimeRef : Z;
  sockets : list readyState;   (* the browser *)
  timers : list timer
}.

Definition setAttacks (v : list json) (h : hook) : hook :=
  {| attacks := v; isConnected := isConnected h; lastUpdate := lastUpdate h;
     error := error h; todayTotal := todayTotal h; todayByCountry := todayByCountry h;
     wsRef := wsRef h; reconnectAttemptsRef := reconnectAttemptsRef h;
     reconnectTimeoutRef := reconnectTimeoutRef h; allAttacksRef := allAttacksRef h;
     startTimeRef := startTimeRef h; sockets := sockets h; timers := timers h |}.

Definition setIsConnected (v : bool) (h : hook) : hook :=
  {| attacks := attacks h; isConnected := v; lastUpdate := lastUpdate h;
     error := error h; todayTotal := todayTotal h; todayByCountry := todayByCountry h;
     wsRef := wsRef h; reconnectAttemptsRef := reconnectAttemptsRef h;
     reconnectTimeoutRef := reconnectTimeoutRef h; allAttacksRef := allAttacksRef h;
     startTimeRef := startTimeRef h; sockets := sockets h; timers := timers h |}.

Definition setLastUpdate (v : option Z) (h : hook) : hook :=
  {| attacks := attacks h; isConnected := isConnected h; lastUpdate := v;
     error := error h; todayTotal := todayTotal h; todayByCountry := todayByCountry h;
     wsRef := wsRef h; reconnectAttemptsRef := reconnectAttemptsRef h;
     reconnectTimeoutRef := reconnectTimeoutRef h; allAttacksRef := allAttacksRef h;
     startTimeRef := startTimeRef h; sockets := sockets h; timers := timers h |}.

Definition setError (v : option string) (h : hook) : hook :=
  {| attacks := attacks h; isConnected := isConnected h; lastUpdate := lastUpdate h;
     error := v; todayTotal := todayTotal h; todayByCountry := todayByCountry h;
     wsRef := wsRef h; reconnectAttemptsRef := reconnectAttemptsRef h;
     reconnectTimeoutRef := reconnectTimeoutRef h; allAttacksRef := allAttacksRef h;
     startTimeRef := startTimeRef h; sockets := sockets h; timers := timers h |}.

Definition setTodayTotal (v : option number) (h : hook) : hook :=
  {| attacks := attacks h; isConnected := isConnected h; lastUpdate := lastUpdate h;
     error := error h; todayTotal := v; todayByCountry := todayByCountry h;
     wsRef := wsRef h; reconnectAttemptsRef := reconnectAttemptsRef h;
     reconnectTimeoutRef := reconnectTimeoutRef h; allAttacksRef := allAttacksRef h;
     startTimeRef := startTimeRef h; sockets := sockets h; timers := timers h |}.

Definition setTodayByCountry (v : option (list json)) (h : hook) : hook :=
  {| attacks := attacks h; isConnected := isConnected h; lastUpdate := lastUpdate h;
     error := error h; todayTotal := todayTotal h; todayByCountry := v;
     wsRef := wsRef h; reconnectAttemptsRef := reconnectAttemptsRef h;
     reconnectTimeoutRef := reconnectTimeoutRef h; allAttacksRef := allAttacksRef h;
     startTimeRef := startTimeRef h; sockets := sockets h; timers := timers h |}.

Definition set_wsRef (v : option nat) (h : hook) : hook :=
  {| attacks := attacks h; isConnected := isConnected h; lastUpdate := lastUpdate h;
     error := error h; todayTotal := todayTotal h; todayByCountry := todayByCountry h;
     wsRef := v; reconnectAttemptsRef := reconnectAttemptsRef h;
     reconnectTimeoutRef := reconnectTimeoutRef h; allAttacksRef := allAttacksRef h;
     startTimeRef := startTimeRef h; sockets := sockets h; timers := timers h |}.

Definition set_reconnectAttemptsRef (v : nat) (h : hook) : hook :=
  {| attacks := attacks h; isConnected := isConnected h; lastUpdate := lastUpdate h;
     error := error h; todayTotal := todayTotal h; todayByCountry := todayByCountry h;
     wsRef := wsRef h; reconnectAttemptsRef := v;
     reconnectTimeoutRef := reconnectTimeoutRef h; allAttacksRef := allAttacksRef h;
     startTimeRef := startTimeRef h; sockets := sockets h; timers := timers h |}.

Definition set_reconnectTimeoutRef (v : option nat) (h : hook) : hook :=
  {| attacks := attacks h; isConnected := isConnected h; lastUpdate := lastUpdate h;
     error := error h; todayTotal := todayTotal h; todayByCountry := todayByCountry h;
     wsRef := wsRef h; reconnectAttemptsRef := reconnectAttemptsRef h;
     reconnectTimeoutRef := v; allAttacksRef := allAttacksRef h;
     startTimeRef := startTimeRef h; sockets := sockets h; timers := timers h |}.

Definition set_allAttacksRef (v : list json) (h : hook) : hook :=
  {| attacks := attacks h; isConnected := isConnected h; lastUpdate := lastUpdate h;
     error := error h; todayTotal := todayTotal h; todayByCountry := todayByCountry h;
     wsRef := wsRef h; reconnectAttemptsRef := reconnectAttemptsRef h;
     reconnectTimeoutRef := reconnectTimeoutRef h; allAttacksRef := v;
     startTimeRef := startTimeRef h; sockets := sockets h; timers := timers h |}.

Definition set_sockets (v : list readyState) (h : hook) : hook :=
  {| attacks := attacks h; isConnected := isConnected h; lastUpdate := lastUpdate h;
     error := error h; todayTotal := todayTotal h; todayByCountry := todayByCountry h;
     wsRef := wsRef h; reconnectAttemptsRef := reconnectAttemptsRef h;
     reconnectTimeoutRef := reconnectTimeoutRef h; allAttacksRef := allAttacksRef h;
     startTimeRef := startTimeRef h; sockets := v; timers := timers h |}.

Definition set_timers (v : list timer) (h : hook) : hook :=
  {| attacks := attacks h; isConnected := isConnected h; lastUpdate := lastUpdate h;
     error := error h; todayTotal := todayTotal h; todayByCountry := todayByCountry h;
     wsRef := wsRef h; reconnectAttemptsRef := reconnectAttemptsRef h;
     reconnectTimeoutRef := reconnectTimeoutRef h; allAttacksRef := allAttacksRef h;
     startTimeRef := startTimeRef h; sockets := sockets h; timers := v |}.

(** The hook's options.  Of [url] the model keeps whether
    [new WebSocket(url)] returns a socket or throws (a missing or
    malformed address).  The delay [reconnectInterval] only times the
    timer: a run below is untimed, a pending timer may expire at any
    later step. *)
Record UseWebSocketOptions : Type := {
  url_constructs : bool;
  reconnectInterval : Z;
  maxReconnectAttempts : Z;
}.

(** The defaults [reconnectInterval = 5000] and [maxReconnectAttempts =
    10], with an address the constructor accepts. *)
Definition default_options : UseWebSocketOptions :=
  {| url_constructs := true; reconnectInterval := 5000; maxReconnectAttempts := 10 |}.

(** The first render, at clock [start]. *)
Definition initial (start : Z) : hook :=
  {| attacks := []; isConnected := false; lastUpdate := None; error := None;
     todayTotal := None; todayByCountry := None;
     wsRef := None; reconnectAttemptsRef := 0; reconnectTimeoutRef := None;
     allAttacksRef := []; startTimeRef := start; sockets := []; timers := [] |}.

(** [l.slice(-n)]: the last [n] elements. *)
Definition slice_last {A : Type} (n : nat) (l : list A) : list A :=
  drop (length l - n) l.

(** [ws.close()]: a socket that is connecting or open starts closing;
    the browser reports the closure later, by the socket's close event. *)
Definition close (ws : nat) (h : hook) : hook :=
  match sockets h !! ws with
  | Some CONNECTING | Some OPEN => set_sockets (<[ws := CLOSING]> (sockets h)) h
  | _ => h
  end.

(** [clearTimeout(t)] *)
Definition clearTimeout (t : nat) (h : hook) : hook :=
  match timers h !! t with
  | Some Pending => set_timers (<[t := Cleared]> (timers h)) h
  | _ => h
  end.

(** What the environment does to the hook. *)
Inductive event : Type :=
| Effect                                        (* the effect body runs: [connect()] *)
| Cleanup                                       (* the effect's cleanup runs *)
| Opened (ws : nat)                             (* open event of socket [ws] *)
| Message (ws : nat) (data : string) (now : Z)  (* message event, at clock [now] *)
| Closed (ws : nat) (failed : bool)             (* the connection of [ws] is closed *)
| Timeout (t : nat).                            (* timer [t] expires *)

Section Hook.
(** [JSON.parse]: the decoded value, or [None] when it throws. *)
Variable JSON_parse : string -> option json.
Variable options : UseWebSocketOptions.

(** [connect()].  Every socket gets the same four handlers, closures
    over the same cells. *)
Definition connect (h : hook) : hook :=
  let h := setError None h in
  if url_constructs options
  then set_wsRef (Some (length (sockets h)))
         (set_sockets (sockets h ++ [CONNECTING]) h)
  else setError (Some "Failed to create WebSocket connection") h.

Definition onopen (h : hook) : hook :=
  setError None (set_reconnectAttemptsRef 0 (setIsConnected true h)).

(** The array branch of [onmessage], on the decoded array. *)
Definition on_batch (parsed : list json) (now : Z) (h : hook) : hook :=
  let validAttacks := filter (fun attack => isValidAttack attack = true) parsed in
  if (0 <? length validAttacks)%nat then
    let all := allAttacksRef h ++ validAttacks in
    let all := if (1000 <? length all)%nat then slice_last 1000 all else all in
    setLastUpdate (Some now) (setAttacks validAttacks (set_allAttacksRef all h))
  else h.

(** The [statsToday] branch, on the decoded object. *)
Definition on_statsToday (parsed : json) (h : hook) : hook :=
  let payload := or_else (get (Some parsed) "payload") (Some (JObj [])) in
  let h := setTodayTotal
             (match get payload "total" with
              | Some (JNum total) => Some total
              | _ => Some (Finite 0)
              end) h in
  setTodayByCountry
    (match get payload "countries" with
     | Some (JArr countries) => Some countries
     | _ => Some []
     end) h.

(** [onmessage(event)] for a text frame [event.data = data], at clock
    [now].  Only [JSON.parse] can throw inside the [try]. *)
Definition onmessage (data : string) (now : Z) (h : hook) : hook :=
  if String.eqb data "" then h
  else
    match JSON_parse data with
    | None => setError (Some "Error parsing attack data") h
    | Some parsed =>
        match parsed with
        | JArr candidates => on_batch candidates now h
        | _ =>
            if ToBoolean (Some parsed)
               && String.eqb (typeof (Some parsed)) "object"
               && strict_equals (get (Some parsed) "type") "statsToday"
            then on_statsToday parsed h
            else h
        end
    end.

Definition onerror (h : hook) : hook :=
  setError (Some "WebSocket connection error") h.

Definition onclose (h : hook) : hook :=
  let h := setIsConnected false h in
  if (Z.of_nat (reconnectAttemptsRef h) <? maxReconnectAttempts options)%Z then
    let h := set_reconnectAttemptsRef (reconnectAttemptsRef h + 1) h in
    set_reconnectTimeoutRef (Some (length (timers h)))
      (set_timers (timers h ++ [Pending]) h)
  else setError (Some "Max reconnection attempts reached") h.

(** The effect's cleanup. *)
Definition cleanup (h : hook) : hook :=
  let h := match reconnectTimeoutRef h with
           | Some t => clearTimeout t h
           | None => h
           end in
  match wsRef h with
  | Some ws => close ws h
  | None => h
  end.

(** The browser delivers an open event to a connecting socket, messages
    to an open one, the closure to one not yet closed, and lets only a
    pending timer expire. *)
Definition enabled (e : event) (h : hook) : bool :=
  match e with
  | Effect | Cleanup => true
  | Opened ws => bool_decide (sockets h !! ws = Some CONNECTING)
  | Message ws _ _ => bool_decide (sockets h !! ws = Some OPEN)
  | Closed ws _ =>
      bool_decide (is_Some (sockets h !! ws) ∧ sockets h !! ws ≠ Some CLOSED)
  | Timeout t => bool_decide (timers h !! t = Some Pending)
  end.

(** When a connection is closed the browser sets the socket to CLOSED,
    fires [error] if the connection failed, then fires [close]. *)
Definition step (e : event) (h : hook) : hook :=
  match e with
  | Effect => connect h
  | Cleanup => cleanup h
  | Opened ws => onopen (set_sockets (<[ws := OPEN]> (sockets h)) h)
  | Message _ data now => onmessage data now h
  | Closed ws failed =>
      let h := set_sockets (<[ws := CLOSED]> (sockets h)) h in
      onclose (if failed then onerror h else h)
  | Timeout t => connect (set_timers (<[t := Fired]> (timers h)) h)
  end.

(** A run: [None] when the browser could not have delivered an event. *)
Fixpoint run (trace : list event) (h : hook) : option hook :=
  match trace with
  | [] => Some h
  | e :: rest => if enabled e h then run rest (step e h) else None
  end.
End Hook.

(** ** What the page shows: the three returns of [App]

    The return [App] takes, by the [error] and [isConnected] that its
    call of the hook returned; the call itself is part of [render_App].
<<
  if (error && !isConnected) return <ErrorMessage> ... {error} ...
  if (!isConnected && !error) return <LoadingMessage> ...
  return <AttackMapSimple .../> <StatisticsPanel .../>
>> *)
Inductive screen : Type :=
| ErrorMessage (error : string)
| LoadingMessage
| Dashboard.

Definition App (h : hook) : screen :=
  match error h with
  | Some text =>
      if negb (String.eqb text "") && negb (isConnected h) then ErrorMessage text
      else if negb (isConnected h) && String.eqb text "" then LoadingMessage
      else Dashboard
  | None => if negb (isConnected h) then LoadingMessage else Dashboard
  end.

(** * The components [App] renders

    The size of the window ([src/hooks/useWindowSize.ts]), the attack
    elements of the map ([src/components/AttackMapSimple.tsx] and
    [AttackMap.tsx], which share the drawing code) and the rows of the
    panel ([src/components/StatisticsPanel.tsx]). *)

(** ** Numbers *)

(** [a || b] on numbers: [0] and [NaN] are falsy. *)
Definition number_or (a b : number) : number :=
  if ToBoolean (Some (JNum a)) then a else b.

(** [n <= 0] *)
Definition le_zero (n : number) : bool :=
  match n with
  | Finite q => Qle_bool q 0
  | Infinity negative => negative
  | NaN => false
  end.

(** ** [useWindowSize] *)

Record WindowSize : Type := { width : number; height : number }.

(** The browser's [window]: [innerWidth] and [innerHeight]. *)
Record Window : Type := { innerWidth : number; innerHeight : number }.

(** [{ width: window.innerWidth || 1200, height: window.innerHeight || 800 }] *)
Definition measure (window : Window) : WindowSize :=
  {| width := number_or (innerWidth window) (Finite 1200);
     height := number_or (innerHeight window) (Finite 800) |}.

(** The initializer of the state cell; [None] where [typeof window] is
    ['undefined']. *)
Definition initialWindowSize (window : option Window) : WindowSize :=
  match window with
  | None => {| width := Finite 1200; height := Finite 800 |}
  | Some w => measure w
  end.

(** The hook in a browser: its state cell, the window, and whether
    [handleResize] is a listener of [resize]. *)
Record sizing : Type := {
  windowSize : WindowSize;
  window : Window;
  listening : bool
}.

Inductive resizing : Type :=
| Mount                     (* the effect runs *)
| Resize (inner : Window)   (* the window takes a new size; [resize] fires *)
| Unmount.                  (* the effect's cleanup runs *)

(** The render before the effect. *)
Definition rendered (w : Window) : sizing :=
  {| windowSize := initialWindowSize (Some w); window := w; listening := false |}.

Definition handleResize (s : sizing) : sizing :=
  {| windowSize := measure (window s); window := window s; listening := listening s |}.

(** The effect adds the listener and calls it at once; the cleanup
    removes it. *)
Definition resize_step (e : resizing) (s : sizing) : sizing :=
  match e with
  | Mount =>
      handleResize {| windowSize := windowSize s; window := window s; listening := true |}
  | Resize inner =>
      let s := {| windowSize := windowSize s; window := inner; listening := listening s |} in
      if listening s then handleResize s else s
  | Unmount =>
      {| windowSize := windowSize s; window := window s; listening := false |}
  end.

Definition resize_run (trace : list resizing) (s : sizing) : sizing :=
  foldl (fun s e => resize_step e s) s trace.

(** ** The map *)

(** [propWidth || windowSize?.width || 1200], and the same for the height
    with [800]; [None] for a prop the parent does not pass. *)
Definition dimension (prop : option number) (measured fallback : number) : number :=
  number_or (match prop with
             | Some p => number_or p measured
             | None => measured
             end) fallback.

(** [width <= 0 || height <= 0], the size test of the effects' guards. *)
Definition no_area (w h : number) : bool := le_zero w || le_zero h.

(** The test on which the [forEach] callback returns before it draws:
<<
  !attack?.src_geo || !attack?.dst_geo ||
  typeof attack.src_geo.lon !== 'number' || typeof attack.src_geo.lat !== 'number' ||
  typeof attack.dst_geo.lon !== 'number' || typeof attack.dst_geo.lat !== 'number'
>> *)
Definition skipped (attack : json) : bool :=
  negb (ToBoolean (optional (Some attack) "src_geo"))
  || negb (ToBoolean (optional (Some attack) "dst_geo"))
  || negb (String.eqb (typeof (get (get (Some attack) "src_geo") "lon")) "number")
  || negb (String.eqb (typeof (get (get (Some attack) "src_geo") "lat")) "number")
  || negb (String.eqb (typeof (get (get (Some attack) "dst_geo") "lon")) "number")
  || negb (String.eqb (typeof (get (get (Some attack) "dst_geo") "lat")) "number").

(** An element as it is appended to the group of attacks, with its class,
    its coordinates and its colour.  The transitions that follow animate
    [x2], [y2], [r] and the opacity and in the end remove the element. *)
Inductive element : Type :=
| line (class : string) (x1 y1 x2 y2 : number) (stroke : string)
| circle (class : string) (cx cy r : number) (fill : string).

Section Map.
(** [projection([lon, lat])] for the projection the effect builds
    ([geoNaturalEarth1], scaled and centred for the svg): a point
    [[x, y]], or [null], on which the callback returns (its further
    tests, that the result is an array of two, hold of every point). *)
Variable projection : number * number -> option (number * number).

(** The body of the [forEach] callback: nothing for an event it skips or
    a point the projection does not place, else the line, collapsed on
    the source point, and the two points. *)
Definition draw_attack (attack : json) : list element :=
  if skipped attack then []
  else
    let src_geo := get (Some attack) "src_geo" in
    let dst_geo := get (Some attack) "dst_geo" in
    match get src_geo "lon", get src_geo "lat", get dst_geo "lon", get dst_geo "lat" with
    | Some (JNum slon), Some (JNum slat), Some (JNum dlon), Some (JNum dlat) =>
        match projection (slon, slat), projection (dlon, dlat) with
        | Some source, Some target =>
            [ line "attack-line" source.1 source.2 source.1 source.2 "#ff4444";
              circle "attack-point" source.1 source.2 (Finite 0) "#ff4444";
              circle "attack-point" target.1 target.2 (Finite 0) "#ff6666" ]
        | _, _ => []
        end
    | _, _, _, _ => []
    end.

(** [attacks.forEach(...)]: the elements appended to the group, in order. *)
Definition draw_attacks (attacks : list json) : list element :=
  flat_map draw_attack attacks.
End Map.

(** ** The panel *)

(** [l.slice(0, limit)] for an integer [limit]: a negative one counts
    from the end. *)
Definition slice_first {A : Type} (limit : Z) (l : list A) : list A :=
  let len := Z.of_nat (length l) in
  let final := if (limit <? 0)%Z then Z.max (len + limit) 0 else Z.min limit len in
  take (Z.to_nat final) l.

(** [getTopCountries(countries, limit)]; [None] is [undefined], what
    [Array.isArray] refuses. *)
Definition getTopCountries {A : Type} (countries : option (list A)) (limit : Z) : list A :=
  match countries with
  | None => []
  | Some countries => slice_first limit countries
  end.

(** The two children of a row of the statistics,
    [item?.country || 'Unknown'] (or [item?.type]) and [item?.count || 0]. *)
Definition group_row (item : string * nat) : string * nat :=
  (if negb (String.eqb item.1 "") then item.1 else "Unknown",
   if negb (item.2 =? 0)%nat then item.2 else 0).

(** The same of an item of the aggregate, which is whatever decoded
    value the server sent. *)
Definition aggregate_row (item : json) : value * value :=
  (or_else (optional (Some item) "country") (Some (JStr "Unknown")),
   or_else (optional (Some item) "count") (Some (JNum (Finite 0)))).

(** What the panel shows, named by its labels. *)
Record panel : Type := {
  connection : string;                      (* Terhubung or Terputus *)
  updateTerakhir : string;
  totalSerangan : nat;
  seranganPerMenit : string;
  seranganAktif : nat;
  totalHitHariIni : number + string;
  negaraSumberTeratas : list (string * nat);
  negaraTargetTeratas : list (string * nat);
  hitHariIniPerNegara : list (value * value);
  jenisSerangan : list (string * nat)
}.

Section Panel.
(** [date.toLocaleTimeString('id-ID')] and [x.toFixed(1)], as the engine
    formats them. *)
Variable toLocaleTimeString : Z -> string.
Variable toFixed_1 : number -> string.

Definition formatTime (date : option Z) : string :=
  match date with
  | None => "Tidak ada"
  | Some date => toLocaleTimeString date
  end.

(** [StatisticsPanel({attacks, stats, isConnected, lastUpdate})], with
    [stats] as the hook returns it: the children of the elements the
    component returns, which React then renders ([React_render]). *)
Definition StatisticsPanel (attacks : list json)
    (stats : Stats * option number * option (list json))
    (isConnected : bool) (lastUpdate : option Z) : panel :=
  let '(local, todayTotal, todayByCountry) := stats in
  {| connection := if isConnected then "Terhubung" else "Terputus";
     updateTerakhir := formatTime lastUpdate;
     totalSerangan := totalAttacks local;
     seranganPerMenit := toFixed_1 (attacksPerMinute local);
     seranganAktif := length attacks;
     totalHitHariIni := match todayTotal with
                        | Some total => inl total
                        | None => inr "-"
                        end;
     negaraSumberTeratas :=
       group_row <$> getTopCountries (Some (topSourceCountries local)) 5;
     negaraTargetTeratas :=
       group_row <$> getTopCountries (Some (topTargetCountries local)) 5;
     hitHariIniPerNegara := aggregate_row <$> getTopCountries todayByCountry 5;
     jenisSerangan := group_row <$> slice_first 3 (attackTypes local) |}.
End Panel.

(** ** What React renders of the panel *)

(** A child React renders: a text or a number, as text; a boolean or
    [null], as nothing; an array, as its items.  A plain object is no
    child: rendering it throws an [Error] (Objects are not valid as a
    React child), and with it the render of the page. *)
Fixpoint React_child (v : json) : bool :=
  match v with
  | JObj _ => false
  | JArr items => forallb React_child items
  | JNull | JBool _ | JNum _ | JStr _ => true
  end.

(** [undefined] renders as nothing. *)
Definition valid_child (v : value) : bool :=
  match v with
  | None => true
  | Some v => React_child v
  end.

Inductive rendering : Type :=
| Shown (p : panel)
| ThrowsError.

(** Every other child of the panel is a text or a number; the two
    children of a row of the aggregate are whatever the server sent. *)
Definition React_render (p : panel) : rendering :=
  if forallb (fun row => valid_child row.1 && valid_child row.2) (hitHariIniPerNegara p)
  then Shown p
  else ThrowsError.

(** ** What a render returns as [stats]

    [{...calculateStats(allAttacksRef.current), todayTotal, todayByCountry}],
    computed at clock [now]. *)
Definition hook_stats (Number_toString : number -> string) (now : Z) (h : hook)
  : outcome (Stats * option number * option (list json)) :=
  local ← calculateStats Number_toString now (startTimeRef h) (allAttacksRef h);
  Returns (local, todayTotal h, todayByCountry h).

(** ** A render of [App]

    [App()] calls [useWebSocket(...)], whose body computes [stats] and so
    throws where [calculateStats] throws, and then takes one of its three
    returns ([App] above).  Lists in an order the engine chooses are
    values as well; [App] passes them on to the panel. *)
Definition render_App (Number_toString : number -> string) (now : Z) (h : hook)
  : outcome screen :=
  match hook_stats Number_toString now h with
  | ThrowsTypeError => ThrowsTypeError
  | Returns _ | EngineDefined => Returns (App h)
  end.

(** ** Notions the properties are stated with *)

#[global] Instance outcome_eq_dec {A : Type} `{EqDecision A} : EqDecision (outcome A).
Proof. solve_decision. Defined.

(** *** The rate *)

(** [0 <= n]: a finite value that is not negative, or [+Infinity]. *)
Definition nonnegative (n : number) : bool :=
  match n with
  | Finite q => Qle_bool 0 q
  | Infinity negative => negb negative
  | NaN => false
  end.

(** *** The rolling buffer *)

(** The candidates of one message that pass the validator: the batch
    [onmessage] appends. *)
Definition validAttacks (JSON_parse : string -> option json) (data : string) : list json :=
  if String.eqb data "" then []
  else match JSON_parse data with
       | Some (JArr candidates) => filter (fun attack => isValidAttack attack = true) candidates
       | _ => []
       end.

(** Every validated event of a run, in arrival order. *)
Definition arrivals (JSON_parse : string -> option json) (trace : list event) : list json :=
  flat_map (fun e => match e with
                     | Message _ data _ => validAttacks JSON_parse data
                     | _ => []
                     end) trace.

(** *** Order in lists, rankings *)

(** [a] stands before [b] in [l]. *)
Definition before {A : Type} (l : list A) (a b : A) : Prop :=
  exists i j, i < j /\ l !! i = Some a /\ l !! j = Some b.

(** The position in the buffer of the first event grouped under [label]. *)
Definition first_seen (key_of : json -> outcome string) (buffer : list json)
    (label : string) : option nat :=
  fst <$> list_find (fun attack => key_of attack = Returns label) buffer.

(** Tie order as specified: the group seen first comes first. *)
Definition seen_before (first : string -> option nat) (a b : string) : Prop :=
  exists p q, first a = Some p /\ first b = Some q /\ p < q.

(** Tie order of the enumeration of a plain object: array-index names in
    ascending numeric order, then the other names, the one seen first
    coming first. *)
Definition enumerated_before (first : string -> option nat) (a b : string) : Prop :=
  match array_index a, array_index b with
  | Some m, Some n => (m < n)%N
  | Some _, None => True
  | None, Some _ => False
  | None, None => seen_before first a b
  end.

(** A list of groups is ranked: descending by count, ties in the order [tie]. *)
Definition ranked (tie : string -> string -> Prop) (groups : list (string * nat)) : Prop :=
  forall i j a b, i < j -> groups !! i = Some a -> groups !! j = Some b ->
    b.2 <= a.2 /\ (a.2 = b.2 -> tie a.1 b.1).

(** The three grouping keys of an event. *)
Definition source_key (Number_toString : number -> string) (attack : json) : outcome string :=
  country_key Number_toString attack "src_geo".
Definition target_key (Number_toString : number -> string) (attack : json) : outcome string :=
  country_key Number_toString attack "dst_geo".

(** *** Counters *)

(** The position of the first [key] in a list of keys. *)
Definition position (keys : list string) (key : string) : option nat :=
  fst <$> list_find (eq key) keys.

(** [obj[key]] for an own property. *)
Fixpoint cell_at (obj : counter) (key : string) : option cell :=
  match obj with
  | [] => None
  | (k, c) :: rest => if String.eqb k key then Some c else cell_at rest key
  end.

(** The cell a counter holds under [key] once it has counted [keys]. *)
Definition counted (keys : list string) (key : string) : option cell :=
  if decide (key ∈ keys /\ key <> "__proto__")
  then Some (if bool_decide (key ∈ Object_prototype_names) then Text
             else Count (length (filter (eq key) keys)))
  else None.

(** A grouping key that converts and that a counter can count: not the
    name of a member inherited from [Object.prototype], or else
    [__proto__], under which nothing is stored. *)
Definition countable_key (key : outcome string) : Prop :=
  exists k, key = Returns k /\ (k ∈ Object_prototype_names -> k = "__proto__").

(** *** The reconnection machine *)

(** The timers that have neither expired nor been cleared: the indices,
    counted from [i], of the pending entries. *)
Fixpoint pending_from (i : nat) (ts : list timer) : list nat :=
  match ts with
  | [] => []
  | Pending :: rest => i :: pending_from (S i) rest
  | _ :: rest => pending_from (S i) rest
  end.

Definition pending (h : hook) : list nat := pending_from 0 (timers h).

(** The exhausted state, as the hook shows it. *)
Definition exhausted (h : hook) : Prop :=
  error h = Some "Max reconnection attempts reached".

(** Nothing is left that the browser could deliver to the hook. *)
Definition quiescent (h : hook) : Prop :=
  pending h = [] /\ Forall (fun s => s = CLOSED) (sockets h).

(** [k] closures in a row with no open event in between: socket [ws]
    closes, the timer that closure set (timer [ws], when the run starts
    from the first render) expires and [connect()] builds socket [ws + 1],
    which closes in turn. *)
Fixpoint consecutive_closures (failed : bool) (ws k : nat) : list event :=
  match k with
  | 0 => []
  | 1 => [Closed ws failed]
  | S k' => Closed ws failed :: Timeout ws :: consecutive_closures failed (S ws) k'
  end.

(** The state [j] failed attempts after the first render at [start],
    while socket [j] is connecting. *)
Definition retrying (start : Z) (j : nat) : hook :=
  {| attacks := []; isConnected := false; lastUpdate := None; error := None;
     todayTotal := None; todayByCountry := None;
     wsRef := Some j; reconnectAttemptsRef := j;
     reconnectTimeoutRef := match j with 0 => None | S i => Some i end;
     allAttacksRef := []; startTimeRef := start;
     sockets := replicate j CLOSED ++ [CONNECTING];
     timers := replicate j Fired |}.

(** The state after closure number [k] (from 1) of such a run, while the
    timer that closure set is pending. *)
Definition waiting (start : Z) (k : nat) (failed : bool) : hook :=
  {| attacks := []; isConnected := false; lastUpdate := None;
     error := if failed then Some "WebSocket connection error" else None;
     todayTotal := None; todayByCountry := None;
     wsRef := Some (k - 1); reconnectAttemptsRef := k;
     reconnectTimeoutRef := Some (k - 1);
     allAttacksRef := []; startTimeRef := start;
     sockets := replicate k CLOSED;
     timers := replicate (k - 1) Fired ++ [Pending] |}.

(** The state after the closure that finds the counter at its maximum [m]. *)
Definition given_up (start : Z) (m : nat) : hook :=
  {| attacks := []; isConnected := false; lastUpdate := None;
     error := Some "Max reconnection attempts reached";
     todayTotal := None; todayByCountry := None;
     wsRef := Some m; reconnectAttemptsRef := m;
     reconnectTimeoutRef := match m with 0 => None | S i => Some i end;
     allAttacksRef := []; startTimeRef := start;
     sockets := replicate (S m) CLOSED;
     timers := replicate m Fired |}.

(** ** Example data *)

(** Wire text written with apostrophes for the quotation marks. *)
Fixpoint wire (s : string) : string :=
  match s with
  | EmptyString => EmptyString
  | String c rest =>
      String (if Ascii.eqb c (Ascii.ascii_of_nat 39) then Ascii.ascii_of_nat 34 else c)
             (wire rest)
  end.

Definition geo (lon lat : Z) : json :=
  JObj [("lat", JNum (Finite (inject_Z lat))); ("lon", JNum (Finite (inject_Z lon)))].

(** An event with both points and the type [type]. *)
Definition attack_of_type (type : string) : json :=
  JObj [("src_geo", geo 2 1); ("dst_geo", geo 4 3); ("type", JStr type)].

(** An event from country [A] to country [B], of type [ddos]. *)
Definition located_attack : json :=
  JObj [("src_geo", JObj [("lat", JNum (Finite 1)); ("lon", JNum (Finite 2));
                          ("country", JStr "A")]);
        ("dst_geo", JObj [("lat", JNum (Finite 3)); ("lon", JNum (Finite 4));
                          ("country", JStr "B")]);
        ("type", JStr "ddos")].

(** An event whose type is an object with a member [toString]. *)
Definition attack_of_opaque_type : json :=
  JObj [("src_geo", geo 2 1); ("dst_geo", geo 4 3);
        ("type", JObj [("toString", JNum (Finite 1))])].

(** An event with both points and nothing else. *)
Definition bare_attack : json :=
  JObj [("src_geo", geo 2 1); ("dst_geo", geo 4 3)].

(** A longitude written [1e999] on the wire: [JSON.parse] rounds it to
    [Infinity]. *)
Definition overflowing_attack : json :=
  JObj [("src_geo", JObj [("lat", JNum (Finite 0)); ("lon", JNum (Infinity false))]);
        ("dst_geo", geo 4 3)].

Definition statsToday_message : json :=
  JObj [("type", JStr "statsToday");
        ("payload", JObj [("total", JNum (Finite 42));
                          ("countries", JArr [JObj [("country", JStr "A");
                                                    ("count", JNum (Finite 42))]])])].

(** [JSON.parse] on the payloads of the examples; no example sends
    another payload. *)
Definition JSON_parse_examples (data : string) : option json :=
  if String.eqb data "{" then None
  else if String.eqb data "[null, 7]" then Some (JArr [JNull; JNum (Finite 7)])
  else if String.eqb data
            (wire "[{'src_geo':{'lat':1,'lon':2},'dst_geo':{'lat':3,'lon':4}}]")
       then Some (JArr [bare_attack])
  else if String.eqb data
            (wire "[{'src_geo':{'lat':1,'lon':2},'dst_geo':{'lat':3,'lon':4},'type':'ddos'}, 5]")
       then Some (JArr [attack_of_type "ddos"; JNum (Finite 5)])
  else if String.eqb data
            (wire "{'type':'statsToday','payload':{'total':42,'countries':[{'country':'A','count':42}]}}")
       then Some statsToday_message
  else if String.eqb data
            (wire "[{'src_geo':{'lat':1,'lon':2,'country':'A'},'dst_geo':{'lat':3,'lon':4,'country':'B'},'type':'ddos'}]")
       then Some (JArr [located_attack])
  else None.

(** No example converts a number to a property key. *)
Definition Number_toString_unused (n : number) : string := "".

(** A session that receives one batch of a valid event and a number. *)
Definition mixed_batch_trace : list event :=
  [Effect; Opened 0;
   Message 0 (wire "[{'src_geo':{'lat':1,'lon':2},'dst_geo':{'lat':3,'lon':4},'type':'ddos'}, 5]") 9].

(** Two events, of type [b] then of type [7]. *)
Definition letter_then_digit : list json :=
  [attack_of_type "b"; attack_of_type "7"].

(** Six events of five types, two of them of type [b]. *)
Definition six_attacks : list json :=
  [attack_of_type "b"; attack_of_type "7"; attack_of_type "b";
   attack_of_type "10"; attack_of_type "9"; attack_of_type "x"].

(** *** What a run delivered *)

(** The closures since the last open event, or since the first render. *)
Definition closures_since_open (trace : list event) : nat :=
  foldl (fun n e => match e with
                    | Opened _ => 0
                    | Closed _ _ => S n
                    | _ => n
                    end) 0 trace.

(** The valid events of the last message that carried any, and the clock
    at its arrival. *)
Definition last_batch (JSON_parse : string -> option json) (trace : list event)
  : list json * option Z :=
  foldl (fun acc e => match e with
                      | Message _ data now =>
                          let batch := validAttacks JSON_parse data in
                          if (0 <? length batch)%nat then (batch, Some now) else acc
                      | _ => acc
                      end) ([], None) trace.

(** The payload is an aggregate: it decodes to an object whose [type] is
    the text [statsToday]. *)
Definition is_statsToday (JSON_parse : string -> option json) (data : string) : bool :=
  negb (String.eqb data "")
  && match JSON_parse data with
     | Some (JObj members) => strict_equals (own_property "type" members) "statsToday"
     | _ => false
     end.

(** A label as [Attack.ts] types it, a text or nothing, that a counter
    can count. *)
Definition plain_label (v : value) : Prop :=
  v = None
  \/ exists s, v = Some (JStr s) /\ (s ∈ Object_prototype_names -> s = "__proto__").

(** The sum of the counts of a list of groups. *)
Definition total_count (groups : list (string * nat)) : nat :=
  sum_list (snd <$> groups).

(** Some socket is open or closing. *)
Definition live_socket (h : hook) : Prop :=
  exists ws, sockets h !! ws = Some OPEN \/ sockets h !! ws = Some CLOSING.

(** *** More example data *)

(** An aggregate without a payload. *)
Definition bare_statsToday : json := JObj [("type", JStr "statsToday")].

(** [JSON.parse] on the payloads of the examples of the components. *)
Definition JSON_parse_more (data : string) : option json :=
  if String.eqb data (wire "{'type':'statsToday'}") then Some bare_statsToday
  else JSON_parse_examples data.

(** An aggregate whose first country is an object. *)
Definition object_country_statsToday : json :=
  JObj [("type", JStr "statsToday");
        ("payload", JObj [("countries", JArr [JObj [("country", JObj [("code", JStr "A")]);
                                                    ("count", JNum (Finite 1))]])])].

(** [JSON.parse] on the payloads of the examples with values that are
    objects where texts are expected. *)
Definition JSON_parse_objects (data : string) : option json :=
  if String.eqb data
       (wire "[{'src_geo':{'lat':1,'lon':2},'dst_geo':{'lat':3,'lon':4},'type':{'toString':1}}]")
  then Some (JArr [attack_of_opaque_type])
  else if String.eqb data
            (wire "{'type':'statsToday','payload':{'countries':[{'country':{'code':'A'},'count':1}]}}")
  then Some object_country_statsToday
  else JSON_parse_more data.

(** A projection that places every point where its coordinates say. *)
Definition plate_carree (p : number * number) : option (number * number) := Some p.

(** Formatters for the examples, which inspect neither text. *)
Definition time_unused (date : Z) : string := "".
Definition rate_unused (x : number) : string := "".

(** *** Groups *)

(** The numbers a counter holds, summed. *)
Definition cells_sum (obj : counter) : nat :=
  sum_list ((fun entry => match entry.2 with Count n => n | Text => 0 end) <$> obj).

(** [groups] partitions [buffer] by key: one group for each key that
    occurs, but for [__proto__], with the number of its events. *)
Definition grouping (key_of : json -> outcome string) (buffer : list json)
    (groups : list (string * nat)) : Prop :=
  NoDup groups.*1
  /\ (forall k n, (k, n) ∈ groups <->
                  k <> "__proto__" /\ 1 <= n
                  /\ n = length (filter (fun a => key_of a = Returns k) buffer))
  /\ total_count groups
     = length (filter (fun a => key_of a <> Returns "__proto__") buffer).

(** Every grouping key of every event of the buffer converts to a
    property key, and none is a name every object inherits (but for
    [__proto__], which no counter keeps): the buffers on which the
    counters hold numbers only. *)
Definition countable (Number_toString : number -> string) (buffer : list json) : Prop :=
  Forall (fun attack => countable_key (source_key Number_toString attack)
                        /\ countable_key (target_key Number_toString attack)
                        /\ countable_key (type_key Number_toString attack)) buffer.

(** *** Rows *)

(** React renders the two children of the row of [item]. *)
Definition renderable (item : json) : Prop :=
  valid_child (aggregate_row item).1 = true /\ valid_child (aggregate_row item).2 = true.

(** *** Windows *)

(** A window as browsers report it: finite sizes that are not negative. *)
Definition reported (w : Window) : Prop :=
  exists a b, innerWidth w = Finite a /\ innerHeight w = Finite b
              /\ (0 <= a)%Q /\ (0 <= b)%Q.

(** The sizes the window takes in a trace. *)
Definition windows (trace : list resizing) : list Window :=
  omap (fun e => match e with Resize inner => Some inner | _ => None end) trace.

(** A number that is neither [0] nor [NaN]. *)
Definition truthy (n : number) : Prop := ToBoolean (Some (JNum n)) = true.

(** *** Connection and data *)

(** What the connection machine reads and writes: the connection flag,
    the three refs of the connection, the sockets and the timers. *)
Definition control (h : hook)
  : bool * option nat * nat * option nat * list readyState * list timer :=
  (isConnected h, wsRef h, reconnectAttemptsRef h, reconnectTimeoutRef h,
   sockets h, timers h).

Definition is_message (e : event) : bool :=
  match e with Message _ _ _ => true | _ => false end.

(** *** Connections *)

(** The sockets that are not closed: connecting, open or closing. *)
Definition alive (h : hook) : list readyState :=
  filter (fun s => s <> CLOSED) (sockets h).

Definition is_effect (e : event) : bool :=
  match e with Effect => true | _ => false end.

(** How often the effect ran. *)
Definition effects (trace : list event) : nat :=
  length (filter (fun e => is_effect e = true) trace).

(** * Properties *)

(** ** The validator *)

Lemma number_member (v : value) (k : string) :
  String.eqb (typeof (get v k)) "number" = true <->
  exists members, v = Some (JObj members) /\ number_coordinate members k = true.
Proof.
  split.
  - destruct v as [[]|]; simpl; try discriminate.
    intros H. eexists; split; [reflexivity|].
    unfold number_coordinate.
    destruct (own_property k members) as [[]|]; simpl in H; done.
  - intros (members & -> & H). simpl. unfold number_coordinate in H.
    destruct (own_property k members) as [[]|]; done.
Qed.

Lemma finite_is_number (point : list (string * json)) (k : string) :
  finite_coordinate point k = true -> number_coordinate point k = true.
Proof.
  unfold finite_coordinate, number_coordinate.
  destruct (own_property k point) as [[]|]; done.
Qed.

(** C2, as stated, fails: a candidate whose longitude is infinite is
    accepted by the validator, though the specified validator rejects it. *)
Lemma overflowing_attack_is_accepted :
  isValidAttack overflowing_attack = true
  /\ validator_as_specified overflowing_attack = false.
Proof. split; reflexivity. Qed.

(** C2, amended: the validator accepts a candidate iff it is an object
    whose [src_geo] and [dst_geo] are objects with [lon] and [lat] of type
    number, finite or not; every candidate the specified validator
    accepts is among them. *)
Theorem isValidAttack_iff_number_coordinates (attack : json) :
  (isValidAttack attack = true <->
   exists members src dst,
     attack = JObj members
     /\ own_property "src_geo" members = Some (JObj src)
     /\ own_property "dst_geo" members = Some (JObj dst)
     /\ number_coordinate src "lon" = true /\ number_coordinate src "lat" = true
     /\ number_coordinate dst "lon" = true /\ number_coordinate dst "lat" = true)
  /\ (validator_as_specified attack = true -> isValidAttack attack = true).
Proof.
  assert (Hback : forall members src dst,
             own_property "src_geo" members = Some (JObj src) ->
             own_property "dst_geo" members = Some (JObj dst) ->
             number_coordinate src "lon" = true -> number_coordinate src "lat" = true ->
             number_coordinate dst "lon" = true -> number_coordinate dst "lat" = true ->
             isValidAttack (JObj members) = true).
  { intros members src dst Hs Hd H1 H2 H3 H4.
    unfold isValidAttack. cbn [get ToBoolean typeof]. rewrite Hs, Hd.
    rewrite !(proj2 (number_member _ _)) by eauto. reflexivity. }
  split; [split|].
  - unfold isValidAttack. intros H.
    repeat (apply andb_prop in H as [H ?]).
    repeat match goal with
           | Hn : String.eqb (typeof (get _ _)) "number" = true |- _ =>
               apply number_member in Hn as (? & ? & ?)
           end.
    destruct attack; try discriminate. simpl in *.
    simplify_eq. do 3 eexists. eauto 10.
  - intros (members & src & dst & -> & Hs & Hd & H1 & H2 & H3 & H4). eauto.
  - destruct attack; try discriminate. simpl.
    destruct (own_property "src_geo" members) as [[]|] eqn:Hs; try discriminate.
    destruct (own_property "dst_geo" members) as [[]|] eqn:Hd; try discriminate.
    intros H. repeat (apply andb_prop in H as [H ?]).
    eapply Hback; eauto using finite_is_number.
Qed.

(** ** The rolling buffer *)

Lemma slice_last_length {A : Type} (n : nat) (l : list A) :
  length (slice_last n l) <= n.
Proof. unfold slice_last. rewrite length_drop. lia. Qed.

Lemma slice_last_short {A : Type} (n : nat) (l : list A) :
  length l <= n -> slice_last n l = l.
Proof.
  intros H. unfold slice_last. replace (length l - n) with 0 by lia. reflexivity.
Qed.

Lemma slice_last_app {A : Type} (n : nat) (a b : list A) :
  slice_last n (slice_last n a ++ b) = slice_last n (a ++ b).
Proof.
  destruct (decide (length a <= n)) as [Hle|Hgt].
  - by rewrite (slice_last_short n a).
  - unfold slice_last. rewrite !length_app, length_drop.
    rewrite <- (drop_app_le a b (length a - n)) by lia.
    rewrite drop_drop. f_equal. lia.
Qed.

Section Buffer.
Variable JSON_parse : string -> option json.
Variable options : UseWebSocketOptions.

Lemma on_batch_buffer (parsed : list json) (now : Z) (h : hook) :
  length (allAttacksRef h) <= 1000 ->
  allAttacksRef (on_batch parsed now h) =
  slice_last 1000
    (allAttacksRef h ++ filter (fun attack => isValidAttack attack = true) parsed).
Proof.
  intros Hlen. unfold on_batch. cbv zeta.
  destruct (Nat.ltb_spec 0 (length (filter (fun a => isValidAttack a = true) parsed)))
    as [Hsome|Hnone].
  - unfold setLastUpdate, setAttacks, set_allAttacksRef. cbn [allAttacksRef].
    destruct (Nat.ltb_spec 1000
                (length (allAttacksRef h ++
                         filter (fun a => isValidAttack a = true) parsed))).
    + reflexivity.
    + by rewrite slice_last_short.
  - destruct (filter _ parsed); [|simpl in Hnone; lia].
    rewrite app_nil_r. by rewrite slice_last_short.
Qed.

Lemma onmessage_buffer (data : string) (now : Z) (h : hook) :
  length (allAttacksRef h) <= 1000 ->
  allAttacksRef (onmessage JSON_parse data now h) =
  slice_last 1000 (allAttacksRef h ++ validAttacks JSON_parse data).
Proof.
  intros Hlen. unfold onmessage, validAttacks.
  assert (Hsame : allAttacksRef h = slice_last 1000 (allAttacksRef h ++ [])).
  { rewrite app_nil_r. by rewrite slice_last_short. }
  destruct (String.eqb data ""); [exact Hsame|].
  destruct (JSON_parse data) as [[]|]; try exact Hsame.
  all: try (match goal with |- context [if ?c then _ else _] => destruct c end;
            exact Hsame).
  by apply on_batch_buffer.
Qed.

(** Only [onmessage] writes the buffer. *)
Lemma connect_keeps_buffer (h : hook) :
  allAttacksRef (connect options h) = allAttacksRef h.
Proof. unfold connect. by destruct (url_constructs options). Qed.

Lemma close_keeps_buffer (ws : nat) (h : hook) :
  allAttacksRef (close ws h) = allAttacksRef h.
Proof. unfold close. by destruct (sockets h !! ws) as [[]|]. Qed.

Lemma clearTimeout_keeps_buffer (t : nat) (h : hook) :
  allAttacksRef (clearTimeout t h) = allAttacksRef h.
Proof. unfold clearTimeout. by destruct (timers h !! t) as [[]|]. Qed.

Lemma cleanup_keeps_buffer (h : hook) :
  allAttacksRef (cleanup h) = allAttacksRef h.
Proof.
  unfold cleanup.
  destruct (reconnectTimeoutRef h) as [t|]; destruct (wsRef _) as [ws|];
    by rewrite ?close_keeps_buffer, ?clearTimeout_keeps_buffer.
Qed.

Lemma onclose_keeps_buffer (h : hook) :
  allAttacksRef (onclose options h) = allAttacksRef h.
Proof. unfold onclose. cbv zeta. by destruct (_ <? _)%Z. Qed.

Lemma control_keeps_buffer (e : event) (h : hook) :
  (forall ws data now, e <> Message ws data now) ->
  allAttacksRef (step JSON_parse options e h) = allAttacksRef h.
Proof.
  intros Hctl. destruct e; cbn [step].
  - apply connect_keeps_buffer.
  - apply cleanup_keeps_buffer.
  - reflexivity.
  - by destruct (Hctl ws data now).
  - rewrite onclose_keeps_buffer. by destruct failed.
  - by rewrite connect_keeps_buffer.
Qed.

Lemma step_buffer (e : event) (h : hook) :
  length (allAttacksRef h) <= 1000 ->
  allAttacksRef (step JSON_parse options e h) =
  slice_last 1000 (allAttacksRef h ++ arrivals JSON_parse [e]).
Proof.
  intros Hlen. unfold arrivals. simpl flat_map. rewrite app_nil_r.
  destruct e; try (rewrite control_keeps_buffer by done;
                   by rewrite app_nil_r, slice_last_short).
  by apply onmessage_buffer.
Qed.

Lemma run_buffer (trace : list event) (h0 h : hook) :
  length (allAttacksRef h0) <= 1000 ->
  run JSON_parse options trace h0 = Some h ->
  allAttacksRef h = slice_last 1000 (allAttacksRef h0 ++ arrivals JSON_parse trace).
Proof.
  revert h0. induction trace as [|e trace IH]; intros h0 Hlen Hrun.
  - simpl in Hrun. injection Hrun as <-. unfold arrivals. simpl.
    by rewrite app_nil_r, slice_last_short.
  - simpl in Hrun. destruct (enabled e h0); [|discriminate].
    apply IH in Hrun.
    + rewrite Hrun, step_buffer by done.
      rewrite slice_last_app. change (e :: trace) with ([e] ++ trace).
      unfold arrivals. by rewrite flat_map_app, app_assoc.
    + rewrite step_buffer by done. apply slice_last_length.
Qed.
End Buffer.



(** ** Doubles *)

Lemma round_half_even_cases (q : Q) :
  round_half_even q = Qfloor q \/ round_half_even q = (Qfloor q + 1)%Z.
Proof.
  unfold round_half_even.
  destruct (_ ?= _)%Q; [destruct (Z.even _)| |]; auto.
Qed.

Lemma round_half_even_ge (q : Q) (k : Z) :
  (inject_Z k <= q)%Q -> (k <= round_half_even q)%Z.
Proof.
  intros Hk. apply Qfloor_resp_le in Hk. rewrite Qfloor_Z in Hk.
  destruct (round_half_even_cases q) as [-> | ->]; lia.
Qed.

Lemma round_half_even_le (q : Q) (k : Z) :
  (q <= inject_Z k)%Q -> (round_half_even q <= k)%Z.
Proof.
  intros Hk. pose proof (Qfloor_resp_le _ _ Hk) as Hfloor. rewrite Qfloor_Z in Hfloor.
  destruct (Z.eq_dec (Qfloor q) k) as [Heq | Hne].
  - unfold round_half_even.
    replace (q - inject_Z (Qfloor q) ?= 1 # 2)%Q with Lt; [lia|].
    symmetry. apply Qlt_alt. rewrite Heq.
    apply Qle_lt_trans with 0%Q; [|reflexivity].
    apply (Qplus_le_l _ _ (inject_Z k)). ring_simplify. exact Hk.
  - destruct (round_half_even_cases q) as [-> | ->]; lia.
Qed.

Lemma two_nonzero : ~ (2 == 0)%Q.
Proof. discriminate. Qed.

Lemma Qpower_2_pos (e : Z) : (0 < 2 ^ e)%Q.
Proof. by apply Qpower_0_lt. Qed.

Lemma Qpower_2_succ (e : Z) : (2 ^ (e + 1) == 2 * 2 ^ e)%Q.
Proof. rewrite Qpower_plus by apply two_nonzero. ring. Qed.

Lemma Qpower_2_le (n m : Z) : (n <= m)%Z -> (2 ^ n <= 2 ^ m)%Q.
Proof. intros H. by apply Qpower_le_compat_l. Qed.

(** [binade q] is the exponent of the first bit of [q]. *)
Lemma binade_spec (q : Q) :
  (0 < q)%Q -> (2 ^ binade q <= q)%Q /\ (q < 2 ^ (binade q + 1))%Q.
Proof.
  intros Hq. destruct q as [n d]. unfold binade. cbn [Qnum Qden].
  assert (0 < n)%Z as Hn by (unfold Qlt in Hq; simpl in Hq; lia).
  set (a := Z.log2 n). set (b := Z.log2 (Z.pos d)).
  destruct (Z.log2_spec n Hn) as [Ha1 Ha2]. fold a in Ha1, Ha2.
  destruct (Z.log2_spec (Z.pos d) eq_refl) as [Hb1 Hb2]. fold b in Hb1, Hb2.
  assert (0 <= a)%Z as Ha0 by apply Z.log2_nonneg.
  assert (0 <= b)%Z as Hb0 by apply Z.log2_nonneg.
  assert (n # d < 2 ^ (a - b + 1))%Q as Hupper.
  { replace (a - b + 1)%Z with (Z.succ a - b)%Z by lia.
    rewrite Qpower_minus by apply two_nonzero.
    apply Qlt_shift_div_l; [apply Qpower_2_pos|].
    change 2%Q with (inject_Z 2). rewrite <- !Zpower_Qpower by lia.
    unfold Qlt, Qmult, inject_Z. cbn [Qnum Qden]. nia. }
  assert (2 ^ (a - b - 1) <= n # d)%Q as Hlower.
  { replace (a - b - 1)%Z with (a - Z.succ b)%Z by lia.
    rewrite Qpower_minus by apply two_nonzero.
    apply Qle_shift_div_r; [apply Qpower_2_pos|].
    change 2%Q with (inject_Z 2). rewrite <- !Zpower_Qpower by lia.
    unfold Qle, Qmult, inject_Z. cbn [Qnum Qden]. nia. }
  destruct (Qle_bool (2 ^ (a - b)) (n # d)) eqn:Htest.
  - split; [by apply Qle_bool_iff | exact Hupper].
  - split; [exact Hlower|].
    replace (a - b - 1 + 1)%Z with (a - b)%Z by lia.
    apply Qnot_le_lt. intros H. apply Qle_bool_iff in H. congruence.
Qed.

Lemma Qabs_nonzero (q : Q) : ~ (q == 0)%Q -> (0 < Qabs q)%Q.
Proof.
  intros Hq. destruct (Qle_lt_or_eq _ _ (Qabs_nonneg q)) as [H | H]; [exact H|].
  exfalso. apply Hq. symmetry in H. revert H. unfold Qabs, Qeq.
  destruct q as [[|n|n] d]; simpl; lia.
Qed.

Lemma significand_nonneg (q : Q) : (0 <= significand q)%Z.
Proof.
  apply round_half_even_ge. change (inject_Z 0) with 0%Q.
  apply Qle_shift_div_l; [apply Qpower_2_pos|].
  rewrite Qmult_0_l. apply Qabs_nonneg.
Qed.

(** The significand has at most 53 bits, or is [2 ^ 53] when rounding
    carries out of them. *)
Lemma significand_le (q : Q) : ~ (q == 0)%Q -> (significand q <= 2 ^ 53)%Z.
Proof.
  intros Hq. apply round_half_even_le.
  destruct (binade_spec (Qabs q) (Qabs_nonzero q Hq)) as [_ Hupper].
  apply Qle_shift_div_r; [apply Qpower_2_pos|].
  rewrite Zpower_Qpower by lia. change (inject_Z 2) with 2%Q.
  rewrite <- Qpower_plus by apply two_nonzero.
  apply Qlt_le_weak, Qlt_le_trans with (1 := Hupper).
  apply Qpower_2_le. unfold exponent. lia.
Qed.

Lemma exponent_normal (q : Q) :
  (2 ^ (-1022) <= Qabs q)%Q -> exponent q = (binade (Qabs q) - 52)%Z.
Proof.
  intros Hq.
  assert (0 < Qabs q)%Q as Hpos by (apply Qlt_le_trans with (2 := Hq), Qpower_2_pos).
  destruct (binade_spec (Qabs q) Hpos) as [_ Hupper].
  assert (-1022 < binade (Qabs q) + 1)%Z.
  { apply (Qpower_lt_compat_l_inv 2); [|reflexivity]. by apply Qle_lt_trans with (Qabs q). }
  unfold exponent. lia.
Qed.

(** From [2 ^ -1022] on the significand has its 53 bits. *)
Lemma significand_normal (q : Q) :
  (2 ^ (-1022) <= Qabs q)%Q -> (2 ^ 52 <= significand q)%Z.
Proof.
  intros Hq.
  assert (0 < Qabs q)%Q as Hpos by (apply Qlt_le_trans with (2 := Hq), Qpower_2_pos).
  destruct (binade_spec (Qabs q) Hpos) as [Hlower _].
  apply round_half_even_ge. rewrite (exponent_normal q Hq).
  apply Qle_shift_div_l; [apply Qpower_2_pos|].
  rewrite Zpower_Qpower by lia. change (inject_Z 2) with 2%Q.
  rewrite <- Qpower_plus by apply two_nonzero.
  replace (52 + (binade (Qabs q) - 52))%Z with (binade (Qabs q)) by lia.
  exact Hlower.
Qed.

Lemma rounded_nonneg (q : Q) : (0 <= inject_Z (significand q) * 2 ^ exponent q)%Q.
Proof.
  apply Qmult_le_0_compat; [|apply Qlt_le_weak, Qpower_2_pos].
  change 0%Q with (inject_Z 0). rewrite <- Zle_Qle. apply significand_nonneg.
Qed.

(** Rounding a value from [2 ^ -1022] on keeps more than half of it. *)
Lemma rounded_normal (q : Q) :
  (2 ^ (-1022) <= Qabs q)%Q ->
  (Qabs q < 2 * (inject_Z (significand q) * 2 ^ exponent q))%Q.
Proof.
  intros Hq.
  assert (0 < Qabs q)%Q as Hpos by (apply Qlt_le_trans with (2 := Hq), Qpower_2_pos).
  destruct (binade_spec (Qabs q) Hpos) as [_ Hupper].
  apply Qlt_le_trans with (1 := Hupper).
  rewrite Qpower_2_succ. apply Qmult_le_l; [reflexivity|].
  rewrite (exponent_normal q Hq).
  apply Qle_trans with (inject_Z (2 ^ 52) * 2 ^ (binade (Qabs q) - 52))%Q.
  - rewrite Zpower_Qpower by lia. change (inject_Z 2) with 2%Q.
    rewrite <- Qpower_plus by apply two_nonzero.
    replace (52 + (binade (Qabs q) - 52))%Z with (binade (Qabs q)) by lia.
    apply Qle_refl.
  - apply Qmult_le_compat_r; [|apply Qlt_le_weak, Qpower_2_pos].
    rewrite <- Zle_Qle. by apply significand_normal.
Qed.

(** Rounding a value below [2 ^ 1023] does not overflow. *)
Lemma rounded_below (q : Q) :
  ~ (q == 0)%Q -> (Qabs q < 2 ^ 1023)%Q ->
  (inject_Z (significand q) * 2 ^ exponent q < 2 ^ 1024)%Q.
Proof.
  intros Hq Hbound.
  destruct (binade_spec (Qabs q) (Qabs_nonzero q Hq)) as [Hlower _].
  assert (binade (Qabs q) < 1023)%Z.
  { apply (Qpower_lt_compat_l_inv 2); [|reflexivity]. by apply Qle_lt_trans with (Qabs q). }
  apply Qle_lt_trans with (inject_Z (2 ^ 53) * 2 ^ exponent q)%Q.
  - apply Qmult_le_compat_r; [|apply Qlt_le_weak, Qpower_2_pos].
    rewrite <- Zle_Qle. by apply significand_le.
  - rewrite Zpower_Qpower by lia. change (inject_Z 2) with 2%Q.
    rewrite <- Qpower_plus by apply two_nonzero.
    apply Qpower_lt_compat_l; [|reflexivity]. unfold exponent. lia.
Qed.

Lemma is_negative_false (q : Q) : (0 <= q)%Q -> is_negative q = false.
Proof. intros H. unfold is_negative. apply Qle_bool_iff in H. by rewrite H. Qed.

Lemma is_negative_true (q : Q) : (q < 0)%Q -> is_negative q = true.
Proof.
  intros H. unfold is_negative. destruct (Qle_bool 0 q) eqn:Hle; [|reflexivity].
  apply Qle_bool_iff in Hle. by apply Qlt_not_le in H.
Qed.

(** Rounding keeps the sign. *)
Lemma binary64_nonneg (q : Q) :
  (0 <= q)%Q ->
  (exists r, binary64 q = Finite r /\ (0 <= r)%Q) \/ binary64 q = Infinity false.
Proof.
  intros Hq. unfold binary64. rewrite (is_negative_false q Hq).
  destruct (Qeq_bool q 0); [left; exists 0%Q; split; [reflexivity | apply Qle_refl]|].
  destruct (Qle_bool _ _); [by right|].
  left. eexists. split; [reflexivity|]. rewrite Qred_correct. apply rounded_nonneg.
Qed.

Lemma binary64_nonpos (q : Q) :
  (q <= 0)%Q ->
  (exists r, binary64 q = Finite r /\ (r <= 0)%Q) \/ binary64 q = Infinity true.
Proof.
  intros Hq. unfold binary64.
  destruct (Qeq_bool q 0) eqn:Hzero; [left; exists 0%Q; split; [reflexivity | apply Qle_refl]|].
  assert (q < 0)%Q as Hneg.
  { apply Qle_lt_or_eq in Hq as [H | H]; [exact H|].
    apply Qeq_bool_iff in H. congruence. }
  rewrite (is_negative_true q Hneg).
  destruct (Qle_bool _ _); [by right|].
  left. eexists. split; [reflexivity|]. rewrite Qred_correct.
  apply (Qopp_le_compat 0). apply rounded_nonneg.
Qed.

(** No value from [2 ^ -1022] on rounds to zero. *)
Lemma binary64_normal (q : Q) :
  (2 ^ (-1022) <= q)%Q ->
  (exists r, binary64 q = Finite r /\ (q < 2 * r)%Q) \/ binary64 q = Infinity false.
Proof.
  intros Hq.
  assert (0 < q)%Q as Hpos by (apply Qlt_le_trans with (2 := Hq), Qpower_2_pos).
  assert (Qabs q == q)%Q as Habs by (apply Qabs_pos, Qlt_le_weak, Hpos).
  unfold binary64. rewrite (is_negative_false q (Qlt_le_weak _ _ Hpos)).
  destruct (Qeq_bool q 0) eqn:Hzero.
  { apply Qeq_bool_iff in Hzero. rewrite Hzero in Hpos. by apply Qlt_irrefl in Hpos. }
  destruct (Qle_bool _ _); [by right|].
  left. eexists. split; [reflexivity|]. rewrite Qred_correct.
  rewrite <- Habs at 1. apply rounded_normal. by rewrite Habs.
Qed.

Lemma binary64_finite (q : Q) :
  (0 <= q)%Q -> (q < 2 ^ 1023)%Q -> exists r, binary64 q = Finite r /\ (0 <= r)%Q.
Proof.
  intros Hq Hbound.
  assert (Qabs q == q)%Q as Habs by (apply Qabs_pos, Hq).
  unfold binary64. rewrite (is_negative_false q Hq).
  destruct (Qeq_bool q 0) eqn:Hzero; [exists 0%Q; split; [reflexivity | apply Qle_refl]|].
  assert (~ (q == 0)%Q) as Hne by (intros H; apply Qeq_bool_iff in H; congruence).
  destruct (Qle_bool _ _) eqn:Hover.
  { exfalso. apply Qle_bool_iff in Hover. apply Qle_not_lt in Hover. apply Hover.
    apply rounded_below; [exact Hne | by rewrite Habs]. }
  eexists. split; [reflexivity|]. rewrite Qred_correct. apply rounded_nonneg.
Qed.

Lemma round_half_even_integer (q : Q) (k : Z) :
  (q == inject_Z k)%Q -> round_half_even q = k.
Proof.
  intros Hq. unfold round_half_even.
  assert (Qfloor q = k) as -> by (rewrite Hq; apply Qfloor_Z).
  replace (q - inject_Z k ?= 1 # 2)%Q with Lt; [done|].
  symmetry. apply Qlt_alt. rewrite Hq. unfold Qminus. rewrite Qplus_opp_r. reflexivity.
Qed.

Lemma Qred_integer (q : Q) (n : Z) : (q == inject_Z n)%Q -> Qred q = inject_Z n.
Proof.
  intros Hq. rewrite (Qred_complete _ _ Hq). unfold Qred, inject_Z.
  pose proof (Z.ggcd_gcd n 1) as Hg. pose proof (Z.ggcd_correct_divisors n 1) as Hd.
  destruct (Z.ggcd n 1) as [g [a b]]. cbn [fst] in Hg. destruct Hd as [Ha Hb].
  rewrite Z.gcd_1_r in Hg. subst g.
  assert (a = n) as -> by lia. assert (b = 1%Z) as -> by lia. reflexivity.
Qed.

(** A double holds every integer below [2 ^ 53] exactly. *)
Lemma binary64_integer (q : Q) (n : Z) :
  (q == inject_Z n)%Q -> (Z.abs n < 2 ^ 53)%Z -> binary64 q = Finite (inject_Z n).
Proof.
  intros Hq Hn. unfold binary64.
  destruct (Qeq_bool q 0) eqn:Hzero.
  { apply Qeq_bool_iff in Hzero. rewrite Hq in Hzero.
    assert (n = 0%Z) as -> by (unfold Qeq, inject_Z in Hzero; simpl in Hzero; lia).
    reflexivity. }
  assert (~ (q == 0)%Q) as Hne by (intros H; apply Qeq_bool_iff in H; congruence).
  assert (Qabs q == inject_Z (Z.abs n))%Q as Habs by (rewrite Hq; reflexivity).
  destruct (binade_spec (Qabs q) (Qabs_nonzero q Hne)) as [Hlower Hupper].
  set (b := binade (Qabs q)) in *.
  assert (inject_Z (Z.abs n) < inject_Z (2 ^ 53))%Q as Hbound by by rewrite <- Zlt_Qlt.
  assert (1 <= inject_Z (Z.abs n))%Q as Hone.
  { change 1%Q with (inject_Z 1). rewrite <- Zle_Qle.
    assert (n <> 0%Z); [|lia]. intros ->. apply Hne. by rewrite Hq. }
  assert (b < 53)%Z as Hb53.
  { apply (Qpower_lt_compat_l_inv 2); [|reflexivity].
    apply Qle_lt_trans with (1 := Hlower). rewrite Habs.
    by rewrite <- (Zpower_Qpower 2 53). }
  assert (0 < b + 1)%Z as Hb0.
  { apply (Qpower_lt_compat_l_inv 2); [|reflexivity].
    apply Qle_lt_trans with (2 := Hupper). by rewrite Habs. }
  assert (exponent q = b - 52)%Z as He by (unfold exponent; fold b; lia).
  assert (significand q = Z.abs n * 2 ^ (52 - b))%Z as Hm.
  { unfold significand. apply round_half_even_integer. rewrite He, Habs.
    rewrite inject_Z_mult, Zpower_Qpower by lia. change (inject_Z 2) with 2%Q.
    replace (b - 52)%Z with (- (52 - b))%Z by lia. rewrite Qpower_opp.
    unfold Qdiv. by rewrite Qinv_involutive. }
  assert (inject_Z (significand q) * 2 ^ exponent q == inject_Z (Z.abs n))%Q as Hr.
  { rewrite He, Hm, inject_Z_mult, Zpower_Qpower by lia. change (inject_Z 2) with 2%Q.
    rewrite <- Qmult_assoc, <- Qpower_plus by apply two_nonzero.
    replace (52 - b + (b - 52))%Z with 0%Z by lia. apply Qmult_1_r. }
  destruct (Qle_bool _ _) eqn:Hover.
  { exfalso. apply Qle_bool_iff in Hover. rewrite Hr in Hover.
    apply Qle_not_lt in Hover. apply Hover.
    apply Qlt_trans with (1 := Hbound). rewrite (Zpower_Qpower 2 53) by lia.
    apply Qpower_lt_compat_l; [lia|reflexivity]. }
  f_equal. apply Qred_integer.
  unfold is_negative. destruct (Qle_bool 0 q) eqn:Hsign; cbn [negb].
  - rewrite Hr. apply Qle_bool_iff in Hsign. rewrite Hq in Hsign.
    change 0%Q with (inject_Z 0) in Hsign. rewrite <- Zle_Qle in Hsign.
    by rewrite Z.abs_eq.
  - rewrite Hr. rewrite <- inject_Z_opp.
    assert (n < 0)%Z as Hneg.
    { apply Z.lt_nge. intros Hge. apply not_true_iff_false in Hsign. apply Hsign.
      apply Qle_bool_iff. rewrite Hq. change 0%Q with (inject_Z 0). by rewrite <- Zle_Qle. }
    rewrite Z.abs_neq by lia. by rewrite Z.opp_involutive.
Qed.

(** The doubles of some reals: a tenth; the two integers next to
    [2 ^ 53 + 1] and to [2 ^ 53 + 3], which ties leave even; half the
    least double and one and a half times it; the least real that
    overflows. *)
Example binary64_tenth : binary64 (1 # 10) = Finite (3602879701896397 # 36028797018963968).
Proof. vm_compute. reflexivity. Qed.

Example binary64_ties :
  binary64 (inject_Z (2 ^ 53 + 1)) = Finite (inject_Z (2 ^ 53))
  /\ binary64 (inject_Z (2 ^ 53 + 3)) = Finite (inject_Z (2 ^ 53 + 4)).
Proof. split; vm_compute; reflexivity. Qed.

Example binary64_underflow :
  binary64 (2 ^ (-1075)) = Finite 0
  /\ binary64 (3 * 2 ^ (-1075)) = binary64 (2 ^ (-1073))
  /\ binary64 (2 ^ (-1074)) <> Finite 0.
Proof. split; [|split]; vm_compute; [reflexivity..|discriminate]. Qed.

Example binary64_overflow :
  binary64 (2 ^ 1024 - 2 ^ 970) = Infinity false
  /\ isFinite (binary64 (2 ^ 1024 - 2 ^ 970 - 1)) = true
  /\ binary64 (- (2 ^ 1024)) = Infinity true.
Proof. split; [|split]; vm_compute; reflexivity. Qed.

(** ** The statistics *)

Section Statistics.
Variable Number_toString : number -> string.

Lemma calculateStats_returns_inv (now start : Z) (allAttacks : list json) (s : Stats) :
  calculateStats Number_toString now start allAttacks = Returns s ->
  exists sources targets types,
    forEach (tally Number_toString) allAttacks ([], [], []) = Returns (sources, targets, types)
    /\ ranking sources = Returns (topSourceCountries s)
    /\ ranking targets = Returns (topTargetCountries s)
    /\ ranking types = Returns (attackTypes s)
    /\ totalAttacks s = length allAttacks
    /\ attacksPerMinute s = rate (length allAttacks) (timeDiff now start).
Proof.
  unfold calculateStats. cbv zeta.
  destruct (forEach _ allAttacks _) as [[[sources targets] types]| |]; try discriminate.
  cbn [mbind outcome_bind].
  destruct (ranking sources) eqn:Hsources; try discriminate.
  destruct (ranking targets) eqn:Htargets; try discriminate.
  destruct (ranking types) eqn:Htypes; try discriminate.
  cbn [mbind outcome_bind]. intros [= <-].
  cbn [totalAttacks attacksPerMinute topSourceCountries topTargetCountries attackTypes].
  exists sources, targets, types. by repeat split.
Qed.
End Statistics.

(** *** The elapsed minutes *)

Lemma minutes_divisor (r : Q) :
  Number_divide (Finite r) (Finite (1000 * 60)) = binary64 (r / (1000 * 60)).
Proof. reflexivity. Qed.

(** After the observation start the elapsed minutes are a double above
    zero: the difference of the clocks is at least a millisecond, and
    neither rounding takes it to zero. *)
Lemma timeDiff_elapsed (now start : Z) :
  (start < now)%Z ->
  timeDiff now start = Infinity false
  \/ exists t, timeDiff now start = Finite t /\ (1 # 240000 < t)%Q.
Proof.
  intros Hlt. unfold timeDiff, getTime, Number_subtract.
  assert (1 <= inject_Z now - inject_Z start)%Q as Hms.
  { unfold Qle, Qminus, Qplus, Qopp, inject_Z. cbn [Qnum Qden]. lia. }
  assert (2 ^ (-1022) <= 1 # 131072)%Q as Hsmall.
  { change (1 # 131072)%Q with (2 ^ (-17))%Q. apply Qpower_2_le. lia. }
  destruct (binary64_normal (inject_Z now - inject_Z start)) as [(r & -> & Hr) | ->];
    [lra | | by left].
  rewrite minutes_divisor.
  destruct (binary64_normal (r / (1000 * 60))) as [(t & -> & Ht) | ->]; [| | by left].
  - apply Qle_trans with (1 := Hsmall). apply Qle_shift_div_l; [reflexivity|]. lra.
  - right. exists t. split; [reflexivity|].
    assert (1 # 120000 < r / (1000 * 60))%Q; [|lra].
    apply Qlt_shift_div_l; [reflexivity|]. lra.
Qed.

(** Up to the observation start they are not. *)
Lemma timeDiff_not_elapsed (now start : Z) :
  (now <= start)%Z ->
  timeDiff now start = Infinity true
  \/ exists t, timeDiff now start = Finite t /\ (t <= 0)%Q.
Proof.
  intros Hle. unfold timeDiff, getTime, Number_subtract.
  assert (inject_Z now - inject_Z start <= 0)%Q as Hms.
  { unfold Qle, Qminus, Qplus, Qopp, inject_Z. cbn [Qnum Qden]. lia. }
  destruct (binary64_nonpos (inject_Z now - inject_Z start)) as [(r & -> & Hr) | ->];
    [exact Hms | | by left].
  rewrite minutes_divisor.
  destruct (binary64_nonpos (r / (1000 * 60))) as [(t & -> & Ht) | ->]; [| | by left].
  - apply Qle_shift_div_r; [reflexivity|]. lra.
  - right. by exists t.
Qed.

(** The difference of two clocks less than [2 ^ 53] ms apart is exact,
    and the elapsed minutes are its quotient by 60000, rounded once. *)
Lemma timeDiff_rounded (now start : Z) :
  (Z.abs (now - start) < 2 ^ 53)%Z ->
  timeDiff now start = binary64 (inject_Z (now - start) / (1000 * 60)).
Proof.
  intros Hms. unfold timeDiff, getTime, Number_subtract.
  rewrite (binary64_integer _ (now - start)); [reflexivity| |exact Hms].
  unfold Z.sub. by rewrite inject_Z_plus, inject_Z_opp.
Qed.

Lemma Number_gt_zero (t : Q) : Number_gt (Finite t) (Finite 0) = true <-> (0 < t)%Q.
Proof.
  unfold Number_gt. rewrite negb_true_iff. split.
  - intros H. apply Qnot_le_lt. intros Hle. apply Qle_bool_iff in Hle. congruence.
  - intros H. destruct (Qle_bool t 0) eqn:Hle; [|reflexivity].
    apply Qle_bool_iff in Hle. by apply Qlt_not_le in H.
Qed.

Lemma count_nonneg (n : nat) : (0 <= inject_Z (Z.of_nat n))%Q.
Proof. change 0%Q with (inject_Z 0). rewrite <- Zle_Qle. lia. Qed.

(** *** The rate *)

Lemma rate_not_elapsed (n : nat) (now start : Z) :
  (now <= start)%Z ->
  Number_gt (timeDiff now start) (Finite 0) = false
  /\ rate n (timeDiff now start) = Finite 0.
Proof.
  intros Hle. unfold rate.
  destruct (timeDiff_not_elapsed now start Hle) as [-> | (t & -> & Ht)]; [done|].
  destruct (Number_gt (Finite t) (Finite 0)) eqn:Hgt; [|done].
  apply Number_gt_zero in Hgt. by apply Qlt_not_le in Hgt.
Qed.

Lemma rate_elapsed (n : nat) (now start : Z) :
  (start < now)%Z ->
  Number_gt (timeDiff now start) (Finite 0) = true
  /\ rate n (timeDiff now start)
     = Number_divide (Finite (inject_Z (Z.of_nat n))) (timeDiff now start).
Proof.
  intros Hlt. unfold rate.
  destruct (timeDiff_elapsed now start Hlt) as [-> | (t & -> & Ht)]; [done|].
  assert (Number_gt (Finite t) (Finite 0) = true) as ->; [|done].
  apply Number_gt_zero. lra.
Qed.

Lemma quotient_by_positive (n : nat) (t : Q) :
  (0 < t)%Q ->
  Number_divide (Finite (inject_Z (Z.of_nat n))) (Finite t)
  = binary64 (inject_Z (Z.of_nat n) / t).
Proof.
  intros Ht. unfold Number_divide.
  destruct (Qeq_bool t 0) eqn:Hzero; [|reflexivity].
  apply Qeq_bool_iff in Hzero. rewrite Hzero in Ht. by apply Qlt_irrefl in Ht.
Qed.

Lemma rate_nonnegative (n : nat) (now start : Z) :
  nonnegative (rate n (timeDiff now start)) = true.
Proof.
  destruct (Z.le_gt_cases now start) as [Hle | Hlt].
  { by destruct (rate_not_elapsed n now start Hle) as [_ ->]. }
  destruct (rate_elapsed n now start Hlt) as [_ ->].
  destruct (timeDiff_elapsed now start Hlt) as [-> | (t & -> & Ht)]; [done|].
  rewrite quotient_by_positive by lra.
  destruct (binary64_nonneg (inject_Z (Z.of_nat n) / t)) as [(r & -> & Hr) | ->]; [| |done].
  - apply Qle_shift_div_l; [lra|]. rewrite Qmult_0_l. apply count_nonneg.
  - by apply Qle_bool_iff.
Qed.

(** An array has fewer than [2 ^ 32] items; the rate of one is finite. *)
Lemma rate_finite (n : nat) (now start : Z) :
  (Z.of_nat n < 2 ^ 32)%Z -> isFinite (rate n (timeDiff now start)) = true.
Proof.
  intros Hn.
  destruct (Z.le_gt_cases now start) as [Hle | Hlt].
  { by destruct (rate_not_elapsed n now start Hle) as [_ ->]. }
  destruct (rate_elapsed n now start Hlt) as [_ ->].
  destruct (timeDiff_elapsed now start Hlt) as [-> | (t & -> & Ht)]; [done|].
  rewrite quotient_by_positive by lra.
  assert (inject_Z (Z.of_nat n) < inject_Z (2 ^ 32))%Q as Hcount by by rewrite <- Zlt_Qlt.
  pose proof (count_nonneg n) as Hnonneg.
  destruct (binary64_finite (inject_Z (Z.of_nat n) / t)) as (r & -> & _); [| |done].
  - apply Qle_shift_div_l; [lra|]. by rewrite Qmult_0_l.
  - apply Qlt_shift_div_r; [lra|].
    apply Qlt_le_trans with (inject_Z (2 ^ 32)); [exact Hcount|].
    apply Qle_trans with (2 ^ 50 * (1 # 240000))%Q; [by apply Qle_bool_iff|].
    apply Qle_trans with (2 ^ 50 * t)%Q; [apply Qmult_le_l; [reflexivity | lra]|].
    apply Qmult_le_compat_r; [|lra]. apply Qpower_2_le. lia.
Qed.

(** A test [>=] in place of [>] would divide by zero at the observation
    start, where the elapsed minutes are zero. *)
Lemma timeDiff_at_start (start : Z) : timeDiff start start = Finite 0.
Proof.
  unfold timeDiff, getTime, Number_subtract.
  assert (binary64 (inject_Z start - inject_Z start) = Finite 0) as ->; [|reflexivity].
  unfold binary64.
  assert (Qeq_bool (inject_Z start - inject_Z start) 0 = true) as ->; [|reflexivity].
  apply Qeq_bool_iff. ring.
Qed.

Lemma division_at_start (n : nat) (start : Z) :
  Number_divide (Finite (inject_Z (Z.of_nat n))) (timeDiff start start)
  = match n with 0 => NaN | S _ => Infinity false end.
Proof.
  rewrite timeDiff_at_start. unfold Number_divide.
  change (Qeq_bool 0 0) with true. cbv iota.
  destruct n as [|n]; [reflexivity|].
  assert (0 < inject_Z (Z.of_nat (S n)))%Q as Hpos.
  { change 0%Q with (inject_Z 0). rewrite <- Zlt_Qlt. lia. }
  destruct (Qeq_bool _ 0) eqn:Hzero.
  { apply Qeq_bool_iff in Hzero. rewrite Hzero in Hpos. by apply Qlt_irrefl in Hpos. }
  by rewrite is_negative_false by lra.
Qed.

(** C3: for every buffer and every two clocks, the rate the function
    computes is 0 when no time has elapsed since the observation start
    (the test [timeDiff > 0] fails), and otherwise the number of events
    divided by the elapsed minutes, in the doubles of the code: the
    divisor is then above zero, so the division is never one by zero,
    and the rate is never negative nor NaN, and finite for every array.
    The elapsed minutes are the milliseconds between the two clocks over
    60000, rounded to the nearest double.  Whenever [calculateStats]
    returns, this rate is the [attacksPerMinute] of its result. *)
Theorem attacksPerMinute_guarded
    (Number_toString : number -> string) (now start : Z) (allAttacks : list json) :
  let count := Finite (inject_Z (Z.of_nat (length allAttacks))) in
  let attacksPerMinute_computed := rate (length allAttacks) (timeDiff now start) in
  (forall s, calculateStats Number_toString now start allAttacks = Returns s ->
             attacksPerMinute s = attacksPerMinute_computed)
  /\ ((now <= start)%Z ->
      Number_gt (timeDiff now start) (Finite 0) = false
      /\ attacksPerMinute_computed = Finite 0)
  /\ ((start < now)%Z ->
      Number_gt (timeDiff now start) (Finite 0) = true
      /\ attacksPerMinute_computed = Number_divide count (timeDiff now start))
  /\ nonnegative attacksPerMinute_computed = true
  /\ ((Z.of_nat (length allAttacks) < 2 ^ 32)%Z ->
      isFinite attacksPerMinute_computed = true)
  /\ ((Z.abs (now - start) < 2 ^ 53)%Z ->
      timeDiff now start = binary64 (inject_Z (now - start) / (1000 * 60))).
Proof.
  cbv zeta. split; [|split; [|split; [|split; [|split]]]].
  - intros s Hs.
    by apply calculateStats_returns_inv in Hs as (_ & _ & _ & _ & _ & _ & _ & _ & Hrate).
  - apply rate_not_elapsed.
  - apply rate_elapsed.
  - apply rate_nonnegative.
  - apply rate_finite.
  - apply timeDiff_rounded.
Qed.

(** Two events: two minutes after the observation start the rate is 1 a
    minute; at the start, and with a clock set back below it, it is 0.
    Where a type is named [constructor] the lists are in an order the
    engine chooses, and the rate is computed all the same. *)
Lemma attacksPerMinute_witness :
  let buffer := [attack_of_type "ddos"; bare_attack] in
  (exists s,
     calculateStats Number_toString_unused 120000 0 buffer = Returns s
     /\ Number_gt (timeDiff 120000 0) (Finite 0) = true
     /\ attacksPerMinute s = Number_divide (Finite 2) (timeDiff 120000 0)
     /\ attacksPerMinute s = Finite 1)
  /\ (exists s,
        calculateStats Number_toString_unused 120000 120000 buffer = Returns s
        /\ Number_gt (timeDiff 120000 120000) (Finite 0) = false
        /\ attacksPerMinute s = Finite 0)
  /\ (exists s,
        calculateStats Number_toString_unused 0 120000 buffer = Returns s
        /\ Number_gt (timeDiff 0 120000) (Finite 0) = false
        /\ attacksPerMinute s = Finite 0)
  /\ (let inherited := [attack_of_type "ddos"; attack_of_type "constructor"] in
      calculateStats Number_toString_unused 120000 0 inherited = EngineDefined
      /\ rate (length inherited) (timeDiff 120000 0)
         = Number_divide (Finite 2) (timeDiff 120000 0)
      /\ rate (length inherited) (timeDiff 120000 0) = Finite 1).
Proof.
  cbv zeta. split; [|split; [|split]].
  - destruct (attacksPerMinute_guarded Number_toString_unused 120000 0
                [attack_of_type "ddos"; bare_attack]) as (Hs & _ & Hafter & _).
    destruct Hafter as [Hgt Hrate]; [lia|].
    eexists. split; [vm_compute; reflexivity|]. split; [exact Hgt|].
    split; [|vm_compute; reflexivity].
    etransitivity; [apply Hs; vm_compute; reflexivity | exact Hrate].
  - destruct (attacksPerMinute_guarded Number_toString_unused 120000 120000
                [attack_of_type "ddos"; bare_attack]) as (Hs & Hbefore & _).
    destruct Hbefore as [Hgt Hrate]; [lia|].
    eexists. split; [vm_compute; reflexivity|]. split; [exact Hgt|].
    etransitivity; [apply Hs; vm_compute; reflexivity | exact Hrate].
  - destruct (attacksPerMinute_guarded Number_toString_unused 0 120000
                [attack_of_type "ddos"; bare_attack]) as (Hs & Hbefore & _).
    destruct Hbefore as [Hgt Hrate]; [lia|].
    eexists. split; [vm_compute; reflexivity|]. split; [exact Hgt|].
    etransitivity; [apply Hs; vm_compute; reflexivity | exact Hrate].
  - destruct (attacksPerMinute_guarded Number_toString_unused 120000 0
                [attack_of_type "ddos"; attack_of_type "constructor"])
      as (_ & _ & Hafter & _).
    destruct Hafter as [_ Hrate]; [lia|].
    split; [vm_compute; reflexivity|]. split; [exact Hrate|vm_compute; reflexivity].
Defined.

(** ** Order of lists *)

Section Before.
Context {A : Type}.
Implicit Types (l : list A) (a b x : A).

Lemma before_nil a b : ~ before [] a b.
Proof. by intros (i & j & _ & Hi & _). Qed.

Lemma before_cons x l a b :
  before (x :: l) a b <-> (a = x /\ b ∈ l) \/ before l a b.
Proof.
  split.
  - intros (i & j & Hij & Hi & Hj).
    destruct j as [|j]; [lia|]. simpl in Hj.
    destruct i as [|i]; simpl in Hi.
    + injection Hi as <-. left. split; [done|]. by eapply list_elem_of_lookup_2.
    + right. exists i, j. split; [lia|done].
  - intros [[-> Hb]|(i & j & Hij & Hi & Hj)].
    + apply list_elem_of_lookup_1 in Hb as [j Hj]. exists 0, (S j).
      split; [lia|done].
    + exists (S i), (S j). split; [lia|done].
Qed.

Lemma before_app l1 l2 a b :
  before (l1 ++ l2) a b <->
  before l1 a b \/ (a ∈ l1 /\ b ∈ l2) \/ before l2 a b.
Proof.
  induction l1 as [|x l1 IH]; simpl.
  - split; [tauto|]. intros [H|[[H _]|H]]; [by apply before_nil in H| |done].
    by apply elem_of_nil in H.
  - rewrite !before_cons, IH, elem_of_app, elem_of_cons. tauto.
Qed.

Lemma before_elem_of l a b : before l a b -> a ∈ l /\ b ∈ l.
Proof.
  intros (i & j & _ & Hi & Hj). split; by eapply list_elem_of_lookup_2.
Qed.

Lemma before_filter (P : A -> Prop) `{!forall x, Decision (P x)} l a b :
  before (filter P l) a b <-> P a /\ P b /\ before l a b.
Proof.
  induction l as [|x l IH].
  - split; [intros Hb; by apply before_nil in Hb|].
    intros (_ & _ & Hb). by apply before_nil in Hb.
  - rewrite filter_cons. destruct (decide (P x)) as [Hx|Hx].
    + rewrite !before_cons, IH, list_elem_of_filter. intuition (subst; eauto).
    + rewrite before_cons, IH. intuition (subst; eauto). congruence.
Qed.

Lemma before_StronglySorted (R : A -> A -> Prop) l a b :
  StronglySorted R l -> before l a b -> R a b.
Proof.
  induction 1 as [|x l Hl IH Hx]; [intros H; by apply before_nil in H|].
  rewrite before_cons. intros [[-> Hb]|H]; [|by apply IH].
  rewrite Forall_forall in Hx. by apply Hx.
Qed.

Lemma before_NoDup_ne l a b : NoDup l -> before l a b -> a <> b.
Proof.
  intros Hnd (i & j & Hij & Hi & Hj) ->.
  pose proof (NoDup_lookup _ _ _ _ Hnd Hi Hj). lia.
Qed.
End Before.

Lemma before_fmap {A B : Type} (f : A -> B) (l : list A) (x y : B) :
  before (f <$> l) x y <-> exists a b, x = f a /\ y = f b /\ before l a b.
Proof.
  split.
  - intros (i & j & Hij & Hi & Hj).
    apply list_lookup_fmap_Some in Hi as (a & -> & Ha).
    apply list_lookup_fmap_Some in Hj as (b & -> & Hb).
    exists a, b. split; [done|]. split; [done|]. by exists i, j.
  - intros (a & b & -> & -> & i & j & Hij & Hi & Hj).
    exists i, j. split; [done|]. rewrite !list_lookup_fmap, Hi, Hj. done.
Qed.

(** ** The stable sort, for a comparator that compares keys *)

Section SortByKey.
Context {A : Type} (comparefn : A -> A -> Z) (key : A -> Z).
Hypothesis comparefn_key : forall a b, comparefn a b = (key a - key b)%Z.

Lemma sort_insert_elem_of (x a : A) (l : list A) :
  a ∈ sort_insert comparefn x l <-> a = x \/ a ∈ l.
Proof.
  induction l as [|y l IH]; simpl.
  - rewrite list_elem_of_singleton, elem_of_nil. tauto.
  - destruct (_ <? _)%Z; rewrite !elem_of_cons, ?IH; tauto.
Qed.

Lemma sort_elem_of (a : A) (l : list A) : a ∈ sort comparefn l <-> a ∈ l.
Proof.
  induction l as [|x l IH]; simpl; [done|].
  by rewrite sort_insert_elem_of, elem_of_cons, IH.
Qed.

Lemma sort_insert_sorted (x : A) (l : list A) :
  StronglySorted (fun a b => (key a <= key b)%Z) l ->
  StronglySorted (fun a b => (key a <= key b)%Z) (sort_insert comparefn x l).
Proof.
  induction 1 as [|y l Hl IH Hy]; simpl.
  - repeat constructor.
  - rewrite comparefn_key. destruct (Z.ltb_spec 0 (key x - key y)) as [Hlt|Hge].
    + constructor; [done|]. rewrite Forall_forall in *.
      intros a Ha. apply sort_insert_elem_of in Ha as [->|Ha]; [lia|by apply Hy].
    + constructor; [by constructor|].
      constructor; [lia|]. rewrite Forall_forall in *.
      intros a Ha. specialize (Hy a Ha). lia.
Qed.

Lemma sort_sorted (l : list A) :
  StronglySorted (fun a b => (key a <= key b)%Z) (sort comparefn l).
Proof.
  induction l as [|x l IH]; simpl; [constructor|by apply sort_insert_sorted].
Qed.

(** Stability: the elements of one key keep their order. *)
Lemma sort_insert_same_key (c : Z) (x : A) (l : list A) :
  filter (fun a => key a = c) (sort_insert comparefn x l) =
  filter (fun a => key a = c) (x :: l).
Proof.
  induction l as [|y l IH]; simpl; [done|].
  rewrite comparefn_key. destruct (Z.ltb_spec 0 (key x - key y)) as [Hlt|Hge]; [|done].
  rewrite (filter_cons _ y), IH, !(filter_cons _ x), !(filter_cons _ y).
  repeat case_decide; try done; lia.
Qed.

Lemma sort_same_key (c : Z) (l : list A) :
  filter (fun a => key a = c) (sort comparefn l) = filter (fun a => key a = c) l.
Proof.
  induction l as [|x l IH]; simpl; [done|].
  by rewrite sort_insert_same_key, !filter_cons, IH.
Qed.

Lemma sort_before (l : list A) (a b : A) :
  before (sort comparefn l) a b ->
  (key a <= key b)%Z /\ (key a = key b -> before l a b).
Proof.
  intros Hab. split.
  - by apply (before_StronglySorted _ _ _ _ (sort_sorted l)).
  - intros Hkey.
    assert (before (filter (fun x => key x = key a) (sort comparefn l)) a b) as H.
    { apply before_filter. by rewrite Hkey. }
    rewrite sort_same_key in H. by apply before_filter in H as (_ & _ & H).
Qed.

(** Only one list is ordered by key and keeps the elements of each key
    in their order in [l]: every stable sort returns the list [sort]
    returns. *)
Lemma stable_sorted_unique (l1 l2 : list A) :
  StronglySorted (fun a b => (key a <= key b)%Z) l1 ->
  StronglySorted (fun a b => (key a <= key b)%Z) l2 ->
  (forall c, filter (fun a => key a = c) l1 = filter (fun a => key a = c) l2) ->
  l1 = l2.
Proof.
  intros Hs1. revert l2.
  induction Hs1 as [|x l1 Hs1 IH Hx]; intros l2 Hs2 Hsame.
  - destruct l2 as [|y l2]; [done|]. specialize (Hsame (key y)).
    rewrite filter_nil, filter_cons, decide_True in Hsame by done. done.
  - destruct Hs2 as [|y l2 Hs2 Hy].
    { specialize (Hsame (key x)).
      rewrite filter_nil, filter_cons, decide_True in Hsame by done. done. }
    rewrite Forall_forall in Hx, Hy.
    assert (key x = key y) as Hkey.
    { assert (x ∈ y :: l2) as Hin.
      { eapply (list_elem_of_filter (fun a => key a = key x)). rewrite <- Hsame.
        rewrite filter_cons, decide_True by done. left. }
      assert (y ∈ x :: l1) as Hin'.
      { eapply (list_elem_of_filter (fun a => key a = key y)). rewrite Hsame.
        rewrite filter_cons, decide_True by done. left. }
      apply elem_of_cons in Hin as [->|Hin]; [done|].
      apply elem_of_cons in Hin' as [->|Hin']; [done|].
      specialize (Hx _ Hin'). specialize (Hy _ Hin). lia. }
    pose proof (Hsame (key x)) as Hhead.
    rewrite !filter_cons, decide_True, (decide_True (P := key y = key x)) in Hhead
      by done.
    injection Hhead as -> Htail. f_equal. apply IH; [done|].
    intros c. destruct (decide (c = key y)) as [->|Hne]; [done|].
    specialize (Hsame c). by rewrite !filter_cons, !decide_False in Hsame by done.
Qed.

Lemma sort_is_the_stable_sort (l out : list A) :
  StronglySorted (fun a b => (key a <= key b)%Z) out ->
  (forall c, filter (fun a => key a = c) out = filter (fun a => key a = c) l) ->
  out = sort comparefn l.
Proof.
  intros Hsorted Hstable. apply stable_sorted_unique; [done|apply sort_sorted|].
  intros c. by rewrite sort_same_key.
Qed.

Lemma sort_insert_Permutation (x : A) (l : list A) : sort_insert comparefn x l ≡ₚ x :: l.
Proof.
  induction l as [|y l IH]; simpl; [done|].
  destruct (_ <? _)%Z; [|done]. rewrite IH. apply Permutation_swap.
Qed.

Lemma sort_Permutation (l : list A) : sort comparefn l ≡ₚ l.
Proof.
  induction l as [|x l IH]; simpl; [done|].
  by rewrite sort_insert_Permutation, IH.
Qed.
End SortByKey.

(** ** Array-index names *)

Lemma digit_Some (c : Ascii.ascii) (d : N) :
  digit c = Some d -> (d < 10 /\ Ascii.N_of_ascii c = d + 48)%N.
Proof.
  unfold digit. cbv zeta.
  destruct (N.leb_spec 48 (Ascii.N_of_ascii c)); simpl; [|discriminate].
  destruct (N.leb_spec (Ascii.N_of_ascii c) 57); [|discriminate].
  intros [= <-]. lia.
Qed.

Lemma digit_inj (c1 c2 : Ascii.ascii) (d : N) :
  digit c1 = Some d -> digit c2 = Some d -> c1 = c2.
Proof.
  intros [_ H1]%digit_Some [_ H2]%digit_Some.
  rewrite <- (Ascii.ascii_N_embedding c1), <- (Ascii.ascii_N_embedding c2).
  congruence.
Qed.

Lemma digits_value (s : string) (acc v : N) :
  digits s acc = Some v ->
  exists w, (v = acc * 10 ^ N.of_nat (String.length s) + w
             /\ w < 10 ^ N.of_nat (String.length s))%N.
Proof.
  revert acc. induction s as [|c s IH]; intros acc; simpl digits.
  - intros [= <-]. exists 0%N. simpl. lia.
  - destruct (digit c) as [d|] eqn:Hd; [|discriminate].
    intros (w & -> & Hw)%IH. apply digit_Some in Hd as [Hd _].
    exists (d * 10 ^ N.of_nat (String.length s) + w)%N.
    cbn [String.length]. rewrite Nat2N.inj_succ, N.pow_succ_r'. nia.
Qed.

Lemma digits_inj (a b : string) (acc v : N) :
  String.length a = String.length b ->
  digits a acc = Some v -> digits b acc = Some v -> a = b.
Proof.
  revert b acc. induction a as [|c a IH]; intros [|c' b] acc; try discriminate.
  - done.
  - cbn [String.length]. intros [= Hlen]. simpl digits.
    destruct (digit c) as [d|] eqn:Hd; [|discriminate].
    destruct (digit c') as [d'|] eqn:Hd'; [|discriminate].
    intros Ha Hb.
    destruct (digits_value _ _ _ Ha) as (w & Hv & Hw).
    destruct (digits_value _ _ _ Hb) as (w' & Hv' & Hw').
    rewrite <- Hlen in Hv', Hw'.
    assert (d = d') as <- by nia.
    f_equal; [by eapply digit_inj|by eapply IH].
Qed.

(** What an array-index name looks like: a single zero, or digits that
    start with a digit from 1 to 9. *)
Lemma array_index_Some (key : string) (n : N) :
  array_index key = Some n ->
  exists c rest d,
    key = String c rest /\ digit c = Some d /\ digits key 0 = Some n
    /\ ((d = 0 /\ rest = "" /\ n = 0) \/ (1 <= d))%N.
Proof.
  destruct key as [|c rest]; [discriminate|]. unfold array_index.
  destruct (N.eqb_spec (Ascii.N_of_ascii c) 48) as [Hzero|Hnz];
    destruct (String.eqb_spec rest "") as [->|Hrest]; cbn [andb negb];
    try discriminate.
  all: destruct (digits (String c _) 0) as [v|] eqn:Hv; [|discriminate].
  all: destruct (_ <? _)%N; [|discriminate]; intros [= <-].
  all: pose proof Hv as Hv'; simpl digits in Hv'.
  all: destruct (digit c) as [d|] eqn:Hd; [|discriminate].
  all: eexists _, _, _; split; [reflexivity|]; split; [exact Hd|]; split; [reflexivity|].
  all: apply digit_Some in Hd as [Hd Hc].
  - left. injection Hv' as <-. split; [lia|]. split; [done|lia].
  - right. lia.
  - right. lia.
Qed.

Lemma array_index_inj (a b : string) (n : N) :
  array_index a = Some n -> array_index b = Some n -> a = b.
Proof.
  intros (c & ra & d & -> & Hd & Ha & Hcase)%array_index_Some
         (c' & rb & d' & -> & Hd' & Hb & Hcase')%array_index_Some.
  assert (forall c r d v, digit c = Some d -> digits (String c r) 0 = Some v ->
            (d * 10 ^ N.of_nat (String.length r) <= v
             < (d + 1) * 10 ^ N.of_nat (String.length r))%N) as Hbounds.
  { intros c0 r d0 v H0 Hv. simpl digits in Hv. rewrite H0 in Hv.
    apply digits_value in Hv as (w & -> & Hw). lia. }
  pose proof (Hbounds _ _ _ _ Hd Ha) as Hn.
  pose proof (Hbounds _ _ _ _ Hd' Hb) as Hn'.
  pose proof (digit_Some _ _ Hd) as [Hlt _].
  pose proof (digit_Some _ _ Hd') as [Hlt' _].
  assert (String.length ra = String.length rb) as Hlen.
  { destruct Hcase as [(-> & -> & ->)|Hd1], Hcase' as [(-> & -> & Hn0)|Hd1'].
    - done.
    - simpl in Hn'. nia.
    - simpl in Hn. nia.
    - destruct (Nat.lt_trichotomy (String.length ra) (String.length rb))
        as [Hl|[Hl|Hl]]; [exfalso|done|exfalso].
      + assert (10 * 10 ^ N.of_nat (String.length ra)
                <= 10 ^ N.of_nat (String.length rb))%N.
        { rewrite <- N.pow_succ_r', <- Nat2N.inj_succ.
          apply N.pow_le_mono_r; lia. }
        nia.
      + assert (10 * 10 ^ N.of_nat (String.length rb)
                <= 10 ^ N.of_nat (String.length ra))%N.
        { rewrite <- N.pow_succ_r', <- Nat2N.inj_succ.
          apply N.pow_le_mono_r; lia. }
        nia. }
  eapply digits_inj; [|exact Ha|exact Hb]. simpl. by rewrite Hlen.
Qed.

(** ** Counters *)

Lemma position_cons (x : string) (keys : list string) (key : string) :
  position (x :: keys) key =
  if decide (key = x) then Some 0 else S <$> position keys key.
Proof.
  unfold position. simpl. case_decide; [done|].
  destruct (list_find (eq key) keys) as [[]|]; done.
Qed.

Lemma position_snoc (keys : list string) (x key : string) :
  position (keys ++ [x]) key =
  match position keys key with
  | Some p => Some p
  | None => if decide (key = x) then Some (length keys) else None
  end.
Proof.
  induction keys as [|y keys IH]; simpl.
  - rewrite position_cons. unfold position. reflexivity.
  - rewrite !position_cons, IH. destruct (decide (key = y)); [done|].
    destruct (position keys key); simpl; [done|]. by case_decide.
Qed.

Lemma position_Some (keys : list string) (key : string) (p : nat) :
  position keys key = Some p -> p < length keys /\ key ∈ keys.
Proof.
  unfold position. destruct (list_find _ keys) as [[i x]|] eqn:Hfind; [|done].
  simpl. intros [= <-]. apply list_find_Some in Hfind as (Hi & -> & _).
  split; [by eapply lookup_lt_Some|by eapply list_elem_of_lookup_2].
Qed.

Lemma position_elem_of (keys : list string) (key : string) :
  key ∈ keys -> is_Some (position keys key).
Proof.
  intros H. unfold position.
  destruct (list_find_elem_of (eq key) keys key H eq_refl) as [? ->]. by eexists.
Qed.

Lemma keys_assign_plus_one (key : string) (obj : counter) :
  (assign_plus_one key obj).*1 =
  if decide (key ∈ obj.*1) then obj.*1 else obj.*1 ++ [key].
Proof.
  induction obj as [|[k c] obj IH]; [done|].
  cbn [assign_plus_one fmap list_fmap fst].
  destruct (String.eqb_spec k key) as [->|Hne]; cbn [fmap list_fmap fst].
  - destruct (decide (key ∈ key :: obj.*1)) as [|Hout]; [done|].
    exfalso. apply Hout. left.
  - rewrite IH.
    destruct (decide (key ∈ obj.*1)) as [Hin|Hout],
             (decide (key ∈ k :: obj.*1)) as [Hin'|Hout']; try done.
    + exfalso. apply Hout'. by right.
    + exfalso. apply elem_of_cons in Hin' as [->|]; done.
Qed.

Lemma cell_at_assign_plus_one (key : string) (obj : counter) (k : string) :
  cell_at (assign_plus_one key obj) k =
  if decide (k = key)
  then Some (match cell_at obj key with
             | Some c => plus_one c
             | None => first_cell key
             end)
  else cell_at obj k.
Proof.
  induction obj as [|[k' c] obj IH]; simpl.
  - destruct (String.eqb_spec key k); case_decide; congruence.
  - destruct (String.eqb_spec k' key) as [->|Hne]; simpl.
    + destruct (String.eqb_spec key k); case_decide; congruence.
    + rewrite IH. destruct (String.eqb_spec k' k); case_decide; congruence.
Qed.

Lemma cell_at_elem_of (obj : counter) (k : string) (c : cell) :
  NoDup obj.*1 -> (k, c) ∈ obj <-> cell_at obj k = Some c.
Proof.
  induction obj as [|[k' c'] obj IH]; simpl.
  - intros _. split; [intros H; by apply elem_of_nil in H|done].
  - intros [Hk' Hnd]%NoDup_cons. rewrite elem_of_cons, IH by done.
    destruct (String.eqb_spec k' k) as [->|Hne].
    + split; [intros [[= ->]|H]; [done|]|intros [= ->]; by left].
      exfalso. apply Hk'. apply list_elem_of_fmap. exists (k, c).
      split; [done|]. by apply IH.
    + split; [intros [[= ]|H]; [congruence|done]|by right].
Qed.

Lemma filter_eq_snoc (keys : list string) (x key : string) :
  length (filter (eq key) (keys ++ [x])) =
  length (filter (eq key) keys) + (if decide (key = x) then 1 else 0).
Proof.
  rewrite filter_app, length_app. f_equal.
  rewrite filter_cons, filter_nil. by case_decide.
Qed.

Lemma filter_eq_absent (keys : list string) (key : string) :
  key ∉ keys -> filter (eq key) keys = [].
Proof.
  induction keys as [|x keys IH]; [done|].
  intros [Hx Hkeys]%not_elem_of_cons. rewrite filter_cons, IH by done.
  by rewrite decide_False.
Qed.

Lemma counted_snoc (keys : list string) (x k : string) :
  counted (keys ++ [x]) k =
  if decide (k = x)
  then if decide (x = "__proto__") then None
       else Some (match counted keys x with
                  | Some c => plus_one c
                  | None => first_cell x
                  end)
  else counted keys k.
Proof.
  unfold counted, first_cell, plus_one.
  destruct (decide (k = x)) as [->|Hne].
  - destruct (decide (x = "__proto__")) as [->|Hproto].
    + destruct (decide _) as [[_ H]|_]; done.
    + destruct (decide (x ∈ keys ++ [x] /\ _)) as [_|Hout].
      2:{ exfalso. apply Hout. split; [|done]. apply elem_of_app. right. left. }
      rewrite filter_eq_snoc. rewrite decide_True by done.
      destruct (decide (x ∈ keys /\ _)) as [_|Hout].
      * by case_bool_decide.
      * case_bool_decide; [done|]. do 2 f_equal.
        rewrite filter_eq_absent; [done|]. tauto.
  - rewrite filter_eq_snoc, (decide_False (P := k = x)) by done.
    rewrite Nat.add_0_r.
    destruct (decide (k ∈ keys ++ [x] /\ _)) as [[Hin Hp]|Hout],
             (decide (k ∈ keys /\ _)) as [[Hin' Hp']|Hout']; try done.
    + exfalso. apply Hout'. split; [|done].
      apply elem_of_app in Hin as [|Hx%list_elem_of_singleton]; done.
    + exfalso. apply Hout. split; [|done]. apply elem_of_app. by left.
Qed.

(** What counting the keys [keys] from the empty object builds. *)
Lemma counting_builds (keys : list string) :
  let obj := foldl increment [] keys in
  NoDup obj.*1
  /\ (forall k, cell_at obj k = counted keys k)
  /\ (forall k, k ∈ obj.*1 <-> k ∈ keys /\ k <> "__proto__")
  /\ (forall a b, before obj.*1 a b -> seen_before (position keys) a b).
Proof.
  induction keys as [|key keys IH] using rev_ind; cbv zeta.
  - simpl. split; [constructor|]. split; [|split].
    + intros k. unfold counted. destruct (decide _) as [[H _]|_]; [|done].
      by apply elem_of_nil in H.
    + intros k. rewrite !elem_of_nil. tauto.
    + intros a b H. by apply before_nil in H.
  - rewrite foldl_snoc. cbv zeta in IH.
    set (obj := foldl increment [] keys) in *.
    destruct IH as (Hnd & Hcell & Hkeys & Horder).
    assert (Hpos : forall a b, seen_before (position keys) a b ->
                          seen_before (position (keys ++ [key])) a b).
    { intros a b (p & q & Hp & Hq & Hpq). exists p, q.
      by rewrite !position_snoc, Hp, Hq. }
    unfold increment. destruct (String.eqb_spec key "__proto__") as [->|Hproto].
    + split; [done|]. split; [|split].
      * intros k. rewrite counted_snoc, Hcell.
        destruct (decide (k = "__proto__")) as [->|]; [|done].
        rewrite decide_True by done. unfold counted.
        destruct (decide _) as [[_ H]|_]; done.
      * intros k. rewrite Hkeys, elem_of_app, list_elem_of_singleton.
        intuition congruence.
      * auto.
    + rewrite keys_assign_plus_one. split; [|split; [|split]].
      * destruct (decide _) as [Hin|Hout]; [done|].
        apply NoDup_app. split; [done|]. split; [|apply NoDup_singleton].
        intros k Hk ->%list_elem_of_singleton. done.
      * intros k. rewrite cell_at_assign_plus_one, counted_snoc, !Hcell.
        destruct (decide (k = key)); [|done]. by rewrite decide_False.
      * intros k. destruct (decide (key ∈ obj.*1)) as [Hin|Hout].
        -- rewrite Hkeys, elem_of_app, list_elem_of_singleton.
           apply Hkeys in Hin. intuition congruence.
        -- rewrite !elem_of_app, Hkeys, list_elem_of_singleton.
           intuition congruence.
      * destruct (decide (key ∈ obj.*1)) as [Hin|Hout]; [auto|].
        intros a b Hab. apply before_app in Hab as [Hab|[[Ha Hb]|Hab]].
        -- auto.
        -- apply list_elem_of_singleton in Hb as ->.
           apply Hkeys in Ha as [Ha _].
           apply position_elem_of in Ha as [p Hp].
           exists p, (length keys). rewrite !position_snoc, Hp.
           split; [done|]. split; [|by apply position_Some in Hp as [? _]].
           destruct (position keys key) as [q|] eqn:Hq.
           ++ exfalso. apply Hout, Hkeys. by apply position_Some in Hq as [_ ?].
           ++ by rewrite decide_True.
        -- exfalso. destruct Hab as (i & j & Hij & Hi & Hj).
           destruct i, j; simpl in *; try lia; done.
Qed.

(** ** Rankings *)

Lemma entries_before {V : Type} (obj : list (string * V)) (a b : string * V) :
  NoDup obj.*1 ->
  before (entries obj) a b ->
  match array_index a.1, array_index b.1 with
  | Some m, Some n => (m < n)%N
  | Some _, None => True
  | None, Some _ => False
  | None, None => before obj.*1 a.1 b.1
  end.
Proof.
  intros Hnd. unfold entries.
  set (by_index := fun x y : string * V => (index_of x.1 - index_of y.1)%Z).
  set (indexed := filter (fun p : string * V => is_array_index p.1 = true) obj).
  assert (Hindexed : forall x, x ∈ sort by_index indexed ->
                          exists n, array_index x.1 = Some n).
  { intros x Hx. rewrite sort_elem_of in Hx.
    apply list_elem_of_filter in Hx as [Hx _]. unfold is_array_index in Hx.
    destruct (array_index x.1); [by eexists|done]. }
  assert (Hnamed : forall x, x ∈ filter (fun p : string * V => is_array_index p.1 = false) obj ->
                        array_index x.1 = None).
  { intros x [Hx _]%list_elem_of_filter. unfold is_array_index in Hx.
    by destruct (array_index x.1). }
  intros [Hab|[[Ha Hb]|Hab]]%before_app.
  - pose proof (before_elem_of _ _ _ Hab) as [Ha Hb].
    destruct (Hindexed _ Ha) as [m Hm], (Hindexed _ Hb) as [n Hn].
    rewrite Hm, Hn.
    assert (a.1 <> b.1) as Hne.
    { apply (before_NoDup_ne (sort by_index indexed).*1).
      - rewrite (sort_Permutation by_index indexed).
        eapply sublist_NoDup; [exact Hnd|]. apply fmap_sublist, sublist_filter.
      - apply before_fmap. by exists a, b. }
    apply (sort_before by_index (fun x => index_of x.1)) in Hab as [Hle _]; [|done].
    unfold index_of in Hle. rewrite Hm, Hn in Hle.
    assert (m <> n) by (intros ->; by eapply Hne, array_index_inj). lia.
  - destruct (Hindexed _ Ha) as [m ->]. by rewrite (Hnamed _ Hb).
  - pose proof (before_elem_of _ _ _ Hab) as [Ha Hb].
    rewrite (Hnamed _ Ha), (Hnamed _ Hb).
    apply before_filter in Hab as (_ & _ & Hab).
    apply before_fmap. by exists a, b.
Qed.

Lemma entries_elem_of {V : Type} (obj : list (string * V)) (x : string * V) :
  x ∈ entries obj <-> x ∈ obj.
Proof.
  unfold entries. rewrite elem_of_app, sort_elem_of, !list_elem_of_filter.
  destruct (is_array_index x.1); intuition congruence.
Qed.

Lemma group_of_Some (entry : string * cell) (g : string * nat) :
  group_of entry = Some g <-> entry = (g.1, Count g.2).
Proof.
  destruct entry as [k [n|]], g as [k' n']; unfold group_of; simpl;
    split; intros [= ]; by subst.
Qed.

Lemma ranking_Returns (obj : counter) (out : list (string * nat)) :
  ranking obj = Returns out ->
  exists groups,
    entries obj = (fun g => (g.1, Count g.2)) <$> groups
    /\ out = sort by_count_descending groups.
Proof.
  unfold ranking. destruct (mapM group_of (entries obj)) as [groups|] eqn:Hm; [|done].
  intros [= <-]. exists groups. split; [|done].
  apply mapM_Some in Hm. induction Hm as [|e g es gs He _ IH]; [done|].
  apply group_of_Some in He as ->. simpl. by rewrite IH.
Qed.

(** The groups of a ranking are the cells of the counter. *)
Lemma ranking_elem_of (obj : counter) (out : list (string * nat)) (g : string * nat) :
  ranking obj = Returns out -> g ∈ out <-> (g.1, Count g.2) ∈ obj.
Proof.
  intros (groups & Hentries & ->)%ranking_Returns.
  rewrite sort_elem_of, <- (entries_elem_of obj), Hentries, list_elem_of_fmap.
  split; [by exists g|]. intros ([k n] & [= ] & Hin). destruct g; by simplify_eq/=.
Qed.

(** The ranking of a counter that counted [keys]. *)
Lemma ranking_ranked (keys : list string) (out : list (string * nat)) :
  ranking (foldl increment [] keys) = Returns out ->
  ranked (enumerated_before (position keys)) out.
Proof.
  intros (groups & Hentries & ->)%ranking_Returns i j a b Hij Hi Hj.
  destruct (counting_builds keys) as (Hnd & _ & _ & Horder).
  assert (before (sort by_count_descending groups) a b) as Hab by by exists i, j.
  apply (sort_before by_count_descending (fun g => (- Z.of_nat g.2)%Z)) in Hab
    as [Hle Hsame]; [|unfold by_count_descending; intros; lia].
  split; [lia|]. intros Htie.
  assert (before (entries (foldl increment [] keys))
            (a.1, Count a.2) (b.1, Count b.2)) as Hentry.
  { rewrite Hentries. apply before_fmap. exists a, b. split; [done|]. split; [done|].
    apply Hsame. lia. }
  apply entries_before in Hentry; [|done]. simpl in Hentry.
  unfold enumerated_before.
  destruct (array_index a.1), (array_index b.1); auto.
Qed.

Section Tally.
Variable Number_toString : number -> string.

Lemma first_seen_position (key_of : json -> outcome string)
    (buffer : list json) (keys : list string) (label : string) :
  Forall2 (fun attack key => key_of attack = Returns key) buffer keys ->
  first_seen key_of buffer label = position keys label.
Proof.
  unfold first_seen, position.
  induction 1 as [|attack key buffer keys Hkey _ IH]; [done|].
  simpl. rewrite Hkey.
  destruct (decide (Returns key = Returns label)) as [[= ->]|Hne].
  - by rewrite decide_True.
  - rewrite decide_False by congruence.
    destruct (list_find _ buffer) as [[]|], (list_find _ keys) as [[]|];
      simpl in *; congruence.
Qed.

(** The [forEach] counts each of the three keys of each event, in buffer
    order. *)
Lemma forEach_tally (buffer : list json) (counts result : counter * counter * counter) :
  forEach (tally Number_toString) buffer counts = Returns result ->
  exists sources targets types,
    Forall2 (fun attack key => source_key Number_toString attack = Returns key) buffer sources
    /\ Forall2 (fun attack key => target_key Number_toString attack = Returns key) buffer targets
    /\ Forall2 (fun attack key => type_key Number_toString attack = Returns key) buffer types
    /\ result = (foldl increment counts.1.1 sources,
                 foldl increment counts.1.2 targets,
                 foldl increment counts.2 types).
Proof.
  revert counts. induction buffer as [|attack buffer IH]; intros [[c1 c2] c3]; simpl.
  - intros [= <-]. exists [], [], []. by repeat split.
  - unfold tally at 1. fold (source_key Number_toString attack).
    fold (target_key Number_toString attack).
    destruct (source_key Number_toString attack) as [src| |] eqn:Hsrc; try done.
    destruct (target_key Number_toString attack) as [dst| |] eqn:Hdst; try done.
    destruct (type_key Number_toString attack) as [type| |] eqn:Htype; try done.
    cbn [mbind outcome_bind]. intros (ss & ts & ys & Hs & Ht & Hy & ->)%IH.
    exists (src :: ss), (dst :: ts), (type :: ys). by repeat split; try constructor.
Qed.
End Tally.

(** C4, as stated, fails: of two events, the first of type [b] and the
    second of type [7], each type has one event, and the list of types
    starts with [7], the type seen last. *)
Lemma digit_type_ranks_before_earlier_type :
  exists s,
    calculateStats Number_toString_unused 60000 0 letter_then_digit = Returns s
    /\ attackTypes s = [("7", 1); ("b", 1)]
    /\ ~ ranked (seen_before (first_seen (type_key Number_toString_unused)
                                letter_then_digit))
                (attackTypes s).
Proof.
  eexists. split; [reflexivity|]. split; [reflexivity|].
  intros Hranked.
  destruct (Hranked 0 1 ("7", 1) ("b", 1)) as [_ Htie]; [lia|done|done|].
  destruct (Htie eq_refl) as (p & q & Hp & Hq & Hpq).
  vm_compute in Hp, Hq. simplify_eq. lia.
Qed.

(** C4, amended: whenever the statistics are computed, each of the three
    lists is ordered descending by count, and groups of equal count stand
    in the enumeration order of the counting object: the labels that are
    array indices first, in ascending numeric order, then the other
    labels, the one seen first in the buffer first. *)
Theorem rankings_descending_ties_enumerated
    (Number_toString : number -> string) (now start : Z)
    (allAttacks : list json) (s : Stats) :
  calculateStats Number_toString now start allAttacks = Returns s ->
  ranked (enumerated_before (first_seen (source_key Number_toString) allAttacks))
         (topSourceCountries s)
  /\ ranked (enumerated_before (first_seen (target_key Number_toString) allAttacks))
            (topTargetCountries s)
  /\ ranked (enumerated_before (first_seen (type_key Number_toString) allAttacks))
            (attackTypes s).
Proof.
  intros (sources & targets & types & Hcount & Hs & Ht & Hy & _)%calculateStats_returns_inv.
  apply forEach_tally in Hcount as (ss & ts & ys & Hss & Hts & Hys & [= -> -> ->]).
  simpl in Hs, Ht, Hy.
  assert (Hrewrite : forall key_of keys out,
             Forall2 (fun attack key => key_of attack = Returns key) allAttacks keys ->
             ranked (enumerated_before (position keys)) out ->
             ranked (enumerated_before (first_seen key_of allAttacks)) out).
  { intros key_of keys out Hkeys Hranked i j a b Hij Hi Hj.
    destruct (Hranked i j a b Hij Hi Hj) as [Hle Htie]. split; [done|].
    intros Heq. specialize (Htie Heq). unfold enumerated_before, seen_before in *.
    by rewrite !(first_seen_position _ _ _ _ Hkeys). }
  split; [|split]; eapply Hrewrite; eauto using ranking_ranked.
Qed.

(** Six events of five types: the type counted twice first, then the
    array-index types in numeric order, then [x]. *)
Lemma rankings_witness :
  exists s,
    calculateStats Number_toString_unused 60000 0 six_attacks = Returns s
    /\ attackTypes s = [("b", 2); ("7", 1); ("9", 1); ("10", 1); ("x", 1)]
    /\ ranked (enumerated_before (first_seen (type_key Number_toString_unused)
                                    six_attacks))
              (attackTypes s).
Proof.
  eexists. split; [reflexivity|]. split; [reflexivity|].
  exact (proj2 (proj2 (rankings_descending_ties_enumerated Number_toString_unused
                         60000 0 six_attacks _ eq_refl))).
Defined.

(** Where no label is an array index, ties stand in first-seen order, as
    specified. *)
Lemma ranked_first_seen_without_array_index
    (first : string -> option nat) (groups : list (string * nat)) :
  Forall (fun g => array_index g.1 = None) groups ->
  ranked (enumerated_before first) groups ->
  ranked (seen_before first) groups.
Proof.
  intros Hnone Hranked i j a b Hij Hi Hj.
  destruct (Hranked i j a b Hij Hi Hj) as [Hle Htie]. split; [done|].
  intros Heq. specialize (Htie Heq). unfold enumerated_before in Htie.
  rewrite Forall_forall in Hnone.
  rewrite (Hnone a), (Hnone b) in Htie; [done|by eapply list_elem_of_lookup_2..].
Qed.

(** ** When the statistics are computed *)

Lemma ranking_Returns_iff (keys : list string) :
  (exists out, ranking (foldl increment [] keys) = Returns out) <->
  Forall (fun k => k ∈ Object_prototype_names -> k = "__proto__") keys.
Proof.
  destruct (counting_builds keys) as (Hnd & Hcell & Hkeys & _).
  set (obj := foldl increment [] keys) in *.
  rewrite Forall_forall. split.
  - intros [out (groups & Hentries & _)%ranking_Returns] k Hk Hname.
    destruct (decide (k = "__proto__")) as [|Hne]; [done|]. exfalso.
    assert ((k, Text) ∈ obj) as Hin.
    { apply cell_at_elem_of; [done|]. rewrite Hcell. unfold counted.
      rewrite decide_True by done. by rewrite bool_decide_eq_true_2. }
    apply entries_elem_of in Hin. rewrite Hentries in Hin.
    by apply list_elem_of_fmap in Hin as (g & [= ] & _).
  - intros Hall. unfold ranking.
    destruct (mapM group_of (entries obj)) as [groups|] eqn:Hm; [by eexists|].
    exfalso. assert (is_Some (mapM group_of (entries obj))) as [? ?]; [|congruence].
    apply mapM_is_Some, Forall_forall. intros [k c] Hin.
    rewrite entries_elem_of in Hin.
    apply (cell_at_elem_of obj k c Hnd) in Hin. rewrite Hcell in Hin.
    unfold counted in Hin.
    destruct (decide (k ∈ keys /\ k <> "__proto__")) as [[Hk Hne]|]; [|done].
    case_bool_decide as Hname; [by apply Hall in Hname|].
    injection Hin as <-. by eexists.
Qed.

Section Computed.
Variable Number_toString : number -> string.

Lemma forEach_tally_Returns (buffer : list json) (sources targets types : list string)
    (counts : counter * counter * counter) :
  Forall2 (fun attack key => source_key Number_toString attack = Returns key) buffer sources ->
  Forall2 (fun attack key => target_key Number_toString attack = Returns key) buffer targets ->
  Forall2 (fun attack key => type_key Number_toString attack = Returns key) buffer types ->
  forEach (tally Number_toString) buffer counts
  = Returns (foldl increment counts.1.1 sources,
             foldl increment counts.1.2 targets,
             foldl increment counts.2 types).
Proof.
  intros Hs. revert targets types counts.
  induction Hs as [|attack src buffer sources Hsrc _ IH];
    intros targets types [[c1 c2] c3] Ht Hy.
  - by inversion Ht; inversion Hy.
  - inversion Ht as [|? dst ? targets' Hdst Ht']; subst.
    inversion Hy as [|? type ? types' Htype Hy']; subst.
    simpl. unfold tally at 1. unfold source_key, target_key in Hsrc, Hdst.
    rewrite Hsrc, Hdst, Htype.
    cbn [mbind outcome_bind]. by rewrite (IH _ _ _ Ht' Hy').
Qed.

(** The statistics are computed exactly when every grouping key of every
    event converts and can be counted. *)
Lemma calculateStats_Returns_iff (now start : Z) (allAttacks : list json) :
  (exists s, calculateStats Number_toString now start allAttacks = Returns s) <->
  Forall (fun attack => countable_key (source_key Number_toString attack)
                        /\ countable_key (target_key Number_toString attack)
                        /\ countable_key (type_key Number_toString attack))
         allAttacks.
Proof.
  assert (Hkeys : forall (key_of : json -> outcome string) buffer keys,
             Forall2 (fun attack key => key_of attack = Returns key) buffer keys ->
             Forall (fun k => k ∈ Object_prototype_names -> k = "__proto__") keys ->
             Forall (fun attack => countable_key (key_of attack)) buffer).
  { intros key_of buffer keys H2 Hall. induction H2 as [|a k l ks Hk _ IH]; [done|].
    apply Forall_cons in Hall as [Hk' Hall].
    constructor; [by exists k|by apply IH]. }
  assert (Hback : forall (key_of : json -> outcome string) buffer,
             Forall (fun attack => countable_key (key_of attack)) buffer ->
             exists keys,
               Forall2 (fun attack key => key_of attack = Returns key) buffer keys
               /\ Forall (fun k => k ∈ Object_prototype_names -> k = "__proto__") keys).
  { intros key_of buffer Hall. induction Hall as [|a l Ha _ IH]; [by exists []|].
    destruct Ha as (k & Hk & Hname), IH as (ks & H2 & Hks).
    exists (k :: ks). split; by constructor. }
  split.
  - intros [s (sources & targets & types & Hcount & Hs & Ht & Hy & _)%calculateStats_returns_inv].
    apply forEach_tally in Hcount as (ss & ts & ys & Hss & Hts & Hys & [= -> -> ->]).
    simpl in Hs, Ht, Hy.
    pose proof (Hkeys _ _ _ Hss (proj1 (ranking_Returns_iff ss) (ex_intro _ _ Hs))) as H1.
    pose proof (Hkeys _ _ _ Hts (proj1 (ranking_Returns_iff ts) (ex_intro _ _ Ht))) as H2.
    pose proof (Hkeys _ _ _ Hys (proj1 (ranking_Returns_iff ys) (ex_intro _ _ Hy))) as H3.
    clear Hkeys Hback. rewrite Forall_forall in *. intros a Ha. repeat split; eauto.
  - intros Hall.
    destruct (Hback (source_key Number_toString) allAttacks) as (ss & Hss & Hs);
      [by eapply Forall_impl; [exact Hall|intros ? (? & ? & ?)]|].
    destruct (Hback (target_key Number_toString) allAttacks) as (ts & Hts & Ht);
      [by eapply Forall_impl; [exact Hall|intros ? (? & ? & ?)]|].
    destruct (Hback (type_key Number_toString) allAttacks) as (ys & Hys & Hy);
      [by eapply Forall_impl; [exact Hall|intros ? (? & ? & ?)]|].
    apply ranking_Returns_iff in Hs as [r1 Hr1].
    apply ranking_Returns_iff in Ht as [r2 Hr2].
    apply ranking_Returns_iff in Hy as [r3 Hr3].
    unfold calculateStats. cbv zeta.
    rewrite (forEach_tally_Returns _ _ _ _ _ Hss Hts Hys). cbn [mbind outcome_bind fst snd].
    rewrite Hr1, Hr2, Hr3. cbn [mbind outcome_bind]. by eexists.
Qed.
End Computed.

(** Two buffers on which no statistics are computed: a type named like
    a member every object inherits leaves text in its counter cell, and
    a type that is an object with a member [toString] of its own does
    not convert to a property key. *)
Example inherited_name_is_engine_defined :
  calculateStats Number_toString_unused 60000 0
    [attack_of_type "ddos"; attack_of_type "constructor"] = EngineDefined.
Proof. reflexivity. Qed.

Example opaque_type_throws :
  calculateStats Number_toString_unused 60000 0
    [attack_of_type "ddos"; attack_of_opaque_type] = ThrowsTypeError.
Proof. reflexivity. Qed.

(** An event of type [__proto__] is counted in no group of types. *)
Example proto_type_is_not_counted :
  exists s,
    calculateStats Number_toString_unused 60000 0
      [attack_of_type "ddos"; attack_of_type "__proto__"] = Returns s
    /\ totalAttacks s = 2
    /\ attackTypes s = [("ddos", 1)].
Proof. eexists. split; [reflexivity|]. by split. Qed.

(** ** The reconnection machine *)

Lemma pending_from_elem_of (i : nat) (ts : list timer) (t : nat) :
  t ∈ pending_from i ts <-> i <= t /\ ts !! (t - i) = Some Pending.
Proof.
  revert i. induction ts as [|x ts IH]; intros i; simpl.
  - rewrite elem_of_nil. intuition discriminate.
  - assert (t ∈ pending_from (S i) ts <-> S i <= t /\ (x :: ts) !! (t - i) = Some Pending)
      as Hrest.
    { rewrite IH. split; intros [Hle Hl]; (split; [lia|]).
      - replace (t - i) with (S (t - S i)) by lia. done.
      - replace (t - i) with (S (t - S i)) in Hl by lia. done. }
    destruct x; rewrite ?elem_of_cons, Hrest.
    + split; [intros [->|[Hle Hl]]|intros [Hle Hl]].
      * split; [lia|]. by rewrite Nat.sub_diag.
      * split; [lia|done].
      * destruct (decide (t = i)) as [|Hne]; [by left|right]. split; [lia|done].
    + split; [intros [Hle Hl]; split; [lia|done]|intros [Hle Hl]].
      destruct (decide (t = i)) as [->|Hne]; [|split; [lia|done]].
      by rewrite Nat.sub_diag in Hl.
    + split; [intros [Hle Hl]; split; [lia|done]|intros [Hle Hl]].
      destruct (decide (t = i)) as [->|Hne]; [|split; [lia|done]].
      by rewrite Nat.sub_diag in Hl.
Qed.

Lemma pending_elem_of (h : hook) (t : nat) :
  t ∈ pending h <-> timers h !! t = Some Pending.
Proof.
  unfold pending. rewrite pending_from_elem_of, Nat.sub_0_r.
  split; [tauto|]. intros H. split; [lia|done].
Qed.

Lemma pending_nil (h : hook) :
  pending h = [] <-> forall t, timers h !! t <> Some Pending.
Proof.
  split.
  - intros Hnil t Ht. apply pending_elem_of in Ht. rewrite Hnil in Ht.
    by apply elem_of_nil in Ht.
  - intros Hnone. destruct (pending h) as [|t rest] eqn:Hp; [done|].
    exfalso. apply (Hnone t), pending_elem_of. rewrite Hp. left.
Qed.

Lemma pending_from_app (i : nat) (ts us : list timer) :
  pending_from i (ts ++ us) = pending_from i ts ++ pending_from (i + length ts) us.
Proof.
  revert i. induction ts as [|x ts IH]; intros i; simpl.
  - by rewrite Nat.add_0_r.
  - rewrite IH. replace (S i + length ts) with (i + S (length ts)) by lia.
    by destruct x.
Qed.

Lemma pending_from_Fired (i n : nat) : pending_from i (replicate n Fired) = [].
Proof. revert i. induction n as [|n IH]; intros i; simpl; [done|apply IH]. Qed.

Section Reconnection.
Variable JSON_parse : string -> option json.
Variable options : UseWebSocketOptions.

(** A closure below the maximum sets one timer and counts one attempt. *)
Lemma closure_below_maximum (ws : nat) (failed : bool) (h : hook) :
  (Z.of_nat (reconnectAttemptsRef h) < maxReconnectAttempts options)%Z ->
  let h' := step JSON_parse options (Closed ws failed) h in
  reconnectAttemptsRef h' = reconnectAttemptsRef h + 1
  /\ timers h' = timers h ++ [Pending]
  /\ pending h' = pending h ++ [length (timers h)]
  /\ reconnectTimeoutRef h' = Some (length (timers h))
  /\ isConnected h' = false.
Proof.
  intros Hlt. cbv zeta. unfold step, onclose, onerror.
  destruct failed; cbn -[Z.ltb Z.of_nat].
  all: destruct (Z.ltb_spec (Z.of_nat (reconnectAttemptsRef h))
                   (maxReconnectAttempts options)); [|lia].
  all: cbn; unfold pending; cbn; rewrite pending_from_app; by repeat split.
Qed.

(** A closure at the maximum sets no timer and shows the error. *)
Lemma closure_at_maximum (ws : nat) (failed : bool) (h : hook) :
  (maxReconnectAttempts options <= Z.of_nat (reconnectAttemptsRef h))%Z ->
  let h' := step JSON_parse options (Closed ws failed) h in
  exhausted h'
  /\ reconnectAttemptsRef h' = reconnectAttemptsRef h
  /\ timers h' = timers h
  /\ isConnected h' = false.
Proof.
  intros Hge. cbv zeta. unfold step, onclose, onerror, exhausted.
  destruct failed; cbn -[Z.ltb Z.of_nat].
  all: destruct (Z.ltb_spec (Z.of_nat (reconnectAttemptsRef h))
                   (maxReconnectAttempts options)); [lia|].
  all: by cbn.
Qed.

(** With every socket closed and no timer pending, only the effect or
    its cleanup can run, and the cleanup changes nothing. *)
Lemma quiescent_is_terminal (trace : list event) (h h' : hook) :
  quiescent h -> Effect ∉ trace ->
  run JSON_parse options trace h = Some h' -> h' = h.
Proof.
  intros [Hpending Hclosed]. rewrite pending_nil in Hpending.
  rewrite Forall_lookup in Hclosed.
  induction trace as [|e trace IH]; simpl; [by intros _ [= ]|].
  intros [Hne Hnotin]%not_elem_of_cons.
  destruct (enabled e h) eqn:Henabled; [|done].
  assert (step JSON_parse options e h = h) as ->; [|by apply IH].
  destruct e; simpl in Henabled; try done.
  - simpl. unfold cleanup, clearTimeout, close.
    destruct (reconnectTimeoutRef h) as [t|].
    + destruct (timers h !! t) as [[]|] eqn:Ht; [by apply Hpending in Ht|..].
      all: destruct (wsRef h) as [ws|]; [|done].
      all: destruct (sockets h !! ws) as [s|] eqn:Hs; [|done].
      all: by rewrite (Hclosed _ _ Hs).
    + destruct (wsRef h) as [ws|]; [|done].
      destruct (sockets h !! ws) as [s|] eqn:Hs; [|done].
      by rewrite (Hclosed _ _ Hs).
  - apply bool_decide_eq_true in Henabled. by apply Hclosed in Henabled.
  - apply bool_decide_eq_true in Henabled. by apply Hclosed in Henabled.
  - apply bool_decide_eq_true in Henabled as [[s Hs] Hn].
    rewrite Hs in Hn. apply Hclosed in Hs. congruence.
  - apply bool_decide_eq_true in Henabled. by apply Hpending in Henabled.
Qed.
End Reconnection.

(** *** Closures in a row *)

Lemma lookup_replicate_snoc {A : Type} (n : nat) (x y : A) :
  (replicate n x ++ [y]) !! n = Some y.
Proof. by rewrite lookup_app_r, length_replicate, Nat.sub_diag by (by rewrite length_replicate). Qed.

Lemma insert_replicate_snoc {A : Type} (n : nat) (x y : A) :
  <[n := x]> (replicate n x ++ [y]) = replicate (S n) x.
Proof.
  rewrite replicate_S_end.
  rewrite <- (length_replicate n x) at 1. rewrite <- (Nat.add_0_r (length _)).
  by rewrite insert_app_r.
Qed.

Section Closures.
Variable JSON_parse : string -> option json.
Variable options : UseWebSocketOptions.
Variable m : nat.
Hypothesis address_accepted : url_constructs options = true.
Hypothesis maximum : maxReconnectAttempts options = Z.of_nat m.

Lemma first_render_connects (start : Z) :
  step JSON_parse options Effect (initial start) = retrying start 0.
Proof. unfold step, connect. by rewrite address_accepted. Qed.

Lemma retrying_closes (start : Z) (j : nat) (failed : bool) :
  j < m ->
  enabled (Closed j failed) (retrying start j) = true
  /\ step JSON_parse options (Closed j failed) (retrying start j)
     = waiting start (S j) failed.
Proof.
  intros Hlt. split.
  - apply bool_decide_eq_true. simpl. rewrite lookup_replicate_snoc. by split.
  - unfold step, onclose, onerror, retrying, waiting. rewrite maximum.
    destruct failed; cbn -[Z.ltb Z.of_nat replicate].
    all: destruct (Z.ltb_spec (Z.of_nat j) (Z.of_nat m)); [|lia].
    all: cbn -[replicate].
    all: rewrite insert_replicate_snoc, length_replicate, Nat.sub_0_r, Nat.add_1_r.
    all: reflexivity.
Qed.

Lemma waiting_reconnects (start : Z) (k : nat) (failed : bool) :
  enabled (Timeout k) (waiting start (S k) failed) = true
  /\ step JSON_parse options (Timeout k) (waiting start (S k) failed)
     = retrying start (S k).
Proof.
  split.
  - apply bool_decide_eq_true. simpl. rewrite Nat.sub_0_r.
    apply lookup_replicate_snoc.
  - unfold step, connect, retrying, waiting. rewrite address_accepted.
    cbn -[replicate].
    rewrite Nat.sub_0_r, insert_replicate_snoc, length_replicate. reflexivity.
Qed.

Lemma retrying_gives_up (start : Z) (failed : bool) :
  enabled (Closed m failed) (retrying start m) = true
  /\ step JSON_parse options (Closed m failed) (retrying start m)
     = given_up start m.
Proof.
  split.
  - apply bool_decide_eq_true. simpl. rewrite lookup_replicate_snoc. by split.
  - unfold step, onclose, onerror, retrying, given_up. rewrite maximum.
    destruct failed; cbn -[Z.ltb Z.of_nat replicate].
    all: destruct (Z.ltb_spec (Z.of_nat m) (Z.of_nat m)); [lia|].
    all: cbn -[replicate]; rewrite insert_replicate_snoc; reflexivity.
Qed.

Lemma closures_below_maximum (start : Z) (failed : bool) (k j : nat) :
  j + S k <= m ->
  run JSON_parse options (consecutive_closures failed j (S k)) (retrying start j)
  = Some (waiting start (j + S k) failed).
Proof.
  revert j. induction k as [|k IH]; intros j Hle.
  - destruct (retrying_closes start j failed) as [Hen Hstep]; [lia|].
    cbn [consecutive_closures run]. rewrite Hen, Hstep. by rewrite Nat.add_1_r.
  - destruct (retrying_closes start j failed) as [Hen Hstep]; [lia|].
    destruct (waiting_reconnects start j failed) as [Hen' Hstep'].
    change (consecutive_closures failed j (S (S k)))
      with (Closed j failed :: Timeout j :: consecutive_closures failed (S j) (S k)).
    cbn [run]. rewrite Hen, Hstep, Hen', Hstep', IH by lia.
    do 2 f_equal. lia.
Qed.

Lemma closures_past_maximum (start : Z) (failed : bool) (k j : nat) :
  j + k = m ->
  run JSON_parse options (consecutive_closures failed j (S k)) (retrying start j)
  = Some (given_up start m).
Proof.
  revert j. induction k as [|k IH]; intros j Hle.
  - assert (j = m) as -> by lia.
    destruct (retrying_gives_up start failed) as [Hen Hstep].
    cbn [consecutive_closures run]. by rewrite Hen, Hstep.
  - destruct (retrying_closes start j failed) as [Hen Hstep]; [lia|].
    destruct (waiting_reconnects start j failed) as [Hen' Hstep'].
    change (consecutive_closures failed j (S (S k)))
      with (Closed j failed :: Timeout j :: consecutive_closures failed (S j) (S k)).
    cbn [run]. rewrite Hen, Hstep, Hen', Hstep'. apply IH. lia.
Qed.
End Closures.

(** C5, as stated, fails: with the default maximum of ten attempts, after
    ten closures in a row the counter is 10, the tenth retry is pending
    and the hook does not show the exhaustion error. *)
Lemma tenth_closure_still_retries :
  exists h,
    run JSON_parse_examples default_options
        (Effect :: consecutive_closures false 0 10) (initial 0) = Some h
    /\ reconnectAttemptsRef h = 10
    /\ pending h = [9]
    /\ ~ exhausted h.
Proof.
  eexists. split; [vm_compute; reflexivity|].
  split; [reflexivity|]. split; [reflexivity|]. discriminate.
Qed.

(** C5, amended: a closure that finds the counter below the maximum sets
    exactly one timer and adds one to the counter; a closure that finds
    the counter at the maximum sets no timer and sets the exhaustion
    error.  So from the first render, with maximum [m], each of the first
    [m] closures in a row leaves a retry pending, and closure [m + 1]
    exhausts the hook: the page shows the error, every socket is closed,
    no timer is pending, and until the effect runs again nothing changes
    the state. *)
Theorem reconnection_gives_up_past_maximum
    (JSON_parse : string -> option json) (options : UseWebSocketOptions) :
  (forall ws failed h,
      (Z.of_nat (reconnectAttemptsRef h) < maxReconnectAttempts options)%Z ->
      let h' := step JSON_parse options (Closed ws failed) h in
      reconnectAttemptsRef h' = reconnectAttemptsRef h + 1
      /\ pending h' = pending h ++ [length (timers h)]
      /\ reconnectTimeoutRef h' = Some (length (timers h)))
  /\ (forall ws failed h,
      (maxReconnectAttempts options <= Z.of_nat (reconnectAttemptsRef h))%Z ->
      let h' := step JSON_parse options (Closed ws failed) h in
      exhausted h'
      /\ pending h' = pending h
      /\ reconnectAttemptsRef h' = reconnectAttemptsRef h)
  /\ (forall m failed start k,
      url_constructs options = true ->
      maxReconnectAttempts options = Z.of_nat m ->
      1 <= k <= m ->
      exists h,
        run JSON_parse options (Effect :: consecutive_closures failed 0 k)
            (initial start) = Some h
        /\ reconnectAttemptsRef h = k
        /\ pending h = [k - 1]
        /\ ~ exhausted h)
  /\ (forall m failed start,
      url_constructs options = true ->
      maxReconnectAttempts options = Z.of_nat m ->
      exists h,
        run JSON_parse options (Effect :: consecutive_closures failed 0 (S m))
            (initial start) = Some h
        /\ reconnectAttemptsRef h = m
        /\ exhausted h
        /\ App h = ErrorMessage "Max reconnection attempts reached"
        /\ quiescent h)
  /\ (forall trace h h',
      quiescent h -> Effect ∉ trace ->
      run JSON_parse options trace h = Some h' -> h' = h).
Proof.
  split; [|split; [|split; [|split]]].
  - intros ws failed h Hlt.
    destruct (closure_below_maximum JSON_parse options ws failed h Hlt)
      as (? & ? & ? & ? & ?). done.
  - intros ws failed h Hge.
    destruct (closure_at_maximum JSON_parse options ws failed h Hge)
      as (? & ? & Ht & ?). split; [done|]. split; [|done].
    unfold pending. by rewrite Ht.
  - intros m failed start k Hurl Hmax [Hk Hkm].
    destruct k as [|k]; [lia|].
    exists (waiting start (S k) failed). split.
    + cbn [run enabled]. rewrite (first_render_connects _ _ Hurl).
      by rewrite (closures_below_maximum _ _ m Hurl Hmax) by lia.
    + split; [done|]. split.
      * unfold pending. cbn [timers waiting].
        rewrite pending_from_app, pending_from_Fired, length_replicate. done.
      * unfold exhausted. by destruct failed.
  - intros m failed start Hurl Hmax.
    exists (given_up start m). split.
    + cbn [run enabled]. rewrite (first_render_connects _ _ Hurl).
      by rewrite (closures_past_maximum _ _ m Hurl Hmax).
    + split; [done|]. split; [done|]. split; [done|]. split.
      * unfold pending. cbn [timers given_up]. apply pending_from_Fired.
      * cbn [sockets given_up]. apply Forall_replicate. done.
  - apply quiescent_is_terminal.
Qed.

(** With the default maximum, the eleventh closure in a row exhausts the
    hook. *)
Lemma eleventh_closure_exhausts :
  exists h,
    run JSON_parse_examples default_options
        (Effect :: consecutive_closures false 0 11) (initial 0) = Some h
    /\ reconnectAttemptsRef h = 10
    /\ exhausted h
    /\ App h = ErrorMessage "Max reconnection attempts reached"
    /\ quiescent h.
Proof.
  exact (proj1 (proj2 (proj2 (proj2
           (reconnection_gives_up_past_maximum JSON_parse_examples default_options))))
           10 false 0%Z eq_refl eq_refl).
Defined.

(** ** Messages *)

Section Messages.
Variable JSON_parse : string -> option json.
Variable options : UseWebSocketOptions.

(** C8: a message that decodes to an array with no valid candidate leaves
    the whole state of the hook as it was: the buffer, the exposed
    attacks, the last-update time and everything the statistics are
    computed from. *)
Theorem batch_without_valid_event_changes_nothing
    (ws : nat) (data : string) (now : Z) (candidates : list json) (h : hook) :
  JSON_parse data = Some (JArr candidates) ->
  Forall (fun candidate => isValidAttack candidate = false) candidates ->
  step JSON_parse options (Message ws data now) h = h.
Proof.
  intros Hparse Hnone. cbn [step]. unfold onmessage.
  destruct (String.eqb data ""); [done|]. rewrite Hparse. unfold on_batch.
  assert (filter (fun attack => isValidAttack attack = true) candidates = []) as ->.
  { clear Hparse. induction Hnone as [|c cs Hc _ IH]; [done|].
    rewrite filter_cons, IH. by rewrite decide_False by congruence. }
  reflexivity.
Qed.

(** C9: an aggregate message with a number [t] as total and an array [cs]
    as countries sets the two overlay cells to [t] and [cs], whatever
    they held, and changes nothing else. *)
Theorem statsToday_replaces_overlay
    (ws : nat) (data : string) (now : Z) (h : hook)
    (members payload : list (string * json)) (t : number) (cs : list json) :
  data <> "" ->
  JSON_parse data = Some (JObj members) ->
  own_property "type" members = Some (JStr "statsToday") ->
  own_property "payload" members = Some (JObj payload) ->
  own_property "total" payload = Some (JNum t) ->
  own_property "countries" payload = Some (JArr cs) ->
  let h' := step JSON_parse options (Message ws data now) h in
  h' = setTodayByCountry (Some cs) (setTodayTotal (Some t) h)
  /\ todayTotal h' = Some t
  /\ todayByCountry h' = Some cs
  /\ allAttacksRef h' = allAttacksRef h
  /\ (forall Number_toString clock,
        calculateStats Number_toString clock (startTimeRef h') (allAttacksRef h')
        = calculateStats Number_toString clock (startTimeRef h) (allAttacksRef h)).
Proof.
  intros Hdata Hparse Htype Hpayload Htotal Hcountries. cbv zeta.
  cbn [step]. unfold onmessage.
  destruct (String.eqb_spec data "") as [|_]; [done|]. rewrite Hparse.
  cbn [ToBoolean typeof get andb]. rewrite Htype.
  cbn [strict_equals]. rewrite String.eqb_refl. cbn [String.eqb andb].
  unfold on_statsToday. cbn [get]. rewrite Hpayload.
  unfold or_else. cbn [ToBoolean get]. rewrite Htotal, Hcountries.
  by repeat split.
Qed.

(** C7, amended: a message whose payload does not decode is dropped; the
    sockets, the buffer, the exposed attacks, the last-update time and the
    overlay stay as they were.  An empty payload is dropped before any
    decoding and leaves the state alone; any other sets the error cell to
    ['Error parsing attack data']. *)
Theorem malformed_message_sets_error
    (ws : nat) (data : string) (now : Z) (h : hook) :
  JSON_parse data = None ->
  let h' := step JSON_parse options (Message ws data now) h in
  h' = (if String.eqb data "" then h
        else setError (Some "Error parsing attack data") h)
  /\ (data <> "" -> error h' = Some "Error parsing attack data")
  /\ sockets h' = sockets h /\ isConnected h' = isConnected h
  /\ allAttacksRef h' = allAttacksRef h /\ attacks h' = attacks h
  /\ lastUpdate h' = lastUpdate h
  /\ (forall Number_toString clock,
        hook_stats Number_toString clock h' = hook_stats Number_toString clock h).
Proof.
  intros Hparse. cbv zeta. cbn [step]. unfold onmessage. rewrite Hparse.
  destruct (String.eqb_spec data "") as [->|Hne]; by repeat split.
Qed.
End Messages.

(** C7, as stated, fails: on an open connection a payload that does not
    decode sets the error cell, which was empty; when the connection then
    closes without a connection error, [App] returns the error screen
    with that text where it would have returned the loading screen. *)
Lemma malformed_message_is_not_silent :
  exists h h' shown quiet,
    run JSON_parse_examples default_options [Effect; Opened 0] (initial 0) = Some h
    /\ JSON_parse_examples "{" = None
    /\ run JSON_parse_examples default_options [Message 0 "{" 5] h = Some h'
    /\ error h = None
    /\ error h' = Some "Error parsing attack data"
    /\ run JSON_parse_examples default_options [Closed 0 false] h' = Some shown
    /\ App shown = ErrorMessage "Error parsing attack data"
    /\ run JSON_parse_examples default_options [Closed 0 false] h = Some quiet
    /\ App quiet = LoadingMessage.
Proof.
  eexists _, _, _, _. split; [vm_compute; reflexivity|]. split; [reflexivity|].
  split; [vm_compute; reflexivity|]. split; [reflexivity|]. split; [reflexivity|].
  split; [vm_compute; reflexivity|]. split; [reflexivity|].
  split; [vm_compute; reflexivity|]. reflexivity.
Qed.

(** The payload [{] does not decode. *)
Lemma malformed_message_witness :
  error (step JSON_parse_examples default_options (Message 0 "{" 5) (initial 0))
  = Some "Error parsing attack data".
Proof.
  apply (malformed_message_sets_error JSON_parse_examples default_options
           0 "{" 5 (initial 0) eq_refl).
  discriminate.
Defined.

(** Neither [null] nor [7] is a valid event. *)
Lemma batch_without_valid_event_witness :
  step JSON_parse_examples default_options (Message 0 "[null, 7]" 5) (initial 0)
  = initial 0.
Proof.
  apply (batch_without_valid_event_changes_nothing JSON_parse_examples
           default_options 0 "[null, 7]" 5 [JNull; JNum (Finite 7)] (initial 0) eq_refl).
  repeat constructor.
Defined.

(** The aggregate message of the specification. *)
Lemma statsToday_witness :
  let h' := step JSON_parse_examples default_options
              (Message 0 (wire "{'type':'statsToday','payload':{'total':42,'countries':[{'country':'A','count':42}]}}") 5)
              (initial 0) in
  todayTotal h' = Some (Finite 42)
  /\ todayByCountry h' = Some [JObj [("country", JStr "A"); ("count", JNum (Finite 42))]]
  /\ allAttacksRef h' = [].
Proof.
  cbv zeta.
  destruct (statsToday_replaces_overlay JSON_parse_examples default_options 0
              (wire "{'type':'statsToday','payload':{'total':42,'countries':[{'country':'A','count':42}]}}")
              5 (initial 0) _ _ (Finite 42)
              [JObj [("country", JStr "A"); ("count", JNum (Finite 42))]]
              ltac:(discriminate) eq_refl eq_refl eq_refl eq_refl eq_refl)
    as (_ & Ht & Hc & Hb & _).
  split; [exact Ht|]. split; [exact Hc|exact Hb].
Defined.

(** ** Disposal *)

Section Disposal.
Variable JSON_parse : string -> option json.
Variable options : UseWebSocketOptions.

(** The cleanup closes the socket the hook remembers; the close event
    that follows runs [onclose] like any other and, below the maximum,
    sets a timer whose expiry opens a new socket. *)
Lemma closure_after_cleanup_reconnects (ws : nat) (h : hook) :
  wsRef h = Some ws ->
  sockets h !! ws = Some OPEN ->
  (Z.of_nat (reconnectAttemptsRef h) < maxReconnectAttempts options)%Z ->
  let h1 := cleanup h in
  let h2 := step JSON_parse options (Closed ws false) h1 in
  sockets h1 !! ws = Some CLOSING
  /\ enabled (Closed ws false) h1 = true
  /\ pending h2 = pending h1 ++ [length (timers h1)]
  /\ enabled (Timeout (length (timers h1))) h2 = true.
Proof.
  intros Hws Hopen Hlt. cbv zeta.
  assert (Hc : wsRef (cleanup h) = Some ws
               /\ sockets (cleanup h) !! ws = Some CLOSING
               /\ reconnectAttemptsRef (cleanup h) = reconnectAttemptsRef h).
  { unfold cleanup, clearTimeout, close.
    destruct (reconnectTimeoutRef h) as [t|]; [destruct (timers h !! t) as [[]|]|].
    all: cbn [wsRef sockets set_timers]; rewrite Hws, Hopen.
    all: cbn [wsRef sockets set_sockets reconnectAttemptsRef].
    all: rewrite list_lookup_insert_eq by (by eapply lookup_lt_Some); done. }
  destruct Hc as (Hws1 & Hs1 & Hn1).
  split; [done|]. split.
  { apply bool_decide_eq_true. rewrite Hs1. by split. }
  destruct (closure_below_maximum JSON_parse options ws false (cleanup h))
    as (_ & Ht & Hp & _); [by rewrite Hn1|].
  split; [done|].
  apply bool_decide_eq_true. rewrite Ht.
  by rewrite lookup_app_r, Nat.sub_diag.
Qed.
End Disposal.

(** C6 (the code departs from it): the cleanup runs on an open
    connection and leaves the socket closing with no timer pending; the
    close event of that socket then sets timer 0; the timer expires after
    the disposal and [connect()] builds socket 1, which opens and delivers
    a batch into the buffer and the exposed attacks. *)
Theorem reconnection_survives_cleanup :
  exists h1 h2 h3 h4,
    run JSON_parse_examples default_options [Effect; Opened 0; Cleanup] (initial 0)
    = Some h1
    /\ sockets h1 = [CLOSING] /\ pending h1 = []
    /\ run JSON_parse_examples default_options [Closed 0 false] h1 = Some h2
    /\ pending h2 = [0]
    /\ run JSON_parse_examples default_options [Timeout 0] h2 = Some h3
    /\ sockets h3 = [CLOSED; CONNECTING]
    /\ run JSON_parse_examples default_options
         [Opened 1;
          Message 1 (wire "[{'src_geo':{'lat':1,'lon':2},'dst_geo':{'lat':3,'lon':4}}]") 9]
         h3 = Some h4
    /\ isConnected h4 = true
    /\ attacks h4 = [bare_attack]
    /\ allAttacksRef h4 = [bare_attack].
Proof.
  eexists _, _, _, _.
  split; [vm_compute; reflexivity|]. split; [reflexivity|]. split; [reflexivity|].
  split; [vm_compute; reflexivity|]. split; [reflexivity|].
  split; [vm_compute; reflexivity|]. split; [reflexivity|].
  split; [vm_compute; reflexivity|]. by repeat split.
Qed.

(** ** Events without a type *)



Lemma filter_key_length (key_of : json -> outcome string)
    (buffer : list json) (keys : list string) (k : string) :
  Forall2 (fun attack key => key_of attack = Returns key) buffer keys ->
  length (filter (fun attack => key_of attack = Returns k) buffer)
  = length (filter (eq k) keys).
Proof.
  induction 1 as [|attack key buffer keys Hkey _ IH]; [done|].
  rewrite !filter_cons, Hkey.
  destruct (decide (Returns key = Returns k)) as [[= ->]|Hne].
  - rewrite decide_True by done. simpl. by rewrite IH.
  - by rewrite decide_False by congruence.
Qed.

(** The groups of a ranking and their counts. *)
Lemma ranking_counts (keys : list string) (out : list (string * nat))
    (k : string) (n : nat) :
  ranking (foldl increment [] keys) = Returns out ->
  (k, n) ∈ out <->
  k ∈ keys /\ k <> "__proto__" /\ n = length (filter (eq k) keys).
Proof.
  intros Hout. destruct (counting_builds keys) as (Hnd & Hcell & _ & _).
  rewrite (ranking_elem_of _ _ _ Hout). cbn [fst snd].
  rewrite cell_at_elem_of, Hcell by done.
  assert (Hcount : forall c, cell_at (foldl increment [] keys) k = Some c ->
                        exists i, c = Count i).
  { intros c Hc%cell_at_elem_of; [|done].
    apply ranking_Returns in Hout as (groups & Hentries & _).
    apply entries_elem_of in Hc. rewrite Hentries in Hc.
    apply list_elem_of_fmap in Hc as (g & [= _ ->] & _). by eexists. }
  rewrite Hcell in Hcount. unfold counted in *.
  destruct (decide (k ∈ keys /\ k <> "__proto__")) as [[Hin Hne]|Hout'].
  - case_bool_decide.
    + destruct (Hcount _ eq_refl) as [i [= ]].
    + split; [intros [= ->]; done|]. by intros (_ & _ & ->).
  - split; [done|]. intros (? & ? & _). tauto.
Qed.



(** ** One batch, end to end

    A batch of one event from [A] to [B] of type [ddos], received one
    minute after the first render: the buffer holds the event, and the
    statistics count it once under each of its three labels. *)
Example one_batch_end_to_end :
  exists h s,
    run JSON_parse_examples default_options
        [Effect; Opened 0;
         Message 0 (wire "[{'src_geo':{'lat':1,'lon':2,'country':'A'},'dst_geo':{'lat':3,'lon':4,'country':'B'},'type':'ddos'}]") 60000]
        (initial 0) = Some h
    /\ allAttacksRef h = [located_attack]
    /\ lastUpdate h = Some 60000%Z
    /\ hook_stats Number_toString_unused 60000 h = Returns (s, None, None)
    /\ totalAttacks s = 1
    /\ attacksPerMinute s = Finite 1
    /\ topSourceCountries s = [("A", 1)]
    /\ topTargetCountries s = [("B", 1)]
    /\ attackTypes s = [("ddos", 1)].
Proof.
  eexists _, _. split; [vm_compute; reflexivity|]. split; [reflexivity|].
  split; [reflexivity|]. split; [vm_compute; reflexivity|]. by repeat split.
Qed.
(** * Runs of the hook: what every reachable state satisfies *)

Section Frames.
Variable JSON_parse : string -> option json.
Variable options : UseWebSocketOptions.

(** [onmessage] writes the buffer, the exposed attacks, the last-update
    time, the error and the overlay, and nothing else. *)
Lemma onmessage_frame (data : string) (now : Z) (h : hook) :
  let h' := onmessage JSON_parse data now h in
  isConnected h' = isConnected h /\ sockets h' = sockets h /\ timers h' = timers h
  /\ wsRef h' = wsRef h /\ reconnectAttemptsRef h' = reconnectAttemptsRef h
  /\ reconnectTimeoutRef h' = reconnectTimeoutRef h /\ startTimeRef h' = startTimeRef h.
Proof.
  cbv zeta. unfold onmessage, on_batch, on_statsToday.
  destruct (String.eqb data ""); [done|].
  destruct (JSON_parse data) as [parsed|]; [|done].
  destruct parsed; cbn [ToBoolean typeof get andb String.eqb]; try done.
  all: repeat match goal with
              | |- context [if ?c then _ else _] => destruct c
              end; done.
Qed.
End Frames.

Section Runs.
Variable JSON_parse : string -> option json.
Variable options : UseWebSocketOptions.

Lemma connect_frame (h : hook) :
  let h' := connect options h in
  isConnected h' = isConnected h /\ timers h' = timers h
  /\ reconnectAttemptsRef h' = reconnectAttemptsRef h
  /\ attacks h' = attacks h /\ lastUpdate h' = lastUpdate h
  /\ todayTotal h' = todayTotal h /\ todayByCountry h' = todayByCountry h
  /\ (sockets h' = sockets h \/ sockets h' = sockets h ++ [CONNECTING]).
Proof.
  cbv zeta. unfold connect. destruct (url_constructs options); simpl; tauto.
Qed.

Lemma cleanup_frame (h : hook) :
  let h' := cleanup h in
  attacks h' = attacks h /\ isConnected h' = isConnected h
  /\ lastUpdate h' = lastUpdate h /\ error h' = error h
  /\ todayTotal h' = todayTotal h /\ todayByCountry h' = todayByCountry h
  /\ wsRef h' = wsRef h /\ reconnectAttemptsRef h' = reconnectAttemptsRef h
  /\ reconnectTimeoutRef h' = reconnectTimeoutRef h
  /\ allAttacksRef h' = allAttacksRef h /\ startTimeRef h' = startTimeRef h.
Proof.
  cbv zeta. unfold cleanup, clearTimeout, close.
  destruct (reconnectTimeoutRef h) as [t|] eqn:Ht; [destruct (timers h !! t) as [[]|]|];
    cbn [sockets set_timers wsRef];
    (destruct (wsRef h) as [ws|] eqn:Hws; [|by repeat split]);
    destruct (sockets h !! ws) as [[]|]; by repeat split.
Qed.

Lemma onclose_frame (h : hook) :
  let h' := onclose options h in
  attacks h' = attacks h /\ lastUpdate h' = lastUpdate h
  /\ todayTotal h' = todayTotal h /\ todayByCountry h' = todayByCountry h
  /\ sockets h' = sockets h /\ isConnected h' = false.
Proof.
  cbv zeta. unfold onclose. cbn [reconnectAttemptsRef setIsConnected].
  destruct (_ <? _)%Z; done.
Qed.

(** *** The retry counter *)

Lemma step_counter (e : event) (h : hook) (n : nat) :
  reconnectAttemptsRef h = n `min` Z.to_nat (maxReconnectAttempts options) ->
  reconnectAttemptsRef (step JSON_parse options e h)
  = match e with Opened _ => 0 | Closed _ _ => S n | _ => n end
    `min` Z.to_nat (maxReconnectAttempts options).
Proof.
  intros Hn. destruct e as [| |ws|ws data now|ws failed|t]; cbn [step].
  - by destruct (connect_frame h) as (_ & _ & -> & _).
  - by destruct (cleanup_frame h) as (_ & _ & _ & _ & _ & _ & _ & -> & _).
  - done.
  - by destruct (onmessage_frame JSON_parse data now h) as (_ & _ & _ & _ & -> & _).
  - unfold onclose. cbn [reconnectAttemptsRef setIsConnected].
    assert (reconnectAttemptsRef (if failed
                                  then onerror (set_sockets (<[ws:=CLOSED]> (sockets h)) h)
                                  else set_sockets (<[ws:=CLOSED]> (sockets h)) h)
            = reconnectAttemptsRef h) as Hsame by by destruct failed.
    rewrite Hsame, Hn.
    destruct (Z.ltb_spec (Z.of_nat (n `min` Z.to_nat (maxReconnectAttempts options)))
                (maxReconnectAttempts options));
      cbn [reconnectAttemptsRef set_reconnectTimeoutRef set_timers
             set_reconnectAttemptsRef setError setIsConnected];
      rewrite ?Hsame, ?Hn; lia.
  - by destruct (connect_frame (set_timers (<[t:=Fired]> (timers h)) h)) as (_ & _ & -> & _).
Qed.

Lemma run_counter (trace : list event) (h0 h : hook) (n : nat) :
  reconnectAttemptsRef h0 = n `min` Z.to_nat (maxReconnectAttempts options) ->
  run JSON_parse options trace h0 = Some h ->
  reconnectAttemptsRef h
  = foldl (fun n e => match e with Opened _ => 0 | Closed _ _ => S n | _ => n end) n trace
    `min` Z.to_nat (maxReconnectAttempts options).
Proof.
  revert h0 n. induction trace as [|e trace IH]; intros h0 n Hn; simpl.
  - by intros [= <-].
  - destruct (enabled e h0); [|done]. apply IH. by apply step_counter.
Qed.
End Runs.

(** X1: the retry counter is the number of closures since the last open
    event, capped at the maximum: an open event gives the whole budget
    back, and the counter never passes the maximum. *)
Theorem reconnect_counter_counts_closures_since_open
    (JSON_parse : string -> option json) (options : UseWebSocketOptions)
    (trace : list event) (start : Z) (h : hook) :
  run JSON_parse options trace (initial start) = Some h ->
  reconnectAttemptsRef h
  = closures_since_open trace `min` Z.to_nat (maxReconnectAttempts options)
  /\ (Z.of_nat (reconnectAttemptsRef h) <= Z.max 0 (maxReconnectAttempts options))%Z.
Proof.
  intros Hrun. apply (run_counter _ _ _ _ _ 0) in Hrun; [|done].
  fold (closures_since_open trace) in Hrun. split; [done|lia].
Qed.

(** Two closures, an open event, and one closure more. *)
Lemma reconnect_counter_witness :
  exists h,
    run JSON_parse_examples default_options
        [Effect; Closed 0 true; Timeout 0; Closed 1 true; Timeout 1; Opened 2; Closed 2 false]
        (initial 0) = Some h
    /\ reconnectAttemptsRef h = 1.
Proof.
  eexists. split; [vm_compute; reflexivity|].
  apply (reconnect_counter_counts_closures_since_open JSON_parse_examples default_options
           [Effect; Closed 0 true; Timeout 0; Closed 1 true; Timeout 1; Opened 2; Closed 2 false] 0).
  vm_compute. reflexivity.
Defined.
(** *** A constructor that throws *)

(** X2: when [new WebSocket(url)] throws, the first [connect()] leaves
    the error ['Failed to create WebSocket connection'] and nothing
    else: no socket, no timer.  No event can reach the hook, a re-run of
    the effect fails the same way, and the page shows the error for
    good. *)
Theorem failed_construction_never_retries
    (JSON_parse : string -> option json) (options : UseWebSocketOptions)
    (trace : list event) (start : Z) (h : hook) :
  url_constructs options = false ->
  run JSON_parse options (Effect :: trace) (initial start) = Some h ->
  h = setError (Some "Failed to create WebSocket connection") (initial start)
  /\ App h = ErrorMessage "Failed to create WebSocket connection"
  /\ sockets h = [] /\ pending h = []
  /\ Forall (fun e => e = Effect \/ e = Cleanup) trace.
Proof.
  intros Hurl. cbn [run enabled step]. unfold connect at 1. rewrite Hurl.
  set (failed := setError (Some "Failed to create WebSocket connection") (initial start)).
  change (setError _ (setError None (initial start))) with failed.
  assert (Hfix : forall trace h, run JSON_parse options trace failed = Some h ->
                   h = failed /\ Forall (fun e => e = Effect \/ e = Cleanup) trace).
  { clear trace h. induction trace as [|e trace IH]; intros h; simpl.
    - by intros [= <-].
    - destruct e; simpl; try done.
      + unfold connect. rewrite Hurl. intros [-> ?]%IH. split; [done|]. constructor; tauto.
      + intros [-> ?]%IH. split; [done|]. constructor; tauto. }
  intros [-> Hall]%Hfix. by repeat split.
Qed.

Lemma failed_construction_witness :
  exists h,
    run JSON_parse_examples
        {| url_constructs := false; reconnectInterval := 3000; maxReconnectAttempts := 10 |}
        [Effect; Cleanup; Effect] (initial 0) = Some h
    /\ App h = ErrorMessage "Failed to create WebSocket connection".
Proof.
  eexists. split; [vm_compute; reflexivity|].
  apply (failed_construction_never_retries JSON_parse_examples
           {| url_constructs := false; reconnectInterval := 3000; maxReconnectAttempts := 10 |}
           [Cleanup; Effect] 0); [reflexivity|vm_compute; reflexivity].
Defined.
(** *** Connected *)

Section Connected.
Variable JSON_parse : string -> option json.
Variable options : UseWebSocketOptions.

Lemma step_connected (e : event) (h : hook) :
  (isConnected h = true -> live_socket h) ->
  enabled e h = true ->
  isConnected (step JSON_parse options e h) = true ->
  live_socket (step JSON_parse options e h).
Proof.
  intros Hinv Hen. destruct e as [| |ws|ws data now|ws failed|t]; cbn [step].
  - destruct (connect_frame options h) as (-> & _ & _ & _ & _ & _ & _ & Hs).
    intros [ws Hws]%Hinv. exists ws.
    destruct Hs as [-> | ->]; [done|].
    rewrite lookup_app_l; [done|]. apply lookup_lt_is_Some. destruct Hws as [-> | ->]; eauto.
  - destruct (cleanup_frame h) as (_ & -> & _). intros [ws Hws]%Hinv.
    unfold cleanup, clearTimeout, close.
    assert (Hclose : forall h' : hook, sockets h' = sockets h ->
              live_socket (match wsRef h' with
                           | Some ws' =>
                               match sockets h' !! ws' with
                               | Some CONNECTING | Some OPEN =>
                                   set_sockets (<[ws':=CLOSING]> (sockets h')) h'
                               | _ => h'
                               end
                           | None => h'
                           end)).
    { intros h' Hs. destruct (wsRef h') as [ws'|]; [|exists ws; by rewrite Hs].
      destruct (sockets h' !! ws') as [s|] eqn:Hs'; [|exists ws; by rewrite Hs].
      assert (live_socket h') as Hlive by (exists ws; by rewrite Hs).
      destruct s; try done.
      - destruct (decide (ws = ws')) as [->|Hne].
        + rewrite Hs in Hs'. destruct Hws as [Hws|Hws]; rewrite Hws in Hs'; done.
        + exists ws. cbn [sockets set_sockets].
          rewrite list_lookup_insert_ne by done. by rewrite Hs.
      - exists ws'. cbn [sockets set_sockets].
        rewrite list_lookup_insert_eq by by eapply lookup_lt_Some. tauto. }
    destruct (reconnectTimeoutRef h) as [t|]; [|by apply Hclose].
    destruct (timers h !! t) as [[]|]; by apply Hclose.
  - intros _. exists ws. cbn [onopen sockets setError set_reconnectAttemptsRef
                              setIsConnected set_sockets].
    simpl in Hen. apply bool_decide_eq_true in Hen.
    rewrite list_lookup_insert_eq by by eapply lookup_lt_Some. tauto.
  - destruct (onmessage_frame JSON_parse data now h) as (-> & Hs & _).
    intros [ws' Hws]%Hinv. exists ws'. by rewrite Hs.
  - by destruct (onclose_frame options
                   (if failed then onerror (set_sockets (<[ws:=CLOSED]> (sockets h)) h)
                    else set_sockets (<[ws:=CLOSED]> (sockets h)) h))
      as (_ & _ & _ & _ & _ & ->).
  - destruct (connect_frame options (set_timers (<[t:=Fired]> (timers h)) h))
      as (-> & _ & _ & _ & _ & _ & _ & Hs).
    cbn [isConnected set_timers sockets] in *.
    intros [ws Hws]%Hinv. exists ws.
    destruct Hs as [-> | ->]; [done|].
    rewrite lookup_app_l; [done|]. apply lookup_lt_is_Some. destruct Hws as [-> | ->]; eauto.
Qed.

Lemma run_connected (trace : list event) (h0 h : hook) :
  (isConnected h0 = true -> live_socket h0) ->
  run JSON_parse options trace h0 = Some h ->
  isConnected h = true -> live_socket h.
Proof.
  revert h0. induction trace as [|e trace IH]; intros h0 Hinv; simpl.
  - by intros [= <-].
  - destruct (enabled e h0) eqn:Hen; [|done]. apply IH. by apply step_connected.
Qed.
End Connected.
(** *** The error cell and the screen *)


(** The texts the hook writes to its error cell. *)
Section Errors.
Variable JSON_parse : string -> option json.
Variable options : UseWebSocketOptions.


End Errors.

(** Whether the statistics throw is a matter of the buffer, not of the
    clock. *)
Lemma calculateStats_throws (Number_toString : number -> string) (now start : Z)
    (allAttacks : list json) :
  calculateStats Number_toString now start allAttacks = ThrowsTypeError
  <-> forEach (tally Number_toString) allAttacks ([], [], []) = ThrowsTypeError.
Proof.
  unfold calculateStats. cbv zeta.
  destruct (forEach _ allAttacks _) as [[[sources targets] types]| |]; [|by split..].
  cbn [mbind outcome_bind].
  assert (Hranking : forall obj, ranking obj <> ThrowsTypeError).
  { intros obj. unfold ranking. by destruct (mapM _ _). }
  destruct (ranking sources) eqn:Hs; [|by apply Hranking in Hs|by split].
  destruct (ranking targets) eqn:Ht; [|by apply Hranking in Ht|by split].
  by destruct (ranking types) eqn:Hy; [| apply Hranking in Hy|].
Qed.

(** A render in a state with the buffer of [h] returns if one of [h]
    does. *)
Lemma render_App_returns (Number_toString : number -> string) (now clock : Z)
    (h h' : hook) :
  allAttacksRef h' = allAttacksRef h ->
  calculateStats Number_toString now (startTimeRef h) (allAttacksRef h) <> ThrowsTypeError ->
  render_App Number_toString clock h' = Returns (App h').
Proof.
  intros Hbuffer Hstats. unfold render_App, hook_stats.
  destruct (calculateStats _ clock _ _) eqn:Hclock; try done.
  exfalso. apply Hstats. apply calculateStats_throws.
  apply calculateStats_throws in Hclock. by rewrite <- Hbuffer.
Qed.




(** X4: the page shows the dashboard only while some socket of the hook
    is open or closing: never before a connection opened, and never
    after every socket was closed. *)
Theorem dashboard_needs_live_socket
    (JSON_parse : string -> option json) (options : UseWebSocketOptions)
    (trace : list event) (start : Z) (h : hook) :
  run JSON_parse options trace (initial start) = Some h ->
  App h = Dashboard ->
  isConnected h = true /\ live_socket h.
Proof.
  intros Hrun Hscreen.
  assert (isConnected h = true) as Hc.
  { unfold App in Hscreen. destruct (error h) as [text|], (isConnected h); try done.
    by destruct (String.eqb text ""). }
  split; [done|]. by apply (run_connected JSON_parse options trace (initial start) h).
Qed.

Lemma dashboard_witness :
  exists h,
    run JSON_parse_examples default_options [Effect; Opened 0; Cleanup] (initial 0) = Some h
    /\ isConnected h = true
    /\ sockets h = [CLOSING]
    /\ live_socket h.
Proof.
  eexists. split; [vm_compute; reflexivity|]. split; [reflexivity|]. split; [reflexivity|].
  apply (dashboard_needs_live_socket JSON_parse_examples default_options
           [Effect; Opened 0; Cleanup] 0); vm_compute; reflexivity.
Defined.
(** *** The exposed batch *)

Section Exposed.
Variable JSON_parse : string -> option json.
Variable options : UseWebSocketOptions.

Lemma onmessage_exposed (data : string) (now : Z) (h : hook) :
  (attacks (onmessage JSON_parse data now h), lastUpdate (onmessage JSON_parse data now h))
  = let batch := validAttacks JSON_parse data in
    if (0 <? length batch)%nat then (batch, Some now) else (attacks h, lastUpdate h).
Proof.
  cbv zeta. unfold onmessage, validAttacks, on_batch, on_statsToday.
  destruct (String.eqb data ""); [done|].
  destruct (JSON_parse data) as [parsed|]; [|done].
  destruct parsed; cbn [ToBoolean typeof get andb String.eqb length Nat.ltb Nat.leb];
    try done.
  all: repeat match goal with
              | |- context [if ?c then _ else _] => destruct c
              end; done.
Qed.

Lemma step_exposed (e : event) (h : hook) :
  (attacks (step JSON_parse options e h), lastUpdate (step JSON_parse options e h))
  = match e with
    | Message _ data now =>
        let batch := validAttacks JSON_parse data in
        if (0 <? length batch)%nat then (batch, Some now) else (attacks h, lastUpdate h)
    | _ => (attacks h, lastUpdate h)
    end.
Proof.
  destruct e as [| |ws|ws data now|ws failed|t]; cbn [step].
  - by destruct (connect_frame options h) as (_ & _ & _ & -> & -> & _).
  - by destruct (cleanup_frame h) as (-> & _ & -> & _).
  - done.
  - apply onmessage_exposed.
  - destruct (onclose_frame options
                (if failed then onerror (set_sockets (<[ws:=CLOSED]> (sockets h)) h)
                 else set_sockets (<[ws:=CLOSED]> (sockets h)) h)) as (-> & -> & _).
    by destruct failed.
  - by destruct (connect_frame options (set_timers (<[t:=Fired]> (timers h)) h))
      as (_ & _ & _ & -> & -> & _).
Qed.

Lemma run_exposed (trace : list event) (h0 h : hook) :
  run JSON_parse options trace h0 = Some h ->
  (attacks h, lastUpdate h)
  = foldl (fun acc e => match e with
                        | Message _ data now =>
                            let batch := validAttacks JSON_parse data in
                            if (0 <? length batch)%nat then (batch, Some now) else acc
                        | _ => acc
                        end) (attacks h0, lastUpdate h0) trace.
Proof.
  revert h0. induction trace as [|e trace IH]; intros h0; simpl.
  - by intros [= <-].
  - destruct (enabled e h0); [|done]. intros ->%IH. f_equal.
    rewrite step_exposed. by destruct e.
Qed.

Lemma validAttacks_valid (data : string) :
  Forall (fun attack => isValidAttack attack = true) (validAttacks JSON_parse data).
Proof.
  unfold validAttacks. destruct (String.eqb data ""); [done|].
  destruct (JSON_parse data) as [[]|]; try done.
  apply Forall_forall. by intros a [? _]%list_elem_of_filter.
Qed.

Lemma arrivals_valid (trace : list event) :
  Forall (fun attack => isValidAttack attack = true) (arrivals JSON_parse trace).
Proof.
  unfold arrivals. induction trace as [|e trace IH]; simpl; [done|].
  apply Forall_app. split; [|done]. destruct e; try done. apply validAttacks_valid.
Qed.

Lemma last_batch_valid (trace : list event) (acc : list json * option Z) :
  Forall (fun attack => isValidAttack attack = true) acc.1 ->
  Forall (fun attack => isValidAttack attack = true)
    (foldl (fun acc e => match e with
                         | Message _ data now =>
                             let batch := validAttacks JSON_parse data in
                             if (0 <? length batch)%nat then (batch, Some now) else acc
                         | _ => acc
                         end) acc trace).1.
Proof.
  revert acc. induction trace as [|e trace IH]; intros acc Hacc; simpl; [done|].
  apply IH. destruct e; try done. cbv zeta.
  destruct (0 <? _)%nat; [apply validAttacks_valid|done].
Qed.
End Exposed.

(** X5: the attacks the hook exposes are the valid events of the last
    message that carried any, and the last-update time is the clock at
    that message; both are as at the first render until such a message
    arrives, and no other event touches them. *)
Theorem exposed_attacks_are_last_batch
    (JSON_parse : string -> option json) (options : UseWebSocketOptions)
    (trace : list event) (start : Z) (h : hook) :
  run JSON_parse options trace (initial start) = Some h ->
  (attacks h, lastUpdate h) = last_batch JSON_parse trace
  /\ (lastUpdate h = None <-> attacks h = [])
  /\ (arrivals JSON_parse trace = [] -> attacks h = [] /\ lastUpdate h = None).
Proof.
  intros Hrun. apply run_exposed in Hrun.
  change (attacks (initial start), lastUpdate (initial start))
    with (@nil json, @None Z) in Hrun.
  split; [exact Hrun|]. unfold arrivals.
  match type of Hrun with
  | _ = foldl ?f _ _ =>
      assert (Hgen : forall acc : list json * option Z,
                 (acc.2 = None <-> acc.1 = []) ->
                 ((foldl f acc trace).2 = None <-> (foldl f acc trace).1 = [])
                 /\ (flat_map (fun e => match e with
                                        | Message _ data _ => validAttacks JSON_parse data
                                        | _ => []
                                        end) trace = [] -> foldl f acc trace = acc))
  end.
  { clear. induction trace as [|e trace IH]; intros acc Hacc; simpl; [done|].
    destruct e as [| |ws|ws data now|ws failed|t]; try by apply IH.
    destruct (validAttacks JSON_parse data) as [|a batch] eqn:Hb.
    - simpl. by apply IH.
    - simpl. split; [|done]. by apply (IH (a :: batch, Some now)). }
  destruct (Hgen ([], None)) as [Hiff Hnone]; [done|]. rewrite <- Hrun in Hiff, Hnone.
  split; [exact Hiff|]. intros Hempty. specialize (Hnone Hempty). by injection Hnone.
Qed.

Lemma exposed_attacks_witness :
  exists h,
    run JSON_parse_examples default_options
        (mixed_batch_trace ++ [Message 0 "[null, 7]" 12; Closed 0 false]) (initial 0) = Some h
    /\ attacks h = [attack_of_type "ddos"]
    /\ lastUpdate h = Some 9%Z
    /\ (attacks h, lastUpdate h)
       = last_batch JSON_parse_examples
           (mixed_batch_trace ++ [Message 0 "[null, 7]" 12; Closed 0 false]).
Proof.
  eexists. split; [vm_compute; reflexivity|]. split; [reflexivity|]. split; [reflexivity|].
  apply (exposed_attacks_are_last_batch JSON_parse_examples default_options
           (mixed_batch_trace ++ [Message 0 "[null, 7]" 12; Closed 0 false]) 0).
  vm_compute. reflexivity.
Defined.
(** *** The statistics of a run *)

Section RunStatistics.
Variable JSON_parse : string -> option json.
Variable options : UseWebSocketOptions.

Lemma step_startTime (e : event) (h : hook) :
  startTimeRef (step JSON_parse options e h) = startTimeRef h.
Proof.
  destruct e as [| |ws|ws data now|ws failed|t]; cbn [step].
  - unfold connect. by destruct (url_constructs options).
  - by destruct (cleanup_frame h) as (_ & _ & _ & _ & _ & _ & _ & _ & _ & _ & ->).
  - done.
  - by destruct (onmessage_frame JSON_parse data now h) as (_ & _ & _ & _ & _ & _ & ->).
  - unfold onclose. cbn [reconnectAttemptsRef setIsConnected].
    destruct (_ <? _)%Z; by destruct failed.
  - unfold connect. by destruct (url_constructs options).
Qed.

Lemma run_startTime (trace : list event) (h0 h : hook) :
  run JSON_parse options trace h0 = Some h -> startTimeRef h = startTimeRef h0.
Proof.
  revert h0. induction trace as [|e trace IH]; intros h0; simpl.
  - by intros [= <-].
  - destruct (enabled e h0); [|done]. intros ->%IH. apply step_startTime.
Qed.
End RunStatistics.

(** X6: whenever a render computes the statistics, the total it shows is
    the number of valid events received so far, capped at 1000, the rate
    is that total over the minutes since the first render, and the two
    overlay members are the overlay cells. *)
Theorem stats_total_is_capped
    (Number_toString : number -> string) (JSON_parse : string -> option json)
    (options : UseWebSocketOptions) (trace : list event) (start now : Z)
    (h : hook) (s : Stats) (today : option number) (byCountry : option (list json)) :
  run JSON_parse options trace (initial start) = Some h ->
  hook_stats Number_toString now h = Returns (s, today, byCountry) ->
  totalAttacks s = length (arrivals JSON_parse trace) `min` 1000
  /\ totalAttacks s <= 1000
  /\ attacksPerMinute s = rate (totalAttacks s) (timeDiff now start)
  /\ today = todayTotal h /\ byCountry = todayByCountry h.
Proof.
  intros Hrun. unfold hook_stats.
  destruct (calculateStats _ _ _ _) as [local| |] eqn:Hlocal; try done.
  cbn [mbind outcome_bind]. intros [= -> <- <-].
  apply calculateStats_returns_inv in Hlocal as (_ & _ & _ & _ & _ & _ & _ & Htotal & Hrate).
  rewrite (run_startTime JSON_parse options trace (initial start) h Hrun) in Hrate. cbn [startTimeRef initial] in Hrate.
  rewrite (run_buffer JSON_parse options trace (initial start) h (Nat.le_0_l _) Hrun) in Htotal.
  cbn [allAttacksRef initial app] in Htotal.
  assert (totalAttacks s = length (arrivals JSON_parse trace) `min` 1000) as Hmin.
  { rewrite Htotal. unfold slice_last. rewrite length_drop. lia. }
  split; [done|]. split; [lia|]. split; [|done].
  rewrite Hrate. do 2 f_equal. rewrite Htotal.
  by rewrite (run_buffer JSON_parse options trace (initial start) h (Nat.le_0_l _) Hrun).
Qed.

Lemma stats_total_witness :
  let h := on_batch [attack_of_type "ddos"; JNum (Finite 5)] 9
             (onopen (set_sockets [OPEN] (connect default_options (initial 0)))) in
  exists s,
    hook_stats Number_toString_unused 60000 h = Returns (s, None, None)
    /\ totalAttacks s = 1
    /\ totalAttacks s = length (arrivals JSON_parse_examples mixed_batch_trace) `min` 1000.
Proof.
  intros h. eexists. split; [vm_compute; reflexivity|]. split; [reflexivity|].
  apply (stats_total_is_capped Number_toString_unused JSON_parse_examples default_options
           mixed_batch_trace 0 60000 h _ None None); vm_compute; reflexivity.
Defined.
(** *** The overlay of today's aggregate *)

Section Overlay.
Variable JSON_parse : string -> option json.
Variable options : UseWebSocketOptions.

Lemma get_or_empty (payload : value) (k : string) :
  get (or_else payload (Some (JObj []))) k = get payload k.
Proof.
  unfold or_else. destruct (ToBoolean payload) eqn:Hp; [done|].
  destruct payload as [[]|]; try done.
Qed.

(** The aggregate branch is taken exactly by the payloads [is_statsToday]
    describes. *)
Lemma onmessage_aggregate (data : string) (now : Z) (h : hook) :
  onmessage JSON_parse data now h =
  if is_statsToday JSON_parse data
  then match JSON_parse data with
       | Some parsed => on_statsToday parsed h
       | None => h
       end
  else if String.eqb data "" then h
       else match JSON_parse data with
            | None => setError (Some "Error parsing attack data") h
            | Some (JArr candidates) => on_batch candidates now h
            | Some _ => h
            end.
Proof.
  unfold onmessage, is_statsToday.
  destruct (String.eqb data ""); [done|]. cbn [negb andb].
  destruct (JSON_parse data) as [parsed|]; [|done].
  destruct parsed; cbn [ToBoolean typeof get andb String.eqb]; try done.
  all: rewrite ?andb_false_r; cbn [andb]; done.
Qed.

Lemma on_batch_overlay (parsed : list json) (now : Z) (h : hook) :
  todayTotal (on_batch parsed now h) = todayTotal h
  /\ todayByCountry (on_batch parsed now h) = todayByCountry h.
Proof. unfold on_batch. destruct (0 <? _)%nat; [|done]. by destruct (1000 <? _)%nat. Qed.

Lemma step_overlay (e : event) (h : hook) :
  let h' := step JSON_parse options e h in
  match e with
  | Message _ data _ =>
      if is_statsToday JSON_parse data
      then is_Some (todayTotal h') /\ is_Some (todayByCountry h')
      else todayTotal h' = todayTotal h /\ todayByCountry h' = todayByCountry h
  | _ => todayTotal h' = todayTotal h /\ todayByCountry h' = todayByCountry h
  end.
Proof.
  cbv zeta. destruct e as [| |ws|ws data now|ws failed|t]; cbn [step].
  - by destruct (connect_frame options h) as (_ & _ & _ & _ & _ & -> & -> & _).
  - by destruct (cleanup_frame h) as (_ & _ & _ & _ & -> & -> & _).
  - done.
  - rewrite onmessage_aggregate. destruct (is_statsToday JSON_parse data) eqn:Hs.
    + unfold is_statsToday in Hs. destruct (JSON_parse data) as [parsed|];
        [|by rewrite andb_false_r in Hs].
      unfold on_statsToday. cbn [todayTotal todayByCountry setTodayByCountry setTodayTotal].
      split; repeat case_match; by eexists.
    + destruct (String.eqb data ""); [done|].
      destruct (JSON_parse data) as [[]|]; try done. apply on_batch_overlay.
  - destruct (onclose_frame options
                (if failed then onerror (set_sockets (<[ws:=CLOSED]> (sockets h)) h)
                 else set_sockets (<[ws:=CLOSED]> (sockets h)) h)) as (_ & _ & -> & -> & _).
    by destruct failed.
  - by destruct (connect_frame options (set_timers (<[t:=Fired]> (timers h)) h))
      as (_ & _ & _ & _ & _ & -> & -> & _).
Qed.

Lemma run_overlay (trace : list event) (h0 h : hook) :
  (is_Some (todayTotal h0) <-> is_Some (todayByCountry h0)) ->
  run JSON_parse options trace h0 = Some h ->
  (is_Some (todayTotal h) <-> is_Some (todayByCountry h))
  /\ (is_Some (todayTotal h) <->
      is_Some (todayTotal h0)
      \/ exists ws data now, Message ws data now ∈ trace
                             /\ is_statsToday JSON_parse data = true).
Proof.
  revert h0. induction trace as [|e trace IH]; intros h0 Hboth; simpl.
  - intros [= <-]. split; [done|]. split; [tauto|].
    intros [?|(? & ? & ? & []%elem_of_nil & _)]; done.
  - destruct (enabled e h0); [|done]. intros Hrun.
    pose proof (step_overlay e h0) as Hstep. cbv zeta in Hstep.
    assert (is_Some (todayTotal (step JSON_parse options e h0))
            <-> is_Some (todayByCountry (step JSON_parse options e h0))) as Hboth'.
    { destruct e; try (destruct Hstep as [-> ->]; exact Hboth).
      destruct (is_statsToday JSON_parse data); [tauto|].
      destruct Hstep as [-> ->]; exact Hboth. }
    destruct (IH _ Hboth' Hrun) as [H1 H2]. split; [done|]. rewrite H2. clear IH H1 H2.
    setoid_rewrite elem_of_cons.
    destruct e as [| |ws|ws data now|ws failed|t];
      try (destruct Hstep as [-> _]; split;
           [intros [?|(ws' & d & n & ? & ?)]; [tauto|right; exists ws', d, n; tauto]
           |intros [?|(ws' & d & n & [?|?] & ?)]; [tauto|done|right; exists ws', d, n; tauto]]).
    destruct (is_statsToday JSON_parse data) eqn:Hs.
    + split; [|tauto]. intros _. right. exists ws, data, now. tauto.
    + destruct Hstep as [-> _]. split.
      * intros [?|(ws' & d & n & ? & ?)]; [tauto|right; exists ws', d, n; tauto].
      * intros [?|(ws' & d & n & [[= -> -> ->]|?] & ?)];
          [tauto|congruence|right; exists ws', d, n; tauto].
Qed.
End Overlay.

(** X7: the two overlay cells are defined exactly from the first
    aggregate message on: until then the panel shows a dash as today's
    total and no row of today's countries, and no other event, batch or
    malformed message defines or clears them. *)
Theorem overlay_defined_by_statsToday
    (toLocaleTimeString : Z -> string) (toFixed_1 : number -> string)
    (JSON_parse : string -> option json) (options : UseWebSocketOptions)
    (trace : list event) (start : Z) (h : hook) :
  run JSON_parse options trace (initial start) = Some h ->
  let aggregated := exists ws data now, Message ws data now ∈ trace
                                        /\ is_statsToday JSON_parse data = true in
  (is_Some (todayTotal h) <-> aggregated)
  /\ (is_Some (todayByCountry h) <-> aggregated)
  /\ (forall local,
        let shown := StatisticsPanel toLocaleTimeString toFixed_1 (attacks h)
                       (local, todayTotal h, todayByCountry h)
                       (isConnected h) (lastUpdate h) in
        (totalHitHariIni shown = inr "-" <-> ~ aggregated)
        /\ (~ aggregated -> hitHariIniPerNegara shown = [])).
Proof.
  intros Hrun aggregated.
  destruct (run_overlay JSON_parse options trace (initial start) h) as [Hboth Hiff];
    [by split; intros [? [=]]|done|].
  assert (is_Some (todayTotal h) <-> aggregated) as Htotal.
  { rewrite Hiff. split; [|tauto]. by intros [[? [=]]|?]. }
  split; [done|]. split; [by rewrite <- Hboth|].
  intros local. cbv zeta. cbn [StatisticsPanel totalHitHariIni hitHariIniPerNegara].
  rewrite <- Htotal. split.
  - destruct (todayTotal h); split; try done;
      first [by intros []; eexists | by intros _ [? [=]]].
  - intros Hnone. destruct (todayByCountry h) eqn:Hc; [|done].
    destruct Hnone. apply Hboth. by eexists.
Qed.

Lemma overlay_witness :
  exists h,
    run JSON_parse_examples default_options mixed_batch_trace (initial 0) = Some h
    /\ totalHitHariIni
         (StatisticsPanel time_unused rate_unused (attacks h)
            ({| totalAttacks := 1; attacksPerMinute := Finite 1; topSourceCountries := [];
                topTargetCountries := []; attackTypes := [] |},
             todayTotal h, todayByCountry h) (isConnected h) (lastUpdate h))
       = inr "-".
Proof.
  eexists. split; [vm_compute; reflexivity|].
  apply (overlay_defined_by_statsToday time_unused rate_unused JSON_parse_examples
           default_options mixed_batch_trace 0); [vm_compute; reflexivity|].
  intros (ws & data & now & Hin & Hs).
  apply list_elem_of_In in Hin. simpl in Hin.
  destruct Hin as [[=]|[[=]|[[= _ <- _]|[]]]]. vm_compute in Hs. discriminate.
Defined.

(** X8: an aggregate message always defines both overlay cells and
    changes nothing else: today's total is the payload's [total] when
    that is a number and 0 otherwise, today's countries are the payload's
    [countries] when that is an array and the empty list otherwise; so a
    message without payload, or with a payload that is no object, resets
    the overlay to 0 and no countries. *)
Theorem statsToday_fills_defaults
    (JSON_parse : string -> option json) (options : UseWebSocketOptions)
    (ws : nat) (data : string) (now : Z) (h : hook) (members : list (string * json)) :
  data <> "" ->
  JSON_parse data = Some (JObj members) ->
  own_property "type" members = Some (JStr "statsToday") ->
  let h' := step JSON_parse options (Message ws data now) h in
  let payload := own_property "payload" members in
  (exists total countries,
      h' = setTodayByCountry (Some countries) (setTodayTotal (Some total) h))
  /\ (forall t, get payload "total" = Some (JNum t) -> todayTotal h' = Some t)
  /\ ((forall t, get payload "total" <> Some (JNum t)) -> todayTotal h' = Some (Finite 0))
  /\ (forall cs, get payload "countries" = Some (JArr cs) -> todayByCountry h' = Some cs)
  /\ ((forall cs, get payload "countries" <> Some (JArr cs)) -> todayByCountry h' = Some []).
Proof.
  intros Hdata Hparse Htype. cbv zeta. cbn [step]. unfold onmessage.
  destruct (String.eqb_spec data "") as [|_]; [done|]. rewrite Hparse.
  cbn [ToBoolean typeof get andb]. rewrite Htype.
  cbn [strict_equals]. rewrite String.eqb_refl. cbn [String.eqb andb].
  unfold on_statsToday. cbn [get]. rewrite !get_or_empty.
  cbn [todayTotal todayByCountry setTodayByCountry setTodayTotal].
  set (payload := own_property "payload" members).
  destruct (get payload "total") as [total|] eqn:Htotal,
           (get payload "countries") as [countries|] eqn:Hcountries.
  all: split; [destruct total as [| |t| | |] || idtac;
               destruct countries as [| | | |cs|] || idtac; by eexists _, _|].
  all: split; [by intros t [= ->]|]; split;
         [intros Hno; destruct total as [| |t| | |] || idtac; try done; by destruct (Hno t)|].
  all: split; [by intros cs [= ->]|];
         intros Hno; destruct countries as [| | | |cs|] || idtac; try done; by destruct (Hno cs).
Qed.

(** An aggregate with no payload. *)
Lemma statsToday_defaults_witness :
  let h' := step JSON_parse_more default_options
              (Message 0 (wire "{'type':'statsToday'}") 5) (initial 0) in
  todayTotal h' = Some (Finite 0) /\ todayByCountry h' = Some [].
Proof.
  destruct (statsToday_fills_defaults JSON_parse_more default_options 0
              (wire "{'type':'statsToday'}") 5 (initial 0) [("type", JStr "statsToday")]
              ltac:(discriminate) eq_refl eq_refl) as (_ & _ & Htotal & _ & Hcountries).
  split; [by apply Htotal|by apply Hcountries].
Defined.
(** *** A failed connection, and the effect's cleanup *)

Lemma failed_connection_states
    (JSON_parse : string -> option json) (options : UseWebSocketOptions)
    (ws : nat) (h : hook) :
  url_constructs options = true ->
  (Z.of_nat (reconnectAttemptsRef h) < maxReconnectAttempts options)%Z ->
  let t := length (timers h) in
  let ws' := length (sockets h) in
  let waits := step JSON_parse options (Closed ws true) h in
  let retries := step JSON_parse options (Timeout t) waits in
  let opens := step JSON_parse options (Opened ws') retries in
  (App waits = ErrorMessage "WebSocket connection error"
   /\ enabled (Timeout t) waits = true)
  /\ (App retries = LoadingMessage
      /\ error retries = None
      /\ wsRef retries = Some ws'
      /\ enabled (Opened ws') retries = true)
  /\ (App opens = Dashboard /\ reconnectAttemptsRef opens = 0 /\ error opens = None)
  /\ (allAttacksRef waits = allAttacksRef h
      /\ allAttacksRef retries = allAttacksRef h
      /\ allAttacksRef opens = allAttacksRef h).
Proof.
  intros Hurl Hlt. cbv zeta. cbn [step]. unfold onclose, onerror, connect.
  cbn [reconnectAttemptsRef setIsConnected setError set_sockets].
  apply Z.ltb_lt in Hlt. rewrite Hlt, Hurl.
  cbn [enabled App error isConnected timers sockets set_reconnectTimeoutRef set_timers
         set_reconnectAttemptsRef setIsConnected setError set_sockets set_wsRef onopen
         wsRef reconnectAttemptsRef allAttacksRef negb andb String.eqb Ascii.eqb Bool.eqb].
  rewrite length_insert.
  split; [split; [done|]|split; [split; [done|split; [done|split; [done|]]]|done]].
  - apply bool_decide_eq_true. rewrite lookup_app_r by done.
    by rewrite Nat.sub_diag.
  - apply bool_decide_eq_true. rewrite lookup_app_r by by rewrite length_insert.
    by rewrite length_insert, Nat.sub_diag.
Qed.

(** X9: when a connection fails with attempts left, and the statistics
    of the buffer do not throw, a render of [App] returns the error
    screen with ['WebSocket connection error'] while the retry waits;
    the retry clears the error and a render returns the loading screen
    while the new socket connects; once that socket opens a render
    returns the dashboard, with the whole budget of attempts again. *)
Theorem failed_connection_shows_error_until_retry
    (Number_toString : number -> string)
    (JSON_parse : string -> option json) (options : UseWebSocketOptions)
    (ws : nat) (now : Z) (h : hook) :
  url_constructs options = true ->
  (Z.of_nat (reconnectAttemptsRef h) < maxReconnectAttempts options)%Z ->
  calculateStats Number_toString now (startTimeRef h) (allAttacksRef h) <> ThrowsTypeError ->
  let t := length (timers h) in
  let ws' := length (sockets h) in
  let waits := step JSON_parse options (Closed ws true) h in
  let retries := step JSON_parse options (Timeout t) waits in
  let opens := step JSON_parse options (Opened ws') retries in
  ((forall clock, render_App Number_toString clock waits
                  = Returns (ErrorMessage "WebSocket connection error"))
   /\ enabled (Timeout t) waits = true)
  /\ ((forall clock, render_App Number_toString clock retries = Returns LoadingMessage)
      /\ error retries = None
      /\ wsRef retries = Some ws'
      /\ enabled (Opened ws') retries = true)
  /\ ((forall clock, render_App Number_toString clock opens = Returns Dashboard)
      /\ reconnectAttemptsRef opens = 0 /\ error opens = None).
Proof.
  intros Hurl Hlt Hstats.
  destruct (failed_connection_states JSON_parse options ws h Hurl Hlt)
    as ((Hwaits & Htimer) & (Hretries & Herror & Hws & Hopen) & (Hopens & Hbudget & Hnone)
        & Hb1 & Hb2 & Hb3).
  cbv zeta. split; [split; [|done]|split; [split; [|done]|split; [|done]]].
  - intros clock. rewrite <- Hwaits. by apply render_App_returns with now h.
  - intros clock. rewrite <- Hretries. by apply render_App_returns with now h.
  - intros clock. rewrite <- Hopens. by apply render_App_returns with now h.
Qed.

Lemma failed_connection_witness :
  let waits := step JSON_parse_examples default_options (Closed 0 true)
                 (step JSON_parse_examples default_options Effect (initial 0)) in
  render_App Number_toString_unused 3005 waits
  = Returns (ErrorMessage "WebSocket connection error")
  /\ render_App Number_toString_unused 3010
       (step JSON_parse_examples default_options (Timeout 0) waits)
     = Returns LoadingMessage.
Proof.
  destruct (failed_connection_shows_error_until_retry Number_toString_unused
              JSON_parse_examples default_options 0 5
              (step JSON_parse_examples default_options Effect (initial 0))
              eq_refl eq_refl ltac:(discriminate)) as ((Hwaits & _) & (Hretries & _) & _).
  split; [apply Hwaits|apply Hretries].
Defined.

Lemma insert_Cleared_pending (ts : list timer) (t u : nat) :
  <[t:=Cleared]> ts !! u = Some Pending <-> u <> t /\ ts !! u = Some Pending.
Proof.
  destruct (decide (u = t)) as [->|Hne].
  - split; [|tauto]. intros H. destruct (decide (t < length ts)).
    + by rewrite list_lookup_insert_eq in H.
    + rewrite lookup_ge_None_2 in H; [done|]. rewrite length_insert. lia.
  - rewrite list_lookup_insert_ne by done. tauto.
Qed.

(** X10: the cleanup stops what the two refs name and nothing more.  The
    timer of [reconnectTimeoutRef] is no longer pending and the socket of
    [wsRef] is neither connecting nor open; every other timer and socket
    is as it was, so a retry set by an earlier closure still fires; no
    state cell and no ref is written, so the hook goes on saying
    connected until the closure arrives; and a second cleanup changes
    nothing. *)
Theorem cleanup_stops_what_the_refs_name (h : hook) :
  let h' := cleanup h in
  (forall t, t ∈ pending h' <-> t ∈ pending h /\ reconnectTimeoutRef h <> Some t)
  /\ (forall ws, wsRef h = Some ws ->
        sockets h' !! ws <> Some CONNECTING /\ sockets h' !! ws <> Some OPEN)
  /\ (forall ws, wsRef h <> Some ws -> sockets h' !! ws = sockets h !! ws)
  /\ (attacks h' = attacks h /\ isConnected h' = isConnected h
      /\ lastUpdate h' = lastUpdate h /\ error h' = error h
      /\ todayTotal h' = todayTotal h /\ todayByCountry h' = todayByCountry h
      /\ wsRef h' = wsRef h /\ reconnectAttemptsRef h' = reconnectAttemptsRef h
      /\ reconnectTimeoutRef h' = reconnectTimeoutRef h
      /\ allAttacksRef h' = allAttacksRef h /\ startTimeRef h' = startTimeRef h)
  /\ cleanup h' = h'.
Proof.
  cbv zeta. split; [|split; [|split; [|split; [apply cleanup_frame|]]]].
  - intros t. rewrite !pending_elem_of. unfold cleanup, clearTimeout, close.
    assert (Htimers : forall h0 : hook,
               timers (match wsRef h0 with
                       | Some ws =>
                           match sockets h0 !! ws with
                           | Some CONNECTING | Some OPEN =>
                               set_sockets (<[ws:=CLOSING]> (sockets h0)) h0
                           | _ => h0
                           end
                       | None => h0
                       end) = timers h0).
    { intros h0. destruct (wsRef h0) as [ws|]; [|done].
      by destruct (sockets h0 !! ws) as [[]|]. }
    destruct (reconnectTimeoutRef h) as [u|] eqn:Href.
    + destruct (timers h !! u) as [state|] eqn:Hu; [destruct state|]; rewrite Htimers.
      * cbn [timers set_timers]. rewrite insert_Cleared_pending.
        split; [intros [? ?]; split; [done|congruence]|].
        intros [? Hne]. split; [congruence|done].
      * split; [|tauto]. intros Ht. split; [done|]. intros [= ->]. congruence.
      * split; [|tauto]. intros Ht. split; [done|]. intros [= ->]. congruence.
      * split; [|tauto]. intros Ht. split; [done|]. intros [= ->]. congruence.
    + rewrite Htimers. split; [|tauto]. by intros Ht.
  - intros ws Hws. unfold cleanup, clearTimeout, close.
    assert (Hsockets : forall h0 : hook, wsRef h0 = Some ws ->
               let h1 := match wsRef h0 with
                         | Some ws =>
                             match sockets h0 !! ws with
                             | Some CONNECTING | Some OPEN =>
                                 set_sockets (<[ws:=CLOSING]> (sockets h0)) h0
                             | _ => h0
                             end
                         | None => h0
                         end in
               sockets h1 !! ws <> Some CONNECTING /\ sockets h1 !! ws <> Some OPEN).
    { intros h0 ->. cbv zeta. destruct (sockets h0 !! ws) as [[]|] eqn:Hs;
        cbn [sockets set_sockets]; rewrite ?Hs; try done.
      all: rewrite list_lookup_insert_eq by by eapply lookup_lt_Some.
      all: done. }
    destruct (reconnectTimeoutRef h) as [u|]; [|by apply Hsockets].
    destruct (timers h !! u) as [[]|]; by apply Hsockets.
  - intros ws Hws. unfold cleanup, clearTimeout, close.
    assert (Hsockets : forall h0 : hook, wsRef h0 <> Some ws ->
               sockets (match wsRef h0 with
                        | Some ws =>
                            match sockets h0 !! ws with
                            | Some CONNECTING | Some OPEN =>
                                set_sockets (<[ws:=CLOSING]> (sockets h0)) h0
                            | _ => h0
                            end
                        | None => h0
                        end) !! ws = sockets h0 !! ws).
    { intros h0 Hne. destruct (wsRef h0) as [ws0|]; [|done].
      destruct (sockets h0 !! ws0) as [[]|]; try done.
      all: cbn [sockets set_sockets]; rewrite list_lookup_insert_ne; [done|congruence]. }
    destruct (reconnectTimeoutRef h) as [u|]; [|by apply Hsockets].
    destruct (timers h !! u) as [[]|]; by rewrite Hsockets.
  - unfold cleanup at 1.
    destruct (cleanup_frame h) as (_ & _ & _ & _ & _ & _ & Hsame & _ & Hto & _).
    rewrite Hto.
    assert (Hclear : forall t, reconnectTimeoutRef h = Some t ->
               clearTimeout t (cleanup h) = cleanup h).
    { intros t Ht. unfold clearTimeout.
      destruct (timers (cleanup h) !! t) as [[]|] eqn:Hlook; try done.
      exfalso. apply pending_elem_of in Hlook. revert Hlook.
      unfold pending, cleanup, clearTimeout, close. rewrite Ht.
      destruct (timers h !! t) as [[]|] eqn:Hu.
      all: cbn [wsRef sockets set_timers].
      all: destruct (wsRef h) as [ws|]; [destruct (sockets h !! ws) as [[]|]|].
      all: cbn [timers set_timers set_sockets].
      all: rewrite pending_from_elem_of, Nat.sub_0_r.
      all: try rewrite insert_Cleared_pending.
      all: intros [_ H]; try (rewrite Hu in H; done); tauto. }
    assert (Hclose : forall ws, wsRef h = Some ws -> close ws (cleanup h) = cleanup h).
    { intros ws Hws. unfold close at 1.
      destruct (sockets (cleanup h) !! ws) as [[]|] eqn:Hlook; try done.
      all: exfalso; revert Hlook; unfold cleanup, clearTimeout, close.
      all: destruct (reconnectTimeoutRef h) as [u|]; [destruct (timers h !! u) as [[]|]|].
      all: cbn [wsRef sockets set_timers]; rewrite Hws.
      all: destruct (sockets h !! ws) as [[]|] eqn:Hs; cbn [sockets set_sockets set_timers];
             rewrite ?Hs; try done.
      all: rewrite list_lookup_insert_eq by by eapply lookup_lt_Some.
      all: done. }
    destruct (reconnectTimeoutRef h) as [t|] eqn:Ht.
    + rewrite (Hclear t eq_refl), Hsame.
      destruct (wsRef h) as [ws|]; [by apply Hclose|done].
    + rewrite Hsame. destruct (wsRef h) as [ws|]; [by apply Hclose|done].
Qed.
(** ** The groups of the statistics *)

Lemma entries_Permutation {V : Type} (obj : list (string * V)) : entries obj ≡ₚ obj.
Proof.
  unfold entries. rewrite sort_Permutation.
  rewrite (list_filter_iff (fun p : string * V => is_array_index p.1 = false)
             (fun p => ~ is_array_index p.1 = true));
    [apply filter_app_complement|].
  intros p. by destruct (is_array_index p.1).
Qed.

Lemma cells_sum_assign_plus_one (key : string) (obj : counter) :
  key ∉ Object_prototype_names ->
  Forall (fun entry => entry.2 <> Text) obj ->
  cells_sum (assign_plus_one key obj) = S (cells_sum obj)
  /\ Forall (fun entry => entry.2 <> Text) (assign_plus_one key obj).
Proof.
  intros Hname. unfold cells_sum. induction 1 as [|[k c] obj Hc Hobj [IH1 IH2]].
  - simpl. unfold first_cell. rewrite bool_decide_eq_false_2 by done. split; [done|].
    by repeat constructor.
  - cbn [assign_plus_one]. destruct (String.eqb k key).
    + rewrite !fmap_cons. destruct c as [n|]; [|done]. simpl. split; [lia|].
      by constructor.
    + rewrite !fmap_cons. cbn [sum_list_with]. rewrite IH1. split; [simpl; lia|].
      by constructor.
Qed.

Lemma cells_sum_counted (keys : list string) :
  Forall (fun k => k ∈ Object_prototype_names -> k = "__proto__") keys ->
  cells_sum (foldl increment [] keys) = length (filter (fun k => k <> "__proto__") keys)
  /\ Forall (fun entry => entry.2 <> Text) (foldl increment [] keys).
Proof.
  induction keys as [|key keys IH] using rev_ind; [done|].
  intros [Hkeys [Hkey _]%Forall_cons]%Forall_app. destruct (IH Hkeys) as [IH1 IH2].
  rewrite foldl_snoc, filter_app, length_app, filter_cons, filter_nil.
  assert (increment (foldl increment [] keys) key
          = if String.eqb key "__proto__" then foldl increment [] keys
            else assign_plus_one key (foldl increment [] keys)) as -> by done.
  destruct (String.eqb_spec key "__proto__") as [->|Hne].
  - rewrite decide_False by tauto. simpl. split; [lia|done].
  - rewrite decide_True by done.
    destruct (cells_sum_assign_plus_one key (foldl increment [] keys)) as [-> ?];
      [tauto|done|]. split; [simpl; lia|done].
Qed.

(** The ranking of a counter that counted [keys]: one group for each
    key, and the counts add up. *)
Lemma ranking_total (keys : list string) (out : list (string * nat)) :
  ranking (foldl increment [] keys) = Returns out ->
  NoDup out.*1
  /\ total_count out = length (filter (fun k => k <> "__proto__") keys).
Proof.
  intros Hout.
  assert (Hkeys := proj1 (ranking_Returns_iff keys) (ex_intro _ out Hout)).
  apply ranking_Returns in Hout as (groups & Hentries & ->).
  destruct (counting_builds keys) as (Hnd & _).
  destruct (cells_sum_counted keys Hkeys) as [Hsum _].
  set (obj := foldl increment [] keys) in *.
  assert (groups.*1 ≡ₚ obj.*1) as Hlabels.
  { rewrite <- (entries_Permutation obj), Hentries, <- list_fmap_compose.
    by apply reflexive_eq, list_fmap_ext. }
  split.
  - rewrite (sort_Permutation by_count_descending groups). by rewrite Hlabels.
  - unfold total_count. rewrite (sort_Permutation by_count_descending groups).
    rewrite <- Hsum. unfold cells_sum.
    rewrite <- (entries_Permutation obj), Hentries, <- list_fmap_compose.
    by apply f_equal, list_fmap_ext.
Qed.

Lemma filter_key_ne_length (key_of : json -> outcome string)
    (buffer : list json) (keys : list string) (k : string) :
  Forall2 (fun attack key => key_of attack = Returns key) buffer keys ->
  length (filter (fun attack => key_of attack <> Returns k) buffer)
  = length (filter (fun key => key <> k) keys).
Proof.
  induction 1 as [|attack key buffer keys Hkey _ IH]; [done|].
  rewrite !filter_cons, Hkey.
  destruct (decide (key = k)) as [->|Hne].
  - rewrite !decide_False by tauto. done.
  - rewrite !decide_True by congruence. simpl. by rewrite IH.
Qed.

Lemma ranking_grouping (key_of : json -> outcome string) (buffer : list json)
    (keys : list string) (out : list (string * nat)) :
  Forall2 (fun attack key => key_of attack = Returns key) buffer keys ->
  ranking (foldl increment [] keys) = Returns out ->
  grouping key_of buffer out.
Proof.
  intros Hkeys Hout. destruct (ranking_total keys out Hout) as [Hnd Hsum].
  split; [done|]. split.
  - intros k n. rewrite (ranking_counts keys out k n Hout).
    rewrite (filter_key_length key_of buffer keys k Hkeys). split.
    + intros (Hin & Hne & ->). split; [done|]. split; [|done].
      apply list_elem_of_split in Hin as (l1 & l2 & ->).
      rewrite filter_app, filter_cons, decide_True, length_app by done. simpl. lia.
    + intros (Hne & Hpos & ->). split; [|done].
      destruct (filter (eq k) keys) as [|k' rest] eqn:Hf; [simpl in Hpos; lia|].
      assert (k' ∈ filter (eq k) keys) as [<- ?]%list_elem_of_filter; [|done].
      rewrite Hf. left.
  - rewrite Hsum. symmetry. by apply filter_key_ne_length.
Qed.

Lemma groups_partition
    (Number_toString : number -> string) (now start : Z)
    (allAttacks : list json) (s : Stats) :
  calculateStats Number_toString now start allAttacks = Returns s ->
  grouping (source_key Number_toString) allAttacks (topSourceCountries s)
  /\ grouping (target_key Number_toString) allAttacks (topTargetCountries s)
  /\ grouping (type_key Number_toString) allAttacks (attackTypes s)
  /\ (Forall (fun a => type_key Number_toString a <> Returns "__proto__") allAttacks ->
      total_count (attackTypes s) = totalAttacks s).
Proof.
  intros (sources & targets & types & Hcount & Hs & Ht & Hy & Htotal & _)%calculateStats_returns_inv.
  apply forEach_tally in Hcount as (ss & ts & ys & Hss & Hts & Hys & [= -> -> ->]).
  simpl in Hs, Ht, Hy.
  pose proof (ranking_grouping _ _ _ _ Hss Hs) as Gs.
  pose proof (ranking_grouping _ _ _ _ Hts Ht) as Gt.
  pose proof (ranking_grouping _ _ _ _ Hys Hy) as Gy.
  split; [done|]. split; [done|]. split; [done|].
  intros Hall. destruct Gy as (_ & _ & ->). rewrite Htotal. f_equal.
  clear -Hall. induction Hall as [|a l Ha _ IH]; [done|].
  by rewrite filter_cons, decide_True, IH.
Qed.

(** X11: on every buffer whose grouping keys all convert to property
    keys, none of them a name every object inherits ([constructor],
    [toString], ...), the statistics are computed and each of the three
    lists partitions the buffer by its key: every key that occurs, but
    for [__proto__], has exactly one group, whose count is the number of
    events of that key and so at least 1; and the counts of a list add
    up to the number of events whose key is not [__proto__]: to the
    total, when no event has that key. *)
Theorem groups_partition_the_buffer
    (Number_toString : number -> string) (now start : Z) (allAttacks : list json) :
  countable Number_toString allAttacks ->
  exists s,
    calculateStats Number_toString now start allAttacks = Returns s
    /\ grouping (source_key Number_toString) allAttacks (topSourceCountries s)
    /\ grouping (target_key Number_toString) allAttacks (topTargetCountries s)
    /\ grouping (type_key Number_toString) allAttacks (attackTypes s)
    /\ (Forall (fun a => type_key Number_toString a <> Returns "__proto__") allAttacks ->
        total_count (attackTypes s) = totalAttacks s).
Proof.
  intros Hcountable.
  destruct (proj2 (calculateStats_Returns_iff Number_toString now start allAttacks)
              Hcountable) as [s Hs].
  exists s. split; [exact Hs|]. by apply (groups_partition Number_toString now start).
Qed.

Lemma groups_witness :
  exists s,
    calculateStats Number_toString_unused 60000 0 six_attacks = Returns s
    /\ total_count (attackTypes s) = 6
    /\ ("b", 2) ∈ attackTypes s.
Proof.
  destruct (groups_partition_the_buffer Number_toString_unused 60000 0 six_attacks)
    as (s & Hs & _ & _ & (_ & Hin & _) & Htotal).
  { apply (proj1 (calculateStats_Returns_iff Number_toString_unused 60000 0 six_attacks)).
    eexists. vm_compute. reflexivity. }
  exists s. split; [exact Hs|]. split.
  - rewrite Htotal.
    + by apply calculateStats_returns_inv in Hs as (_ & _ & _ & _ & _ & _ & _ & -> & _).
    + repeat constructor; discriminate.
  - apply Hin. split; [discriminate|]. split; [|reflexivity]. vm_compute. lia.
Defined.
(** ** Labels *)

Section Labels.
Variable Number_toString : number -> string.

Lemma isValidAttack_points (attack : json) :
  isValidAttack attack = true ->
  attack <> JNull
  /\ ToBoolean (get (Some attack) "src_geo") = true
  /\ ToBoolean (get (Some attack) "dst_geo") = true.
Proof.
  unfold isValidAttack. intros H. repeat (apply andb_prop in H as [H ?]).
  split; [by destruct attack|done].
Qed.

Lemma optional_truthy (point : value) (k : string) :
  ToBoolean point = true -> optional point k = get point k.
Proof. by destruct point as [[]|]. Qed.

Lemma country_key_valid (attack : json) (geo : string) :
  isValidAttack attack = true -> geo = "src_geo" \/ geo = "dst_geo" ->
  country_key Number_toString attack geo
  = ToPropertyKey Number_toString
      (or_else (get (get (Some attack) geo) "country") (Some (JStr "Unknown"))).
Proof.
  intros (Hnull & Hsrc & Hdst)%isValidAttack_points Hgeo.
  unfold country_key, member. destruct attack; try done; cbn [mbind outcome_bind].
  all: rewrite optional_truthy; [done|]; by destruct Hgeo as [-> | ->].
Qed.

Lemma plain_label_country (attack : json) (geo : string) :
  isValidAttack attack = true -> geo = "src_geo" \/ geo = "dst_geo" ->
  plain_label (get (get (Some attack) geo) "country") ->
  countable_key (country_key Number_toString attack geo).
Proof.
  intros Hvalid Hgeo Hplain. rewrite country_key_valid by done. unfold or_else.
  destruct Hplain as [-> | (s & -> & Hs)].
  - exists "Unknown". split; [done|]. intros Hin. apply list_elem_of_In in Hin.
    simpl in Hin. intuition discriminate.
  - cbn [ToBoolean]. destruct (String.eqb_spec s "") as [->|Hne]; cbn [negb].
    + exists "Unknown". split; [done|]. intros Hin. apply list_elem_of_In in Hin.
      simpl in Hin. intuition discriminate.
    + by exists s.
Qed.

Lemma plain_label_type (attack : json) :
  isValidAttack attack = true ->
  plain_label (get (Some attack) "type") ->
  countable_key (type_key Number_toString attack).
Proof.
  intros (Hnull & _)%isValidAttack_points Hplain.
  unfold type_key, member. destruct attack; try done; cbn [mbind outcome_bind].
  all: destruct Hplain as [-> | (label & -> & Hs)]; [|by exists label].
  all: exists "undefined"; split; [done|]; intros Hin; apply list_elem_of_In in Hin;
    simpl in Hin; intuition discriminate.
Qed.
End Labels.

(** X12: an event whose point has no country, or a falsy one (the empty
    text, [null], [0], [false]), is grouped under [Unknown], together
    with the events whose country is the text [Unknown]; a country that
    is a text and not empty is its own key. *)
Theorem country_falls_back_to_Unknown
    (Number_toString : number -> string) (attack : json) (geo : string) :
  isValidAttack attack = true ->
  geo = "src_geo" \/ geo = "dst_geo" ->
  let country := get (get (Some attack) geo) "country" in
  (ToBoolean country = false ->
   country_key Number_toString attack geo = Returns "Unknown")
  /\ (forall s, country = Some (JStr s) -> s <> "" ->
        country_key Number_toString attack geo = Returns s)
  /\ (country_key Number_toString attack geo = Returns "Unknown" <->
      ToBoolean country = false
      \/ ToPropertyKey Number_toString country = Returns "Unknown").
Proof.
  intros Hvalid Hgeo country. rewrite country_key_valid by done. fold country.
  unfold or_else. split; [by intros ->|]. split.
  - intros s -> Hne. cbn [ToBoolean]. by destruct (String.eqb_spec s "").
  - destruct (ToBoolean country); [|tauto]. split; [tauto|]. by intros [|].
Qed.

Lemma country_witness :
  country_key Number_toString_unused bare_attack "src_geo" = Returns "Unknown"
  /\ country_key Number_toString_unused located_attack "dst_geo" = Returns "B".
Proof.
  split.
  - destruct (country_falls_back_to_Unknown Number_toString_unused bare_attack "src_geo"
                eq_refl (or_introl eq_refl)) as (Hfalsy & _).
    by apply Hfalsy.
  - destruct (country_falls_back_to_Unknown Number_toString_unused located_attack "dst_geo"
                eq_refl (or_intror eq_refl)) as (_ & Htext & _).
    by apply Htext.
Defined.

(** X13: the statistics are computed, without an exception, over every
    buffer of valid events whose countries and type are texts or absent,
    as [Attack.ts] types them, provided no such text is the name of a
    member every object inherits ([constructor], [toString], ...). *)
Theorem statistics_computed_for_plain_labels
    (Number_toString : number -> string) (now start : Z) (allAttacks : list json) :
  Forall (fun attack =>
            isValidAttack attack = true
            /\ plain_label (get (get (Some attack) "src_geo") "country")
            /\ plain_label (get (get (Some attack) "dst_geo") "country")
            /\ plain_label (get (Some attack) "type")) allAttacks ->
  exists s,
    calculateStats Number_toString now start allAttacks = Returns s
    /\ totalAttacks s = length allAttacks.
Proof.
  intros Hall.
  destruct (proj2 (calculateStats_Returns_iff Number_toString now start allAttacks)) as [s Hs].
  - eapply Forall_impl; [exact Hall|]. intros a (Hvalid & Hsrc & Hdst & Htype).
    split; [|split].
    + apply plain_label_country; tauto.
    + apply plain_label_country; tauto.
    + by apply plain_label_type.
  - exists s. split; [done|].
    by apply calculateStats_returns_inv in Hs as (_ & _ & _ & _ & _ & _ & _ & ? & _).
Qed.

Lemma statistics_computed_witness :
  exists s,
    calculateStats Number_toString_unused 60000 0 [located_attack; bare_attack] = Returns s
    /\ totalAttacks s = 2.
Proof.
  apply (statistics_computed_for_plain_labels Number_toString_unused 60000 0
           [located_attack; bare_attack]).
  assert (Htext : forall s, s ∉ Object_prototype_names -> plain_label (Some (JStr s))).
  { intros s Hs. right. by exists s. }
  assert (Hnot : forall s, (if bool_decide (s ∈ Object_prototype_names) then false else true)
                           = true -> s ∉ Object_prototype_names).
  { intros s. by case_bool_decide. }
  constructor; [|constructor; [|constructor]].
  - split; [reflexivity|]. split; [|split]; by apply Htext, Hnot.
  - split; [reflexivity|]. split; [|split]; by left.
Defined.
(** * The panel *)

Lemma slice_first_take {A : Type} (limit : nat) (l : list A) :
  slice_first (Z.of_nat limit) l = take limit l.
Proof.
  unfold slice_first. destruct (Z.ltb_spec (Z.of_nat limit) 0) as [|_]; [lia|].
  destruct (decide (limit <= length l)).
  - f_equal. lia.
  - rewrite !take_ge by lia. done.
Qed.

Lemma ranked_descending (tie : string -> string -> Prop) (groups : list (string * nat))
    (i j : nat) (a b : string * nat) :
  ranked tie groups -> i < j -> groups !! i = Some a -> groups !! j = Some b -> b.2 <= a.2.
Proof. intros Hr Hij Hi Hj. by destruct (Hr i j a b Hij Hi Hj). Qed.

(** The rows the panel shows of one ranked list. *)
Lemma top_rows (tie : string -> string -> Prop) (groups : list (string * nat)) (limit : nat) :
  ranked tie groups ->
  let rows := group_row <$> take limit groups in
  length rows = limit `min` length groups
  /\ (forall i g, i < limit -> groups !! i = Some g ->
        rows !! i = Some (if decide (g.1 = "") then "Unknown" else g.1, g.2))
  /\ (forall i j shown hidden, i < limit <= j ->
        groups !! i = Some shown -> groups !! j = Some hidden -> hidden.2 <= shown.2).
Proof.
  intros Hr. cbv zeta. split; [|split].
  - rewrite length_fmap, length_take. lia.
  - intros i g Hi Hg. rewrite list_lookup_fmap, lookup_take_lt, Hg by done. simpl.
    f_equal. unfold group_row.
    destruct (Nat.eqb_spec g.2 0) as [->|_]; simpl;
      destruct (String.eqb_spec g.1 "") as [Heq|Hne]; simpl;
      by rewrite ?decide_True, ?decide_False by done.
  - intros i j shown hidden Hij Hi Hj. eapply ranked_descending; [exact Hr| |done..]. lia.
Qed.

Lemma React_render_shown (p : panel) :
  React_render p = Shown p
  <-> Forall (fun row => valid_child row.1 = true /\ valid_child row.2 = true)
             (hitHariIniPerNegara p).
Proof.
  unfold React_render. rewrite Forall_forall.
  destruct (forallb _ _) eqn:Hall.
  - split; [|done]. intros _ row Hrow%list_elem_of_In.
    rewrite forallb_forall in Hall. by apply andb_true_iff, Hall.
  - split; [done|]. intros Hrows. exfalso.
    apply not_true_iff_false in Hall. apply Hall, forallb_forall.
    intros row Hrow%list_elem_of_In. by apply andb_true_iff, Hrows.
Qed.

(** The panel renders exactly when React renders the rows of the first
    five items of the aggregate. *)
Lemma panel_renders
    (toLocaleTimeString : Z -> string) (toFixed_1 : number -> string)
    (exposed : list json) (s : Stats) (today : option number)
    (byCountry : option (list json)) (connected : bool) (updated : option Z) :
  let shown := StatisticsPanel toLocaleTimeString toFixed_1 exposed
                 (s, today, byCountry) connected updated in
  React_render shown = Shown shown
  <-> Forall renderable (getTopCountries byCountry 5).
Proof.
  cbv zeta. rewrite React_render_shown. cbn [StatisticsPanel hitHariIniPerNegara].
  by rewrite Forall_fmap.
Qed.

(** X14: on every buffer whose statistics are computed with numbers in
    every counter (every grouping key converts to a property key and
    none is a name every object inherits), the panel is given of each
    list the groups at the head, five countries and three types, each
    with its own count, and every group it leaves out has a count no
    higher than any it shows; a group whose key is the empty text is
    labelled [Unknown]; the total is the length of the buffer and the
    active attacks are the exposed batch.  React renders the panel
    unless a row of the aggregate has an object for a child. *)
Theorem panel_shows_highest_counts
    (toLocaleTimeString : Z -> string) (toFixed_1 : number -> string)
    (Number_toString : number -> string) (now start : Z)
    (allAttacks exposed : list json)
    (today : option number) (byCountry : option (list json))
    (connected : bool) (updated : option Z) :
  countable Number_toString allAttacks ->
  exists s,
    calculateStats Number_toString now start allAttacks = Returns s
    /\ let shown := StatisticsPanel toLocaleTimeString toFixed_1 exposed
                      (s, today, byCountry) connected updated in
       let heads (limit : nat) (groups rows : list (string * nat)) :=
         length rows = limit `min` length groups
         /\ (forall i g, i < limit -> groups !! i = Some g ->
               rows !! i = Some (if decide (g.1 = "") then "Unknown" else g.1, g.2))
         /\ (forall i j a b, i < limit <= j ->
               groups !! i = Some a -> groups !! j = Some b -> b.2 <= a.2) in
       heads 5 (topSourceCountries s) (negaraSumberTeratas shown)
       /\ heads 5 (topTargetCountries s) (negaraTargetTeratas shown)
       /\ heads 3 (attackTypes s) (jenisSerangan shown)
       /\ totalSerangan shown = length allAttacks
       /\ seranganAktif shown = length exposed
       /\ (React_render shown = Shown shown
           <-> Forall renderable (getTopCountries byCountry 5)).
Proof.
  intros Hcountable.
  destruct (proj2 (calculateStats_Returns_iff Number_toString now start allAttacks)
              Hcountable) as [s Hstats].
  exists s. split; [exact Hstats|].
  apply calculateStats_returns_inv in Hstats
    as (sources & targets & types & Hcount & Hs & Ht & Hy & Htotal & _).
  apply forEach_tally in Hcount as (ss & ts & ys & _ & _ & _ & [= -> -> ->]).
  simpl in Hs, Ht, Hy.
  apply ranking_ranked in Hs, Ht, Hy. cbv zeta.
  split; [|split; [|split; [|split; [|split]]]]; [..|apply panel_renders].
  all: cbn [StatisticsPanel negaraSumberTeratas negaraTargetTeratas jenisSerangan
              totalSerangan seranganAktif getTopCountries].
  all: rewrite ?(slice_first_take 5), ?(slice_first_take 3).
  - exact (top_rows _ _ 5 Hs).
  - exact (top_rows _ _ 5 Ht).
  - exact (top_rows _ _ 3 Hy).
  - done.
  - done.
Qed.

Lemma panel_witness :
  exists s,
    calculateStats Number_toString_unused 60000 0 six_attacks = Returns s
    /\ attackTypes s = [("b", 2); ("7", 1); ("9", 1); ("10", 1); ("x", 1)]
    /\ jenisSerangan (StatisticsPanel time_unused rate_unused [] (s, None, None) true None)
         !! 0 = Some ("b", 2).
Proof.
  destruct (panel_shows_highest_counts time_unused rate_unused Number_toString_unused
              60000 0 six_attacks [] None None true None)
    as (s & Hs & _ & _ & (_ & Hrows & _) & _).
  { apply (proj1 (calculateStats_Returns_iff Number_toString_unused 60000 0 six_attacks)).
    eexists. vm_compute. reflexivity. }
  assert (s = {| totalAttacks := 6; attacksPerMinute := Finite 6;
                 topSourceCountries := [("Unknown", 6)];
                 topTargetCountries := [("Unknown", 6)];
                 attackTypes := [("b", 2); ("7", 1); ("9", 1); ("10", 1); ("x", 1)] |})
    as Heq.
  { assert (Returns s = Returns {| totalAttacks := 6; attacksPerMinute := Finite 6;
                 topSourceCountries := [("Unknown", 6)];
                 topTargetCountries := [("Unknown", 6)];
                 attackTypes := [("b", 2); ("7", 1); ("9", 1); ("10", 1); ("x", 1)] |})
      as [= ->]; [|done].
    rewrite <- Hs. vm_compute. reflexivity. }
  exists s. split; [exact Hs|]. split; [by rewrite Heq|].
  apply (Hrows 0 ("b", 2)); [lia|by rewrite Heq].
Defined.

(** X15: after an aggregate message with an array of countries, the
    panel is given the first five items in the order the server sent
    them, not ranked by count; an item that is [null] or has no country
    is labelled [Unknown], and an item with no count shows 0.  React
    renders the panel exactly when neither child of these rows is an
    object or an array that holds one; otherwise the render throws. *)
Theorem today_rows_are_first_five_as_sent
    (toLocaleTimeString : Z -> string) (toFixed_1 : number -> string)
    (JSON_parse : string -> option json) (options : UseWebSocketOptions)
    (ws : nat) (data : string) (now : Z) (h : hook)
    (members payload : list (string * json)) (cs : list json) (local : Stats) :
  data <> "" ->
  JSON_parse data = Some (JObj members) ->
  own_property "type" members = Some (JStr "statsToday") ->
  own_property "payload" members = Some (JObj payload) ->
  own_property "countries" payload = Some (JArr cs) ->
  let h' := step JSON_parse options (Message ws data now) h in
  let shown := StatisticsPanel toLocaleTimeString toFixed_1 (attacks h')
                 (local, todayTotal h', todayByCountry h')
                 (isConnected h') (lastUpdate h') in
  let rows := hitHariIniPerNegara shown in
  rows = aggregate_row <$> take 5 cs
  /\ length rows = 5 `min` length cs
  /\ (forall i item, i < 5 -> cs !! i = Some item ->
        exists label count,
          rows !! i = Some (label, count)
          /\ (item = JNull \/ get (Some item) "country" = None ->
              label = Some (JStr "Unknown"))
          /\ (get (Some item) "count" = None -> count = Some (JNum (Finite 0)))
          /\ (forall c, get (Some item) "country" = Some (JStr c) -> c <> "" ->
                label = Some (JStr c)))
  /\ (React_render shown = Shown shown <-> Forall renderable (take 5 cs))
  /\ (React_render shown = ThrowsError <-> Exists (fun item => ~ renderable item) (take 5 cs))
  /\ (forall i item fields, i < 5 -> cs !! i = Some item ->
        get (Some item) "country" = Some (JObj fields)
        \/ get (Some item) "count" = Some (JObj fields) ->
        React_render shown = ThrowsError).
Proof.
  intros Hdata Hparse Htype Hpayload Hcountries. cbv zeta.
  assert (todayByCountry (step JSON_parse options (Message ws data now) h) = Some cs) as Hcs.
  { cbn [step]. unfold onmessage.
    destruct (String.eqb_spec data "") as [|_]; [done|]. rewrite Hparse.
    cbn [ToBoolean typeof get andb]. rewrite Htype.
    cbn [strict_equals]. rewrite String.eqb_refl. cbn [String.eqb andb].
    unfold on_statsToday. cbn [get]. rewrite Hpayload.
    unfold or_else. cbn [ToBoolean get]. by rewrite Hcountries. }
  pose proof (panel_renders toLocaleTimeString toFixed_1
                (attacks (step JSON_parse options (Message ws data now) h)) local
                (todayTotal (step JSON_parse options (Message ws data now) h))
                (todayByCountry (step JSON_parse options (Message ws data now) h))
                (isConnected (step JSON_parse options (Message ws data now) h))
                (lastUpdate (step JSON_parse options (Message ws data now) h))) as Hrender.
  cbv zeta in Hrender. rewrite Hcs in Hrender. cbn [getTopCountries] in Hrender.
  rewrite (slice_first_take 5) in Hrender.
  assert (Hthrows :
            React_render
              (StatisticsPanel toLocaleTimeString toFixed_1
                 (attacks (step JSON_parse options (Message ws data now) h))
                 (local, todayTotal (step JSON_parse options (Message ws data now) h), Some cs)
                 (isConnected (step JSON_parse options (Message ws data now) h))
                 (lastUpdate (step JSON_parse options (Message ws data now) h)))
            = ThrowsError
            <-> Exists (fun item => ~ renderable item) (take 5 cs)).
  { assert (forall item, Decision (renderable item)) as Hdec
      by (intros item; unfold renderable; apply _).
    split.
    - intros Hthrows. apply (not_Forall_Exists _). rewrite <- Hrender. congruence.
    - intros Hexists%Exists_not_Forall. rewrite <- Hrender in Hexists.
      unfold React_render in *. by destruct (forallb _ _). }
  rewrite Hcs.
  split; [|split; [|split; [|split; [exact Hrender|split; [exact Hthrows|]]]]].
  1-3: cbn [StatisticsPanel hitHariIniPerNegara getTopCountries];
       rewrite (slice_first_take 5).
  - done.
  - rewrite length_fmap, length_take. lia.
  - intros i item Hi Hitem. eexists _, _.
    split; [rewrite list_lookup_fmap, lookup_take_lt, Hitem by done; reflexivity|].
    unfold or_else. split; [|split].
    + intros [-> | Hnone]; [done|]. destruct item; try done. cbn [optional]. by rewrite Hnone.
    + intros Hnone. destruct item; try done. cbn [optional]. by rewrite Hnone.
    + intros c Hc Hne. destruct item; try done. cbn [optional]. rewrite Hc.
      cbn [ToBoolean]. by destruct (String.eqb_spec c "").
  - intros i item fields Hi Hitem Hobject. apply Hthrows.
    apply Exists_exists. exists item. split.
    { apply list_elem_of_lookup. exists i. by rewrite lookup_take_lt. }
    unfold renderable, aggregate_row, or_else. intros [Hcountry Hcount].
    destruct item; try (by destruct Hobject). cbn [optional] in Hcountry, Hcount.
    destruct Hobject as [Hget | Hget]; rewrite Hget in *; done.
Qed.

(** An aggregate of one country, which is rendered, and one whose
    country is an object, on which the render throws. *)
Lemma today_rows_witness :
  (let h' := step JSON_parse_examples default_options
               (Message 0 (wire "{'type':'statsToday','payload':{'total':42,'countries':[{'country':'A','count':42}]}}") 5)
               (initial 0) in
   let shown := StatisticsPanel time_unused rate_unused (attacks h')
                  ({| totalAttacks := 0; attacksPerMinute := Finite 0;
                      topSourceCountries := []; topTargetCountries := [];
                      attackTypes := [] |},
                   todayTotal h', todayByCountry h') (isConnected h') (lastUpdate h') in
   hitHariIniPerNegara shown = [(Some (JStr "A"), Some (JNum (Finite 42)))]
   /\ React_render shown = Shown shown)
  /\ (let h' := step JSON_parse_objects default_options
                  (Message 0 (wire "{'type':'statsToday','payload':{'countries':[{'country':{'code':'A'},'count':1}]}}") 5)
                  (initial 0) in
      React_render
        (StatisticsPanel time_unused rate_unused (attacks h')
           ({| totalAttacks := 0; attacksPerMinute := Finite 0;
               topSourceCountries := []; topTargetCountries := [];
               attackTypes := [] |},
            todayTotal h', todayByCountry h') (isConnected h') (lastUpdate h'))
      = ThrowsError).
Proof.
  split.
  - destruct (today_rows_are_first_five_as_sent time_unused rate_unused JSON_parse_examples
           default_options 0
           (wire "{'type':'statsToday','payload':{'total':42,'countries':[{'country':'A','count':42}]}}")
           5 (initial 0)
           [("type", JStr "statsToday");
            ("payload", JObj [("total", JNum (Finite 42));
                              ("countries", JArr [JObj [("country", JStr "A");
                                                        ("count", JNum (Finite 42))]])])]
           [("total", JNum (Finite 42));
            ("countries", JArr [JObj [("country", JStr "A"); ("count", JNum (Finite 42))]])]
           [JObj [("country", JStr "A"); ("count", JNum (Finite 42))]]
           {| totalAttacks := 0; attacksPerMinute := Finite 0;
              topSourceCountries := []; topTargetCountries := []; attackTypes := [] |})
      as (Hrows & _ & _ & Hshown & _).
    + vm_compute. discriminate.
    + vm_compute. reflexivity.
    + reflexivity.
    + reflexivity.
    + reflexivity.
    + split; [exact Hrows|]. apply Hshown. repeat constructor.
  - destruct (today_rows_are_first_five_as_sent time_unused rate_unused JSON_parse_objects
           default_options 0
           (wire "{'type':'statsToday','payload':{'countries':[{'country':{'code':'A'},'count':1}]}}")
           5 (initial 0)
           [("type", JStr "statsToday");
            ("payload", JObj [("countries", JArr [JObj [("country", JObj [("code", JStr "A")]);
                                                        ("count", JNum (Finite 1))]])])]
           [("countries", JArr [JObj [("country", JObj [("code", JStr "A")]);
                                      ("count", JNum (Finite 1))]])]
           [JObj [("country", JObj [("code", JStr "A")]); ("count", JNum (Finite 1))]]
           {| totalAttacks := 0; attacksPerMinute := Finite 0;
              topSourceCountries := []; topTargetCountries := []; attackTypes := [] |})
      as (_ & _ & _ & _ & _ & Hthrows).
    + vm_compute. discriminate.
    + vm_compute. reflexivity.
    + reflexivity.
    + reflexivity.
    + reflexivity.
    + apply (Hthrows 0 (JObj [("country", JObj [("code", JStr "A")]); ("count", JNum (Finite 1))])
               [("code", JStr "A")]); [lia|reflexivity|by left].
Defined.
(** * The map *)

(** X16: the map skips an event exactly when the hook's validator
    rejects it, whatever the candidate: the two tests, written apart in
    the hook and in both map components, accept the same values. *)
Theorem map_skips_what_the_validator_rejects (attack : json) :
  skipped attack = negb (isValidAttack attack).
Proof.
  unfold skipped, isValidAttack.
  destruct attack as [|b|n|s|items|members];
    try (cbn; rewrite ?andb_false_r; cbn; done).
  cbn [optional get ToBoolean typeof String.eqb Ascii.eqb Bool.eqb andb].
  by rewrite !negb_andb.
Qed.

Section Drawing.
Variable projection : number * number -> option (number * number).

Lemma valid_is_not_skipped (attack : json) :
  isValidAttack attack = true -> skipped attack = false.
Proof.
  unfold skipped, isValidAttack. intros H. repeat (apply andb_prop in H as [H ?]).
  destruct attack as [| | | | |members]; try done. cbn [optional].
  by repeat match goal with H : _ = true |- _ => rewrite H; clear H end.
Qed.

Lemma number_typeof (v : value) :
  String.eqb (typeof v) "number" = true -> exists n, v = Some (JNum n).
Proof. destruct v as [[]|]; try done. by eexists. Qed.

(** What is drawn for a valid event whose two points the projection
    places. *)
Lemma draw_attack_valid (attack : json) :
  isValidAttack attack = true ->
  exists slon slat dlon dlat,
    get (get (Some attack) "src_geo") "lon" = Some (JNum slon)
    /\ get (get (Some attack) "src_geo") "lat" = Some (JNum slat)
    /\ get (get (Some attack) "dst_geo") "lon" = Some (JNum dlon)
    /\ get (get (Some attack) "dst_geo") "lat" = Some (JNum dlat)
    /\ draw_attack projection attack
       = match projection (slon, slat), projection (dlon, dlat) with
         | Some source, Some target =>
             [ line "attack-line" source.1 source.2 source.1 source.2 "#ff4444";
               circle "attack-point" source.1 source.2 (Finite 0) "#ff4444";
               circle "attack-point" target.1 target.2 (Finite 0) "#ff6666" ]
         | _, _ => []
         end.
Proof.
  intros Hvalid. unfold draw_attack.
  rewrite valid_is_not_skipped by done.
  unfold isValidAttack in Hvalid. repeat (apply andb_prop in Hvalid as [Hvalid ?]).
  repeat match goal with
         | H : String.eqb (typeof _) "number" = true |- _ =>
             apply number_typeof in H as [? ?]
         end.
  eexists _, _, _, _. repeat (split; [eassumption|]).
  cbv zeta. by repeat match goal with H : get _ _ = Some (JNum _) |- _ => rewrite H; clear H end.
Qed.
End Drawing.

Section DrawingRuns.
Variable projection : number * number -> option (number * number).

Lemma draw_attack_length (attack : json) :
  length (draw_attack projection attack) <= 3
  /\ (isValidAttack attack = true -> (forall p, is_Some (projection p)) ->
      length (draw_attack projection attack) = 3).
Proof.
  split.
  - unfold draw_attack. destruct (skipped attack); [simpl; lia|]. cbv zeta.
    repeat case_match; simpl; lia.
  - intros Hvalid Htotal.
    destruct (draw_attack_valid projection attack Hvalid)
      as (slon & slat & dlon & dlat & _ & _ & _ & _ & ->).
    destruct (Htotal (slon, slat)) as [? ->], (Htotal (dlon, dlat)) as [? ->]. done.
Qed.

Lemma draw_attacks_length (attacks : list json) :
  length (draw_attacks projection attacks) <= 3 * length attacks
  /\ (Forall (fun attack => isValidAttack attack = true) attacks ->
      (forall p, is_Some (projection p)) ->
      length (draw_attacks projection attacks) = 3 * length attacks).
Proof.
  unfold draw_attacks. induction attacks as [|a l [IH1 IH2]]; [done|].
  cbn [flat_map]. rewrite length_app. destruct (draw_attack_length a) as [Hle Heq].
  split; [simpl; lia|]. intros [Ha Hl]%Forall_cons Htotal.
  rewrite Heq, IH2 by done. simpl. lia.
Qed.
End DrawingRuns.

(** X17: every event the hook holds, in the buffer and in the exposed
    batch, passes the validator, so the map skips none of the attacks it
    is given: it appends at most three elements for an event, and
    exactly a line and two points for each when the projection places
    every point. *)
Theorem map_draws_every_exposed_event
    (projection : number * number -> option (number * number))
    (JSON_parse : string -> option json) (options : UseWebSocketOptions)
    (trace : list event) (start : Z) (h : hook) :
  run JSON_parse options trace (initial start) = Some h ->
  Forall (fun attack => isValidAttack attack = true) (allAttacksRef h)
  /\ Forall (fun attack => skipped attack = false) (attacks h)
  /\ length (draw_attacks projection (attacks h)) <= 3 * length (attacks h)
  /\ ((forall p, is_Some (projection p)) ->
      length (draw_attacks projection (attacks h)) = 3 * length (attacks h)).
Proof.
  intros Hrun.
  assert (Forall (fun attack => isValidAttack attack = true) (attacks h)) as Hexposed.
  { pose proof (run_exposed JSON_parse options trace (initial start) h Hrun) as Heq.
    apply (f_equal fst) in Heq. cbn [fst attacks lastUpdate initial] in Heq. rewrite Heq.
    apply (last_batch_valid JSON_parse trace ([], None)). constructor. }
  split; [|split; [|split]].
  - rewrite (run_buffer JSON_parse options trace (initial start) h (Nat.le_0_l _) Hrun).
    cbn [allAttacksRef initial app]. unfold slice_last.
    apply Forall_drop, arrivals_valid.
  - eapply Forall_impl; [exact Hexposed|]. intros a. apply valid_is_not_skipped.
  - apply draw_attacks_length.
  - by apply draw_attacks_length.
Qed.

Lemma map_draws_witness :
  let h := on_batch [attack_of_type "ddos"; JNum (Finite 5)] 9
             (onopen (set_sockets [OPEN] (connect default_options (initial 0)))) in
  draw_attacks plate_carree (attacks h)
  = [ line "attack-line" (Finite 2) (Finite 1) (Finite 2) (Finite 1) "#ff4444";
      circle "attack-point" (Finite 2) (Finite 1) (Finite 0) "#ff4444";
      circle "attack-point" (Finite 4) (Finite 3) (Finite 0) "#ff6666" ]
  /\ length (draw_attacks plate_carree (attacks h)) = 3 * length (attacks h).
Proof.
  intros h. split; [reflexivity|].
  apply (map_draws_every_exposed_event plate_carree JSON_parse_examples default_options
           mixed_batch_trace 0 h); [vm_compute; reflexivity|].
  intros p. by eexists.
Defined.
(** * The size of the window *)

Lemma number_or_truthy (a b : number) : truthy b -> truthy (number_or a b).
Proof. unfold truthy, number_or. by destruct (ToBoolean (Some (JNum a))) eqn:Ha. Qed.

Lemma measure_truthy (w : Window) :
  truthy (width (measure w)) /\ truthy (height (measure w)).
Proof. split; by apply number_or_truthy. Qed.

Lemma positive_truthy (n : number) : le_zero n = false -> n <> NaN -> truthy n.
Proof.
  unfold truthy. destruct n as [q| |]; try done. simpl. intros Hle _.
  destruct (Qeq_bool q 0) eqn:Heq; [|done].
  apply Qeq_bool_iff in Heq. assert (Qle_bool q 0 = true) as Hq; [|congruence].
  apply Qle_bool_iff. rewrite Heq. apply Qle_refl.
Qed.

Lemma measure_reported (w : Window) :
  reported w ->
  (le_zero (width (measure w)) = false /\ width (measure w) <> NaN)
  /\ (le_zero (height (measure w)) = false /\ height (measure w) <> NaN).
Proof.
  assert (Hpos : forall q fallback, (0 <= q)%Q -> le_zero (Finite fallback) = false ->
             le_zero (number_or (Finite q) (Finite fallback)) = false
             /\ number_or (Finite q) (Finite fallback) <> NaN).
  { intros q fallback Hq Hfallback. unfold number_or. cbn [ToBoolean].
    destruct (Qeq_bool q 0) eqn:Heq; cbn [negb]; [done|]. split; [|done].
    cbn [le_zero]. destruct (Qle_bool q 0) eqn:Hle; [|done].
    apply Qle_bool_iff in Hle. apply Qeq_bool_neq in Heq. destruct Heq.
    by apply Qle_antisym. }
  intros (a & b & Ha & Hb & ? & ?). unfold measure. cbn [width height].
  rewrite Ha, Hb. split; by apply Hpos.
Qed.

Lemma resize_run_snoc (trace : list resizing) (e : resizing) (s : sizing) :
  resize_run (trace ++ [e]) s = resize_step e (resize_run trace s).
Proof. unfold resize_run. by rewrite foldl_snoc. Qed.

Lemma resize_run_measures (w0 : Window) (trace : list resizing) :
  let s := resize_run trace (rendered w0) in
  (exists w, w ∈ w0 :: windows trace /\ windowSize s = measure w)
  /\ (listening s = true -> windowSize s = measure (window s))
  /\ last (w0 :: windows trace) = Some (window s).
Proof.
  induction trace as [|e trace IH] using rev_ind; cbv zeta in *.
  - split; [exists w0; split; [left|done]|]. done.
  - destruct IH as ([w [Hw Hsize]] & Hlisten & Hlast). rewrite resize_run_snoc. unfold windows in *. rewrite omap_app.
    set (s := resize_run trace (rendered w0)) in *.
    destruct e as [|inner|]; simpl.
    + rewrite app_nil_r. split; [|done].
      exists (window s). split; [|done].
      rewrite last_lookup in Hlast. by eapply list_elem_of_lookup_2.
    + split; [|split].
      * destruct (listening s) eqn:Hl; cbn [windowSize].
        -- exists inner. split; [|done]. rewrite app_comm_cons, elem_of_app. right. left.
        -- exists w. split; [|done]. rewrite app_comm_cons, elem_of_app. by left.
      * by destruct (listening s).
      * rewrite (app_comm_cons _ _ w0), last_snoc. by destruct (listening s).
    + rewrite app_nil_r. split; [by exists w|]. done.
Qed.

(** X18: the size [useWindowSize] returns is always measured from some
    size the window had, and while the hook listens from the current
    one; neither dimension is ever 0 or [NaN], the missing ones falling
    back to 1200 and 800.  After the cleanup the size stays as it is
    whatever the window does. *)
Theorem windowSize_tracks_window (w0 : Window) (trace : list resizing) :
  let s := resize_run trace (rendered w0) in
  (exists w, w ∈ w0 :: windows trace /\ windowSize s = measure w)
  /\ (listening s = true -> windowSize s = measure (window s))
  /\ truthy (width (windowSize s)) /\ truthy (height (windowSize s))
  /\ (forall later, Mount ∉ later ->
        listening s = false ->
        windowSize (resize_run later s) = windowSize s).
Proof.
  cbv zeta. destruct (resize_run_measures w0 trace) as ([w [Hw Hsize]] & Hlisten & _).
  split; [by exists w|]. split; [done|].
  split; [rewrite Hsize; apply measure_truthy|].
  split; [rewrite Hsize; apply measure_truthy|].
  intros later. generalize (resize_run trace (rendered w0)). clear.
  induction later as [|e later IH]; intros s Hmount Hoff; [done|].
  apply not_elem_of_cons in Hmount as [Hne Hmount].
  change (resize_run (e :: later) s) with (resize_run later (resize_step e s)).
  destruct e as [|inner|]; [by destruct Hne|..]; cbn [resize_step listening]; rewrite ?Hoff.
  - by rewrite (IH _ Hmount).
  - by rewrite (IH _ Hmount).
Qed.

(** X19: in a browser, whose window has finite sizes that are not
    negative, the map that [App] renders, without size props, always has
    an area: the size test of its effects never stops the drawing, a
    window of size 0 being drawn at 1200 by 800. *)
Theorem map_has_area_in_reported_windows (w0 : Window) (trace : list resizing) :
  reported w0 ->
  Forall reported (windows trace) ->
  let size := windowSize (resize_run trace (rendered w0)) in
  let w := dimension None (width size) (Finite 1200) in
  let h := dimension None (height size) (Finite 800) in
  no_area w h = false /\ w = width size /\ h = height size.
Proof.
  intros Hw0 Htrace. cbv zeta.
  destruct (resize_run_measures w0 trace) as ([w [Hw ->]] & _).
  assert (reported w) as Hreported.
  { apply elem_of_cons in Hw as [->|Hw]; [done|].
    rewrite Forall_forall in Htrace. by apply Htrace. }
  destruct (measure_reported w Hreported) as [[Hwidth ?] [Hheight ?]].
  unfold dimension, no_area, number_or.
  rewrite (positive_truthy (width (measure w))), (positive_truthy (height (measure w)))
    by done.
  by rewrite Hwidth, Hheight.
Qed.

Lemma map_area_witness :
  let size := windowSize
                (resize_run [Mount; Resize {| innerWidth := Finite 0; innerHeight := Finite 600 |}]
                   (rendered {| innerWidth := Finite 1024; innerHeight := Finite 768 |})) in
  no_area (dimension None (width size) (Finite 1200))
          (dimension None (height size) (Finite 800)) = false
  /\ dimension None (width size) (Finite 1200) = Finite 1200.
Proof.
  assert (Hzero : (0 <= 0)%Q) by done.
  assert (H600 : (0 <= 600)%Q) by done.
  assert (H1024 : (0 <= 1024)%Q) by done.
  assert (H768 : (0 <= 768)%Q) by done.
  destruct (map_has_area_in_reported_windows
              {| innerWidth := Finite 1024; innerHeight := Finite 768 |}
              [Mount; Resize {| innerWidth := Finite 0; innerHeight := Finite 600 |}])
    as (Harea & Hwidth & _).
  - by exists 1024%Q, 768%Q.
  - constructor; [|constructor]. by exists 0%Q, 600%Q.
  - split; [exact Harea|]. rewrite Hwidth. reflexivity.
Defined.
(** * Connection and data *)

Section Independence.
Variable JSON_parse : string -> option json.
Variable options : UseWebSocketOptions.

Lemma enabled_control (e : event) (h1 h2 : hook) :
  control h1 = control h2 -> enabled e h1 = enabled e h2.
Proof. unfold control. intros [= _ _ _ _ Hs Ht]. destruct e; simpl; by rewrite ?Hs, ?Ht. Qed.

Lemma message_control (ws : nat) (data : string) (now : Z) (h : hook) :
  control (step JSON_parse options (Message ws data now) h) = control h.
Proof.
  cbn [step]. unfold control.
  by destruct (onmessage_frame JSON_parse data now h) as (-> & -> & -> & -> & -> & -> & _).
Qed.

Lemma step_control (e : event) (h1 h2 : hook) :
  is_message e = false ->
  control h1 = control h2 ->
  control (step JSON_parse options e h1) = control (step JSON_parse options e h2).
Proof.
  unfold control. intros He [= Hc Hw Ha Hr Hs Ht].
  destruct e as [| |ws|ws data now|ws failed|t]; try done; cbn [step].
  - unfold connect. destruct (url_constructs options); simpl; congruence.
  - unfold cleanup, clearTimeout, close. rewrite Hr, Ht.
    destruct (reconnectTimeoutRef h2) as [t|] eqn:Hr2;
      [destruct (timers h2 !! t) as [[]|]|].
    all: cbn [wsRef sockets set_timers]; rewrite Hw, Hs.
    all: destruct (wsRef h2) as [ws|] eqn:Hw2; [destruct (sockets h2 !! ws) as [[]|]|].
    all: simpl; congruence.
  - simpl. congruence.
  - unfold onclose. cbn [reconnectAttemptsRef setIsConnected].
    assert (forall h, reconnectAttemptsRef
                        (if failed then onerror (set_sockets (<[ws:=CLOSED]> (sockets h)) h)
                         else set_sockets (<[ws:=CLOSED]> (sockets h)) h)
                      = reconnectAttemptsRef h) as Hsame by by destruct failed.
    rewrite !Hsame, Ha. destruct (_ <? _)%Z; destruct failed; simpl; congruence.
  - unfold connect. destruct (url_constructs options); simpl; congruence.
Qed.

Lemma run_control (trace : list event) (h1 h2 h : hook) :
  control h1 = control h2 ->
  run JSON_parse options trace h1 = Some h ->
  exists h', run JSON_parse options (filter (fun e => is_message e = false) trace) h2 = Some h'
             /\ control h' = control h.
Proof.
  revert h1 h2. induction trace as [|e trace IH]; intros h1 h2 Hc; simpl.
  - intros [= <-]. by exists h2.
  - destruct (enabled e h1) eqn:Hen; [|done]. intros Hrun.
    destruct (is_message e) eqn:He.
    + rewrite filter_cons, decide_False by congruence.
      apply (IH _ h2) in Hrun; [done|].
      destruct e; try done. by rewrite message_control.
    + rewrite filter_cons, decide_True by done. simpl.
      rewrite <- (enabled_control e h1 h2 Hc), Hen.
      apply (IH _ _ (step_control e h1 h2 He Hc) Hrun).
Qed.
End Independence.

(** X20: the connection takes no account of the data.  A message changes
    neither the connection flag, nor a ref of the connection, nor a
    socket or timer, and it clears no error: the error cell is as
    before, or holds the parse error of that message.  So the run
    without its messages is a run too, and ends with the same sockets,
    timers, refs and connection flag. *)
Theorem connection_ignores_messages
    (JSON_parse : string -> option json) (options : UseWebSocketOptions)
    (trace : list event) (start : Z) (h : hook) :
  run JSON_parse options trace (initial start) = Some h ->
  (forall ws data now h0,
      let h1 := step JSON_parse options (Message ws data now) h0 in
      control h1 = control h0
      /\ (error h1 = error h0
          \/ JSON_parse data = None /\ error h1 = Some "Error parsing attack data"))
  /\ exists h',
       run JSON_parse options (filter (fun e => is_message e = false) trace) (initial start)
       = Some h'
       /\ control h' = control h.
Proof.
  intros Hrun. split; [|by apply (run_control JSON_parse options trace (initial start))].
  intros ws data now h0. cbv zeta. split; [apply message_control|].
  cbn [step]. unfold onmessage, on_batch, on_statsToday.
  destruct (String.eqb data ""); [by left|].
  destruct (JSON_parse data) as [parsed|]; [left|by right].
  destruct parsed; cbn [ToBoolean typeof get andb String.eqb]; try done.
  all: repeat match goal with
              | |- context [if ?c then _ else _] => destruct c
              end; done.
Qed.

Lemma connection_witness :
  let h := on_batch [attack_of_type "ddos"; JNum (Finite 5)] 9
             (onopen (set_sockets [OPEN] (connect default_options (initial 0)))) in
  exists h',
    run JSON_parse_examples default_options [Effect; Opened 0] (initial 0) = Some h'
    /\ control h' = control h.
Proof.
  intros h.
  apply (connection_ignores_messages JSON_parse_examples default_options
           mixed_batch_trace 0 h).
  vm_compute. reflexivity.
Defined.

(** ** The exposed batch and the buffer *)

Lemma slice_last_suffix {A : Type} (n : nat) (pre batch : list A) :
  slice_last n batch `suffix_of` slice_last n (pre ++ batch).
Proof.
  unfold slice_last. rewrite length_app.
  destruct (decide (length pre + length batch - n <= length pre)).
  - rewrite drop_app_le by done.
    assert (length batch - n = 0) as -> by lia. simpl. by eexists.
  - rewrite drop_app_ge by lia.
    replace (length batch - n) with
      ((length pre + length batch - n - length pre) + 0) by lia.
    exists []. simpl. f_equal. lia.
Qed.

Lemma arrivals_end_with_last_batch (JSON_parse : string -> option json)
    (trace : list event) (before : list json) (acc : list json * option Z) :
  acc.1 `suffix_of` before ->
  (foldl (fun acc e => match e with
                       | Message _ data now =>
                           let batch := validAttacks JSON_parse data in
                           if (0 <? length batch)%nat then (batch, Some now) else acc
                       | _ => acc
                       end) acc trace).1
  `suffix_of` before ++ arrivals JSON_parse trace.
Proof.
  revert before acc. induction trace as [|e trace IH]; intros before acc Hacc.
  - simpl. unfold arrivals. simpl. by rewrite app_nil_r.
  - change (e :: trace) with ([e] ++ trace). unfold arrivals in *.
    rewrite flat_map_app, app_assoc, foldl_app. apply IH.
    destruct e as [| |ws|ws data now|ws failed|t]; simpl; rewrite ?app_nil_r; try done.
    destruct (validAttacks JSON_parse data) as [|a batch]; simpl.
    + by rewrite app_nil_r.
    + by apply suffix_app_r.
Qed.

(** X21: the exposed batch is the tail of the buffer: the last 1000
    events of the attacks the hook exposes are the last events of the
    buffer the statistics are computed from, so the map never shows an
    event that the statistics have not counted, and the total is at
    least the number of attacks shown, up to 1000. *)
Theorem exposed_batch_is_tail_of_buffer
    (JSON_parse : string -> option json) (options : UseWebSocketOptions)
    (trace : list event) (start : Z) (h : hook) :
  run JSON_parse options trace (initial start) = Some h ->
  slice_last 1000 (attacks h) `suffix_of` allAttacksRef h
  /\ length (attacks h) `min` 1000 <= length (allAttacksRef h).
Proof.
  intros Hrun.
  assert (slice_last 1000 (attacks h) `suffix_of` allAttacksRef h) as Hsuffix.
  { rewrite (run_buffer JSON_parse options trace (initial start) h (Nat.le_0_l _) Hrun).
    pose proof (run_exposed JSON_parse options trace (initial start) h Hrun) as Heq.
    apply (f_equal fst) in Heq. cbn [fst attacks lastUpdate initial] in Heq.
    cbn [allAttacksRef initial app].
    destruct (arrivals_end_with_last_batch JSON_parse trace [] ([], None)) as [pre Hpre];
      [done|].
    cbn [app] in Hpre. rewrite Hpre, <- Heq. apply slice_last_suffix. }
  split; [done|]. apply suffix_length in Hsuffix.
  unfold slice_last in Hsuffix at 1. rewrite length_drop in Hsuffix. lia.
Qed.

Lemma exposed_tail_witness :
  let h := on_batch [attack_of_type "ddos"; JNum (Finite 5)] 9
             (onopen (set_sockets [OPEN] (connect default_options (initial 0)))) in
  slice_last 1000 (attacks h) `suffix_of` allAttacksRef h.
Proof.
  intros h.
  apply (exposed_batch_is_tail_of_buffer JSON_parse_examples default_options
           mixed_batch_trace 0 h).
  vm_compute. reflexivity.
Defined.
(** ** One connection for each run of the effect *)

Lemma filter_insert_length {A : Type} (P : A -> Prop) `{!forall x, Decision (P x)}
    (l : list A) (i : nat) (x y : A) :
  l !! i = Some x ->
  length (filter P (<[i:=y]> l)) + (if decide (P x) then 1 else 0)
  = length (filter P l) + (if decide (P y) then 1 else 0).
Proof.
  revert i. induction l as [|z l IH]; intros [|i] Hi; try done; simpl in *.
  - injection Hi as ->. rewrite !filter_cons.
    destruct (decide (P x)), (decide (P y)); simpl; lia.
  - rewrite !filter_cons. specialize (IH i Hi).
    destruct (decide (P z)); simpl; lia.
Qed.

Lemma pending_from_length (i : nat) (ts : list timer) :
  length (pending_from i ts) = length (filter (fun t => t = Pending) ts).
Proof.
  revert i. induction ts as [|t ts IH]; intros i; [done|].
  rewrite filter_cons. destruct t; simpl; by rewrite IH.
Qed.

Section Connections.
Variable JSON_parse : string -> option json.
Variable options : UseWebSocketOptions.

Lemma connect_connections (h : hook) :
  length (alive (connect options h)) + length (pending (connect options h))
  <= S (length (alive h) + length (pending h)).
Proof.
  unfold alive, pending, connect. destruct (url_constructs options); simpl; [|lia].
  rewrite filter_app, length_app. simpl. lia.
Qed.

Lemma step_connections (e : event) (h : hook) :
  enabled e h = true ->
  length (alive (step JSON_parse options e h)) + length (pending (step JSON_parse options e h))
  <= (if is_effect e then 1 else 0) + (length (alive h) + length (pending h)).
Proof.
  intros Hen. destruct e as [| |ws|ws data now|ws failed|t]; cbn [step is_effect].
  - pose proof (connect_connections h). lia.
  - unfold alive, pending, cleanup, clearTimeout, close. rewrite !pending_from_length.
    assert (Hclose : forall h0 : hook,
               let h1 := match wsRef h0 with
                         | Some ws =>
                             match sockets h0 !! ws with
                             | Some CONNECTING | Some OPEN =>
                                 set_sockets (<[ws:=CLOSING]> (sockets h0)) h0
                             | _ => h0
                             end
                         | None => h0
                         end in
               length (filter (fun s => s <> CLOSED) (sockets h1))
               = length (filter (fun s => s <> CLOSED) (sockets h0))
               /\ timers h1 = timers h0).
    { intros h0. cbv zeta. destruct (wsRef h0) as [ws|]; [|done].
      destruct (sockets h0 !! ws) as [[]|] eqn:Hs; try done; cbn [sockets timers set_sockets].
      all: pose proof (filter_insert_length (fun s => s <> CLOSED) _ _ _ CLOSING Hs) as Hlen.
      all: rewrite !decide_True in Hlen by done.
      all: split; [lia|done]. }
    destruct (reconnectTimeoutRef h) as [t|];
      [destruct (timers h !! t) as [[]|] eqn:Ht|].
    all: match goal with
         | |- context [match wsRef ?h0 with _ => _ end] =>
             destruct (Hclose h0) as [-> ->]
         end; cbn [sockets timers set_timers]; try lia.
    pose proof (filter_insert_length (fun t => t = Pending) _ _ _ Cleared Ht) as Hlen.
    rewrite decide_True, decide_False in Hlen by done. lia.
  - simpl in Hen. apply bool_decide_eq_true in Hen. unfold alive, pending. simpl.
    pose proof (filter_insert_length (fun s => s <> CLOSED) _ _ _ OPEN Hen) as Hlen.
    rewrite !decide_True in Hlen by done. lia.
  - unfold alive, pending.
    destruct (onmessage_frame JSON_parse data now h) as (_ & -> & -> & _). lia.
  - simpl in Hen. apply bool_decide_eq_true in Hen as [[s Hs] Hne].
    unfold alive, pending, onclose. rewrite !pending_from_length.
    cbn [reconnectAttemptsRef setIsConnected].
    pose proof (filter_insert_length (fun s => s <> CLOSED) _ _ _ CLOSED Hs) as Hlen.
    rewrite decide_True, decide_False in Hlen by congruence.
    destruct (_ <? _)%Z; destruct failed; simpl; rewrite ?filter_app, ?length_app; simpl; lia.
  - simpl in Hen. apply bool_decide_eq_true in Hen.
    pose proof (connect_connections (set_timers (<[t:=Fired]> (timers h)) h)) as Hc.
    unfold alive, pending in *. rewrite !pending_from_length in *.
    cbn [sockets timers set_timers] in Hc.
    pose proof (filter_insert_length (fun t => t = Pending) _ _ _ Fired Hen) as Hlen.
    rewrite decide_True, decide_False in Hlen by done. lia.
Qed.

Lemma run_connections (trace : list event) (h0 h : hook) :
  run JSON_parse options trace h0 = Some h ->
  length (alive h) + length (pending h)
  <= effects trace + (length (alive h0) + length (pending h0)).
Proof.
  unfold effects. revert h0. induction trace as [|e trace IH]; intros h0; simpl.
  - intros [= <-]. lia.
  - destruct (enabled e h0) eqn:Hen; [|done]. intros Hrun%IH.
    pose proof (step_connections e h0 Hen) as Hstep. rewrite filter_cons.
    destruct (is_effect e); [rewrite decide_True by done|rewrite decide_False by done];
      simpl; lia.
Qed.
End Connections.

(** X22: at any time the sockets of the hook that are not closed and
    its pending retries are together no more than the runs of the
    effect: a hook whose effect ran once holds one connection, or waits
    for one retry, or has given up, and never opens a second socket
    beside a live one. *)
Theorem one_connection_for_each_effect
    (JSON_parse : string -> option json) (options : UseWebSocketOptions)
    (trace : list event) (start : Z) (h : hook) :
  run JSON_parse options trace (initial start) = Some h ->
  length (alive h) + length (pending h) <= effects trace.
Proof.
  intros Hrun%run_connections. unfold alive, pending in *. simpl in Hrun. lia.
Qed.

Lemma one_connection_witness :
  exists h,
    run JSON_parse_examples default_options
        [Effect; Opened 0; Closed 0 true; Timeout 0; Opened 1] (initial 0) = Some h
    /\ sockets h = [CLOSED; OPEN]
    /\ length (alive h) + length (pending h)
       <= effects [Effect; Opened 0; Closed 0 true; Timeout 0; Opened 1].
Proof.
  eexists. split; [vm_compute; reflexivity|]. split; [reflexivity|].
  apply (one_connection_for_each_effect JSON_parse_examples default_options
           [Effect; Opened 0; Closed 0 true; Timeout 0; Opened 1] 0).
  vm_compute. reflexivity.
Defined.
